(** * Host-side virtual file layer of wazero: a shallow embedding

    The development follows the Go sources:
    - [internal/platform/file.go]: the [File] contract, [fsFile];
    - [internal/platform/wrap_windows.go]: [windowsWrappedFile];
    - [internal/sysfs/readfs.go]: [readFS] and [readFile];
    - [internal/sysfs/adapter.go]: [adapter] and [cleanPath].

    Go methods with a pointer receiver mutate their receiver and call into
    a backing handle.  They are embedded as state-passing functions in a
    small state monad; every call that crosses into the backing layer is
    appended to a log carried by the state, so that statements of the form
    "without calling the underlying layer" are statements about that log. *)

From Stdlib Require Import ZArith List String Ascii Bool Lia.
From Stdlib.Strings Require Import Byte.
Import ListNotations.
Open Scope Z_scope.

(** ** A state monad *)

Definition M (S A : Type) : Type := S -> A * S.

Definition ret {S A : Type} (a : A) : M S A := fun s => (a, s).

Definition bind {S A B : Type} (m : M S A) (k : A -> M S B) : M S B :=
  fun s => let (a, s') := m s in k a s'.

Definition gets {S A : Type} (f : S -> A) : M S A := fun s => (f s, s).

Definition modify {S : Type} (f : S -> S) : M S unit := fun s => (tt, f s).

Declare Scope go_scope.
Delimit Scope go_scope with go.
Notation "x <- m ;; k" := (bind m (fun x => k))
  (at level 61, m at next level, right associativity) : go_scope.
Notation "' pat <- m ;; k" := (bind m (fun x => match x with pat => k end))
  (at level 61, pat pattern, m at next level, right associativity) : go_scope.
Notation "m ;;; k" := (bind m (fun _ => k))
  (at level 61, right associativity) : go_scope.
Open Scope go_scope.

(** ** [syscall.Errno]

    An [Errno] is a [uintptr]; zero is success.  The named values are the
    ones of [syscall] on linux/amd64 (the build of [OpenFile] in this
    tree).  Only their being distinct and non-zero is used. *)

Definition Errno : Type := Z.

Definition EIO     : Errno := 5.
Definition EBADF   : Errno := 9.
Definition ENOTDIR : Errno := 20.
Definition EISDIR  : Errno := 21.
Definition EINVAL  : Errno := 22.
Definition EROFS   : Errno := 30.
Definition ENOSYS  : Errno := 38.

(** [syscall.O_RDONLY], [O_WRONLY], [O_RDWR]; [os.O_*] are the same. *)
Definition O_RDONLY : Z := 0.
Definition O_WRONLY : Z := 1.
Definition O_RDWR   : Z := 2.

(** ** Go [error] values

    [nil] is [None].  The shapes below are the ones the sources build or
    inspect: a [syscall.Errno] used as an error, [io.EOF], a
    [*fs.PathError] and an opaque [errors.New] value. *)

Inductive error_val : Type :=
| ErrErrno (e : Errno)
| ErrEOF
| ErrPath (op path : string) (err : error_val)
| ErrOther (msg : string).

Definition error : Type := option error_val.

Definition is_nil (e : error) : bool :=
  match e with None => true | Some _ => false end.

(** ** [fs.FileMode] *)

Definition FileMode : Type := Z.

Definition ModeDir        : FileMode := Z.shiftl 1 31.
Definition ModeSymlink    : FileMode := Z.shiftl 1 27.
Definition ModeDevice     : FileMode := Z.shiftl 1 26.
Definition ModeNamedPipe  : FileMode := Z.shiftl 1 25.
Definition ModeSocket     : FileMode := Z.shiftl 1 24.
Definition ModeCharDevice : FileMode := Z.shiftl 1 21.
Definition ModeIrregular  : FileMode := Z.shiftl 1 19.

Definition ModeType : FileMode :=
  Z.lor ModeDir (Z.lor ModeSymlink (Z.lor ModeNamedPipe
    (Z.lor ModeSocket (Z.lor ModeDevice (Z.lor ModeCharDevice ModeIrregular))))).

(** [FileMode.IsDir] and [FileMode.Type]. *)
Definition FileMode_IsDir (m : FileMode) : bool := negb (Z.land m ModeDir =? 0).
Definition FileMode_Type (m : FileMode) : FileMode := Z.land m ModeType.

(** Modelled from the spec: the declaration of [platform.Stat_t] is not
    in this tree.  It is the "normalized snapshot": mode bits with the
    type, link count, size and the three timestamps. *)
Record Stat_t : Type := mkStat {
  st_Mode  : FileMode;
  st_Nlink : Z;
  st_Size  : Z;
  st_Atim  : Z;
  st_Mtim  : Z;
  st_Ctim  : Z
}.

Definition Stat_zero : Stat_t := mkStat 0 0 0 0 0 0.

(** * [platform.fsFile]: the native-backed File *)

Module FsFile.

(** Calls that reach the backing [fs.File] handle. *)
Inductive NativeCall : Type :=
| NStat
| NClose
| NRead (len : nat)
| NReadAt (len : nat) (off : Z)
| NSeek (offset whence : Z)
| NWrite (p : list byte)
| NWriteAt (p : list byte) (off : Z)
| NTruncate (size : Z)
| NChmod (mode : FileMode).

(** [io.SeekStart], [io.SeekCurrent], [io.SeekEnd]. *)
Definition SeekStart   : Z := 0.
Definition SeekCurrent : Z := 1.
Definition SeekEnd     : Z := 2.

(** [cachedStat]: the fields that do not change while a file is open. *)
Record cachedStat_t : Type := mkCachedStat { fileType : FileMode }.

(** [fsFile], without its [file] field: the handle that field refers to
    lives in the state, see [State]. *)
Record fsFile : Type := mkFsFile {
  path       : string;
  accessMode : Z;
  nonblock   : bool;
  cachedSt   : option cachedStat_t
}.

Definition set_cachedSt (c : option cachedStat_t) (f : fsFile) : fsFile :=
  mkFsFile (path f) (accessMode f) (nonblock f) c.

(** The result of a read: the count, the errno and the buffer as the call
    leaves it. *)
Definition ReadResult : Type := (Z * Errno * list byte)%type.

Section WithFile.

(** [H] is the state of the backing handle. *)
Variable H : Type.

(** The dynamic type of the [fs.File] held by an [fsFile]: what each
    method does to the handle, and which optional interfaces the value
    implements ([None] when the type assertion fails).  [file_Stat] is
    [statFile], which already returns an [Errno]. *)
Record File : Type := mkFile {
  file_Stat     : H -> (Stat_t * Errno) * H;
  file_Close    : H -> error * H;
  file_Reader   : option (list byte -> H -> (Z * error * list byte) * H);
  file_ReaderAt : option (list byte -> Z -> H -> (Z * error * list byte) * H);
  file_Seeker   : option (Z -> Z -> H -> (Z * error) * H);
  file_Writer   : option (list byte -> H -> (Z * error) * H);
  file_WriterAt : option (list byte -> Z -> H -> (Z * error) * H);
  file_truncateFile : option (Z -> H -> error * H);
  file_chmodFile    : option (FileMode -> H -> error * H)
}.

Record State : Type := mkState {
  self   : fsFile;
  handle : H;
  log    : list NativeCall
}.

Definition native {A : Type} (c : NativeCall) (op : H -> A * H) : M State A :=
  fun s => let (a, h) := op (handle s) in
           (a, mkState (self s) h (log s ++ [c])).

Definition update_self (g : fsFile -> fsFile) : M State unit :=
  modify (fun s => mkState (g (self s)) (handle s) (log s)).

(** [platform.UnwrapOSError], the errno layer, is a parameter. *)
Variable UnwrapOSError : error -> Errno.

Variable fl : File.

(** [NewFsFile] *)
Definition NewFsFile (openPath : string) (openFlag : Z) : fsFile :=
  mkFsFile openPath
           (Z.land openFlag (Z.lor (Z.lor O_RDONLY O_WRONLY) O_RDWR))
           false None.

(** [fsFile.Path] *)
Definition Path : M State string := gets (fun s => path (self s)).

(** [fsFile.AccessMode] *)
Definition AccessMode : M State Z := gets (fun s => accessMode (self s)).

(** [fsFile.IsNonblock] *)
Definition IsNonblock : M State bool := gets (fun s => nonblock (self s)).

(** [fsFile.Stat] *)
Definition Stat : M State (Stat_t * Errno) :=
  '(st, errno) <- native NStat (file_Stat fl) ;;
  if errno =? 0 then
    update_self (set_cachedSt (Some (mkCachedStat (Z.land (st_Mode st) ModeType)))) ;;;
    ret (st, errno)
  else if errno =? EIO then ret (st, EBADF)
  else ret (st, errno).

(** [fsFile.cachedStat].  After a [Stat] that returns zero the cache is
    set ([Stat_sets_cache] below), so the inner [None] is the nil
    dereference that cannot happen. *)
Definition cachedStat : M State (FileMode * Errno) :=
  c <- gets (fun s => cachedSt (self s)) ;;
  match c with
  | Some cs => ret (fileType cs, 0)
  | None =>
      '(_, errno) <- Stat ;;
      if negb (errno =? 0) then ret (0, errno)
      else
        c' <- gets (fun s => cachedSt (self s)) ;;
        match c' with
        | Some cs => ret (fileType cs, 0)
        | None => ret (0, 0)
        end
  end.

(** [fsFile.IsDir] *)
Definition IsDir : M State (bool * Errno) :=
  '(ft, errno) <- cachedStat ;;
  if negb (errno =? 0) then ret (false, errno)
  else if FileMode_Type ft =? ModeDir then ret (true, 0)
  else ret (false, 0).

(** [fsFile.isDirErrno] *)
Definition isDirErrno : M State Errno :=
  '(isDir, errno) <- IsDir ;;
  if negb (errno =? 0) then ret errno
  else if isDir then ret EISDIR
  else ret 0.

(** [fsFile.Read] *)
Definition Read (p : list byte) : M State ReadResult :=
  if (List.length p =? 0)%nat then ret (0, 0, p)
  else
    errno <- isDirErrno ;;
    if negb (errno =? 0) then ret (0, errno, p)
    else
      am <- AccessMode ;;
      if am =? O_WRONLY then ret (0, EBADF, p)
      else
        match file_Reader fl with
        | Some rd =>
            '(n, err, p') <- native (NRead (List.length p)) (rd p) ;;
            ret (n, UnwrapOSError err, p')
        | None => ret (0, EBADF, p)
        end.

(** The [io.ReadSeeker] branch of [fsFile.Pread].  The deferred
    [rs.Seek(currentOffset, io.SeekStart)] is registered after the first
    seek has succeeded and runs on every return after that; its results
    are dropped. *)
Definition Pread_ReadSeeker
  (rd : list byte -> H -> (Z * error * list byte) * H)
  (sk : Z -> Z -> H -> (Z * error) * H)
  (p : list byte) (off : Z) : M State ReadResult :=
  '(currentOffset, err) <- native (NSeek 0 SeekCurrent) (sk 0 SeekCurrent) ;;
  if negb (is_nil err) then ret (0, UnwrapOSError err, p)
  else
    res <- (if negb (off =? currentOffset) then
              '(_, err) <- native (NSeek off SeekStart) (sk off SeekStart) ;;
              if negb (is_nil err) then ret (0, UnwrapOSError err, p)
              else
                '(n, err, p') <- native (NRead (List.length p)) (rd p) ;;
                ret (n, UnwrapOSError err, p')
            else
              '(n, err, p') <- native (NRead (List.length p)) (rd p) ;;
              ret (n, UnwrapOSError err, p')) ;;
    native (NSeek currentOffset SeekStart) (sk currentOffset SeekStart) ;;;
    ret res.

(** [fsFile.Pread] *)
Definition Pread (p : list byte) (off : Z) : M State ReadResult :=
  if (List.length p =? 0)%nat then ret (0, 0, p)
  else
    errno <- isDirErrno ;;
    if negb (errno =? 0) then ret (0, errno, p)
    else
      am <- AccessMode ;;
      if am =? O_WRONLY then ret (0, EBADF, p)
      else
        match file_ReaderAt fl with
        | Some ra =>
            '(n, err, p') <- native (NReadAt (List.length p) off) (ra p off) ;;
            ret (n, UnwrapOSError err, p')
        | None =>
            match file_Reader fl, file_Seeker fl with
            | Some rd, Some sk => Pread_ReadSeeker rd sk p off
            | _, _ => ret (0, ENOSYS, p)
            end
        end.

(** [fsFile.Seek].  [uint(whence) > io.SeekEnd] holds for a negative
    [whence] and for one above [io.SeekEnd]. *)
Definition Seek (offset whence : Z) : M State (Z * Errno) :=
  errno <- isDirErrno ;;
  if negb (errno =? 0) then ret (0, errno)
  else if (whence <? 0) || (SeekEnd <? whence) then ret (0, EINVAL)
  else
    match file_Seeker fl with
    | Some sk =>
        '(newOffset, err) <- native (NSeek offset whence) (sk offset whence) ;;
        ret (newOffset, UnwrapOSError err)
    | None => ret (0, ENOSYS)
    end.

(** [fsFile.Write] *)
Definition Write (p : list byte) : M State (Z * Errno) :=
  errno <- isDirErrno ;;
  if negb (errno =? 0) then ret (0, errno)
  else
    am <- AccessMode ;;
    if am =? O_RDONLY then ret (0, EBADF)
    else if (List.length p =? 0)%nat then ret (0, 0)
    else
      match file_Writer fl with
      | Some wr =>
          '(n, err) <- native (NWrite p) (wr p) ;;
          ret (n, UnwrapOSError err)
      | None => ret (0, ENOSYS)
      end.

(** [fsFile.Pwrite] *)
Definition Pwrite (p : list byte) (off : Z) : M State (Z * Errno) :=
  errno <- isDirErrno ;;
  if negb (errno =? 0) then ret (0, errno)
  else
    am <- AccessMode ;;
    if am =? O_RDONLY then ret (0, EBADF)
    else if (List.length p =? 0)%nat then ret (0, 0)
    else
      match file_WriterAt fl with
      | Some wa =>
          '(n, err) <- native (NWriteAt p off) (wa p off) ;;
          ret (n, UnwrapOSError err)
      | None => ret (0, ENOSYS)
      end.

(** [fsFile.Truncate] *)
Definition Truncate (size : Z) : M State Errno :=
  errno <- isDirErrno ;;
  if negb (errno =? 0) then ret errno
  else
    am <- AccessMode ;;
    if am =? O_RDONLY then ret EBADF
    else
      match file_truncateFile fl with
      | Some tf =>
          err <- native (NTruncate size) (tf size) ;;
          ret (UnwrapOSError err)
      | None => ret ENOSYS
      end.

(** [fsFile.Chmod] *)
Definition Chmod (mode : FileMode) : M State Errno :=
  match file_chmodFile fl with
  | Some cf =>
      err <- native (NChmod mode) (cf mode) ;;
      ret (UnwrapOSError err)
  | None => ret ENOSYS
  end.

(** [fsFile.Close] *)
Definition Close : M State Errno :=
  err <- native NClose (file_Close fl) ;;
  ret (UnwrapOSError err).

(** What the type check of [isDirErrno] costs: nothing when the type is
    cached, one native stat otherwise; and the handle it leaves. *)
Definition stat_cost (s : State) : list NativeCall :=
  match cachedSt (self s) with
  | Some _ => []
  | None => [NStat]
  end.

Definition handle_after_check (s : State) : H :=
  match cachedSt (self s) with
  | Some _ => handle s
  | None => snd (file_Stat fl (handle s))
  end.

End WithFile.

Arguments mkFile {H}.
Arguments file_Stat {H}.
Arguments file_Close {H}.
Arguments file_Reader {H}.
Arguments file_ReaderAt {H}.
Arguments file_Seeker {H}.
Arguments file_Writer {H}.
Arguments file_WriterAt {H}.
Arguments file_truncateFile {H}.
Arguments file_chmodFile {H}.
Arguments mkState {H}.
Arguments self {H}.
Arguments handle {H}.
Arguments log {H}.
Arguments native {H A}.
Arguments Path {H}.
Arguments AccessMode {H}.
Arguments IsNonblock {H}.
Arguments Stat {H}.
Arguments cachedStat {H}.
Arguments IsDir {H}.
Arguments isDirErrno {H}.
Arguments Read {H}.
Arguments Pread_ReadSeeker {H}.
Arguments Pread {H}.
Arguments Seek {H}.
Arguments Write {H}.
Arguments Pwrite {H}.
Arguments Truncate {H}.
Arguments Chmod {H}.
Arguments Close {H}.
Arguments stat_cost {H}.
Arguments handle_after_check {H}.

End FsFile.

(** * The [platform.File] contract

    A file object is identified with its state: a method is a computation
    over that state.  The class lists the methods of the interface that a
    decorator forwards and that [fsFile] implements over the handle
    operations above ([SetNonblock], [Readdir] and [PollRead] go through
    descriptor-level primitives that are not part of this tree). *)

Class File (F : Type) : Type := mkFileImpl {
  File_Path       : M F string;
  File_AccessMode : M F Z;
  File_IsNonblock : M F bool;
  File_Stat       : M F (Stat_t * Errno);
  File_IsDir      : M F (bool * Errno);
  File_Read       : list byte -> M F FsFile.ReadResult;
  File_Pread      : list byte -> Z -> M F FsFile.ReadResult;
  File_Seek       : Z -> Z -> M F (Z * Errno);
  File_Close      : M F Errno
}.

(** [fsFile] implements the contract. *)
#[export] Instance fsFile_File {H : Type} (UnwrapOSError : error -> Errno)
  (fl : FsFile.File H) : File (FsFile.State H) := {|
  File_Path       := FsFile.Path;
  File_AccessMode := FsFile.AccessMode;
  File_IsNonblock := FsFile.IsNonblock;
  File_Stat       := FsFile.Stat fl;
  File_IsDir      := FsFile.IsDir fl;
  File_Read       := FsFile.Read UnwrapOSError fl;
  File_Pread      := FsFile.Pread UnwrapOSError fl;
  File_Seek       := FsFile.Seek UnwrapOSError fl;
  File_Close      := FsFile.Close UnwrapOSError fl
|}.

(** * [sysfs.readFile]: the read-only file decorator *)

Module ReadFile.

Record readFile (F : Type) : Type := mkReadFile { f : F }.

Arguments mkReadFile {F}.
Arguments f {F}.

(** A call [r.f.m(...)] on the wrapped file. *)
Definition on_f {F A : Type} (m : M F A) : M (readFile F) A :=
  fun r => let (a, f') := m (f r) in (a, mkReadFile f').

Section WithFile.

Context {F : Type} `{File F}.

Definition Path : M (readFile F) string := on_f File_Path.

Definition AccessMode : M (readFile F) Z := on_f File_AccessMode.

Definition IsNonblock : M (readFile F) bool := on_f File_IsNonblock.

Definition Stat : M (readFile F) (Stat_t * Errno) := on_f File_Stat.

Definition IsDir : M (readFile F) (bool * Errno) := on_f File_IsDir.

Definition Read (buf : list byte) : M (readFile F) FsFile.ReadResult :=
  on_f (File_Read buf).

Definition Pread (buf : list byte) (offset : Z) : M (readFile F) FsFile.ReadResult :=
  on_f (File_Pread buf offset).

Definition Seek (offset whence : Z) : M (readFile F) (Z * Errno) :=
  on_f (File_Seek offset whence).

Definition Close : M (readFile F) Errno := on_f File_Close.

(** [readFile.writeErr] *)
Definition writeErr : M (readFile F) Errno :=
  '(isDir, errno) <- IsDir ;;
  if negb (errno =? 0) then ret errno
  else if isDir then ret EISDIR
  else ret EBADF.

(** [readFile.Write] *)
Definition Write (_ : list byte) : M (readFile F) (Z * Errno) :=
  e <- writeErr ;; ret (0, e).

(** [readFile.Pwrite] *)
Definition Pwrite (_ : list byte) (_ : Z) : M (readFile F) (Z * Errno) :=
  e <- writeErr ;; ret (0, e).

(** [readFile.Truncate] *)
Definition Truncate (_ : Z) : M (readFile F) Errno := writeErr.

(** [readFile.Sync] *)
Definition Sync : M (readFile F) Errno := ret EBADF.

(** [readFile.Datasync] *)
Definition Datasync : M (readFile F) Errno := ret EBADF.

(** [readFile.Chmod] *)
Definition Chmod (_ : FileMode) : M (readFile F) Errno := ret EBADF.

(** [readFile.Chown] *)
Definition Chown (_ _ : Z) : M (readFile F) Errno := ret EBADF.

(** [readFile.Utimens]; the argument is a pointer to two timespecs. *)
Definition Utimens (_ : option (Z * Z)) : M (readFile F) Errno := ret EBADF.

End WithFile.

End ReadFile.

(** * [sysfs.readFS]: the read-only filesystem wrapper *)

Module ReadFS.

(** Calls that cross from the wrapper into the wrapped [FS]. *)
Inductive FSCall : Type :=
| CallOpenFile (path : string) (flag : Z) (perm : FileMode)
| CallLstat (path : string)
| CallStat (path : string)
| CallReadlink (path : string).

Section WithFS.

(** [W] is the state behind the wrapped filesystem, [F] the type of the
    [platform.File] values it hands out ([nil] included). *)
Variables W F : Type.

(** The part of the [FS] interface that [readFS] delegates to. *)
Record FS : Type := mkFS {
  fs_OpenFile : string -> Z -> FileMode -> W -> (F * Errno) * W;
  fs_Lstat    : string -> W -> (Stat_t * Errno) * W;
  fs_Stat     : string -> W -> (Stat_t * Errno) * W;
  fs_Readlink : string -> W -> (string * Errno) * W
}.

Record World : Type := mkWorld {
  inner : W;
  calls : list FSCall
}.

Definition invoke {A : Type} (c : FSCall) (op : W -> A * W) : M World A :=
  fun w => let (a, i) := op (inner w) in
           (a, mkWorld i (calls w ++ [c])).

Record readFS : Type := mkReadFS { fs : FS }.

(** [readFS.OpenFile] *)
Definition OpenFile (r : readFS) (path : string) (flag : Z) (perm : FileMode)
  : M World (option (ReadFile.readFile F) * Errno) :=
  let m := Z.land flag (Z.lor (Z.lor O_RDONLY O_WRONLY) O_RDWR) in
  if (m =? O_WRONLY) || (m =? O_RDWR) then
    ret (None, ENOSYS)
  else
    '(f, errno) <- invoke (CallOpenFile path flag perm)
                          (fs_OpenFile (fs r) path flag perm) ;;
    if negb (errno =? 0) then ret (None, errno)
    else ret (Some (ReadFile.mkReadFile f), 0).

(** [readFS.Lstat], [readFS.Stat], [readFS.Readlink] delegate. *)
Definition Lstat (r : readFS) (path : string) : M World (Stat_t * Errno) :=
  invoke (CallLstat path) (fs_Lstat (fs r) path).

Definition Stat (r : readFS) (path : string) : M World (Stat_t * Errno) :=
  invoke (CallStat path) (fs_Stat (fs r) path).

Definition Readlink (r : readFS) (path : string) : M World (string * Errno) :=
  invoke (CallReadlink path) (fs_Readlink (fs r) path).

(** The path-mutating operations.  [times] of [Utimens] is a pointer to
    two timespecs, [nil] allowed. *)
Definition Mkdir (r : readFS) (path : string) (perm : FileMode) : M World Errno :=
  ret EROFS.

Definition Chmod (r : readFS) (path : string) (perm : FileMode) : M World Errno :=
  ret EROFS.

Definition Chown (r : readFS) (path : string) (uid gid : Z) : M World Errno :=
  ret EROFS.

Definition Lchown (r : readFS) (path : string) (uid gid : Z) : M World Errno :=
  ret EROFS.

Definition Rename (r : readFS) (from to : string) : M World Errno :=
  ret EROFS.

Definition Rmdir (r : readFS) (path : string) : M World Errno :=
  ret EROFS.

Definition Link (r : readFS) (_ _ : string) : M World Errno :=
  ret EROFS.

Definition Symlink (r : readFS) (_ _ : string) : M World Errno :=
  ret EROFS.

Definition Unlink (r : readFS) (path : string) : M World Errno :=
  ret EROFS.

Definition Utimens (r : readFS) (path : string) (times : option (Z * Z))
           (symlinkFollow : bool) : M World Errno :=
  ret EROFS.

Definition Truncate (r : readFS) (_ : string) (_ : Z) : M World Errno :=
  ret EROFS.

End WithFS.

Arguments mkFS {W F}.
Arguments mkWorld {W}.
Arguments inner {W}.
Arguments calls {W}.
Arguments mkReadFS {W F}.
Arguments fs {W F}.
Arguments OpenFile {W F}.
Arguments Mkdir {W F}.
Arguments Chmod {W F}.
Arguments Chown {W F}.
Arguments Lchown {W F}.
Arguments Rename {W F}.
Arguments Rmdir {W F}.
Arguments Link {W F}.
Arguments Symlink {W F}.
Arguments Unlink {W F}.
Arguments Utimens {W F}.
Arguments Truncate {W F}.

End ReadFS.

(** * [platform.windowsWrappedFile]: the Windows quirk layer *)

Module WindowsWrappedFile.

(** Modelled from the spec: [ERROR_ACCESS_DENIED] is declared outside
    this tree; it is the "access denied" condition of the platform, the
    [syscall.Errno] 5 of Windows. *)
Definition ERROR_ACCESS_DENIED : Errno := 5.

(** [errors.Is] against a [syscall.Errno] target: the chain is followed
    through [*fs.PathError]. *)
Fixpoint errors_Is_val (e : error_val) (target : Errno) : bool :=
  match e with
  | ErrErrno x => x =? target
  | ErrPath _ _ inner => errors_Is_val inner target
  | ErrEOF | ErrOther _ => false
  end.

Definition errors_Is (err : error) (target : Errno) : bool :=
  match err with
  | None => false
  | Some e => errors_Is_val e target
  end.

Section WithOS.

(** [Hd] are the native handles an [osFile] field can hold, [N] is the
    state of the operating system, [FileInfo] and [DirEntry] stand for
    [fs.FileInfo] and [fs.DirEntry]. *)
Variables Hd N FileInfo DirEntry : Type.

(** Calls that reach the operating system. *)
Inductive OSCall : Type :=
| OSStat (h : Hd)
| OSClose (h : Hd)
| OSOpenFile (path : string) (flag : Z) (perm : FileMode)
| OSReaddir (h : Hd) (n : Z)
| OSReadDir (h : Hd) (n : Z)
| OSWrite (h : Hd) (p : list byte).

(** The primitives of the package: [statFile], [openFile] and the
    methods of the embedded [osFile]. *)
Record OS : Type := mkOS {
  os_statFile : Hd -> N -> (Stat_t * Errno) * N;
  os_openFile : string -> Z -> FileMode -> N -> (Hd * Errno) * N;
  os_Close    : Hd -> N -> error * N;
  os_Readdir  : Hd -> Z -> N -> (list FileInfo * error) * N;
  os_ReadDir  : Hd -> Z -> N -> (list DirEntry * error) * N;
  os_Write    : Hd -> list byte -> N -> (Z * error) * N
}.

Record windowsWrappedFile : Type := mkWrapped {
  osFile         : Hd;
  path           : string;
  flag           : Z;
  perm           : FileMode;
  dirInitialized : bool;
  fileType       : option FileMode;
  closed         : bool
}.

Definition set_osFile (h : Hd) (w : windowsWrappedFile) : windowsWrappedFile :=
  mkWrapped h (path w) (flag w) (perm w) (dirInitialized w) (fileType w) (closed w).

Definition set_dirInitialized (b : bool) (w : windowsWrappedFile) : windowsWrappedFile :=
  mkWrapped (osFile w) (path w) (flag w) (perm w) b (fileType w) (closed w).

Definition set_fileType (ft : option FileMode) (w : windowsWrappedFile) : windowsWrappedFile :=
  mkWrapped (osFile w) (path w) (flag w) (perm w) (dirInitialized w) ft (closed w).

Definition set_closed (b : bool) (w : windowsWrappedFile) : windowsWrappedFile :=
  mkWrapped (osFile w) (path w) (flag w) (perm w) (dirInitialized w) (fileType w) b.

Record State : Type := mkState {
  self : windowsWrappedFile;
  os   : N;
  log  : list OSCall
}.

Definition syscall {A : Type} (c : OSCall) (op : N -> A * N) : M State A :=
  fun s => let (a, n) := op (os s) in
           (a, mkState (self s) n (log s ++ [c])).

Definition update_self (g : windowsWrappedFile -> windowsWrappedFile) : M State unit :=
  modify (fun s => mkState (g (self s)) (os s) (log s)).

Definition this : M State windowsWrappedFile := gets self.

Variable sys : OS.

(** [windowsWrappedFile.Path] *)
Definition Path : M State string := gets (fun s => path (self s)).

(** [windowsWrappedFile.getFileType] *)
Definition getFileType : M State (FileMode * error) :=
  w <- this ;;
  match fileType w with
  | None =>
      '(st, errno) <- syscall (OSStat (osFile w)) (os_statFile sys (osFile w)) ;;
      if negb (errno =? 0) then ret (0, None)
      else
        let ft := Z.land (st_Mode st) ModeType in
        update_self (set_fileType (Some ft)) ;;;
        ret (ft, None)
  | Some ft => ret (ft, None)
  end.

(** [windowsWrappedFile.requireFile] *)
Definition requireFile (op : string) (readOnly isDir : bool) : M State error :=
  w <- this ;;
  if closed w then
    ret (Some (ErrPath op (path w) (ErrErrno EBADF)))
  else if readOnly && (Z.land (flag w) O_RDONLY =? 0) then
    ret (Some (ErrPath op (path w) (ErrErrno EBADF)))
  else
    '(ft, err) <- getFileType ;;
    if is_nil err && negb (Bool.eqb isDir (FileMode_IsDir ft)) then
      if isDir then ret (Some (ErrPath op (path w) (ErrErrno ENOTDIR)))
      else ret (Some (ErrPath op (path w) (ErrErrno EBADF)))
    else
      match err with
      | None => ret None
      | Some e => ret (Some (ErrPath op (path w) e))
      end.

(** [windowsWrappedFile.maybeInitDir] *)
Definition maybeInitDir : M State error :=
  w <- this ;;
  if dirInitialized w then ret None
  else
    err <- syscall (OSClose (osFile w)) (os_Close sys (osFile w)) ;;
    if negb (is_nil err) then ret err
    else
      '(newW, errno) <- syscall (OSOpenFile (path w) (flag w) (perm w))
                                (os_openFile sys (path w) (flag w) (perm w)) ;;
      if negb (errno =? 0) then
        ret (Some (ErrPath "OpenFile" (path w) (ErrErrno errno)))
      else
        update_self (set_osFile newW) ;;;
        update_self (set_dirInitialized true) ;;;
        ret None.

(** [windowsWrappedFile.Readdir] *)
Definition Readdir (n : Z) : M State (list FileInfo * error) :=
  err <- requireFile "Readdir" false true ;;
  if negb (is_nil err) then ret ([], err)
  else
    err <- maybeInitDir ;;
    if negb (is_nil err) then ret ([], err)
    else
      w <- this ;;
      syscall (OSReaddir (osFile w) n) (os_Readdir sys (osFile w) n).

(** [windowsWrappedFile.ReadDir] *)
Definition ReadDir (n : Z) : M State (list DirEntry * error) :=
  err <- requireFile "ReadDir" false true ;;
  if negb (is_nil err) then ret ([], err)
  else
    err <- maybeInitDir ;;
    if negb (is_nil err) then ret ([], err)
    else
      w <- this ;;
      syscall (OSReadDir (osFile w) n) (os_ReadDir sys (osFile w) n).

(** [windowsWrappedFile.Write] *)
Definition Write (p : list byte) : M State (Z * error) :=
  err <- requireFile "Write" false false ;;
  if negb (is_nil err) then ret (0, err)
  else
    w <- this ;;
    '(n, err) <- syscall (OSWrite (osFile w) p) (os_Write sys (osFile w) p) ;;
    if errors_Is err ERROR_ACCESS_DENIED then ret (n, Some (ErrErrno EBADF))
    else ret (n, err).

(** [windowsWrappedFile.Close] *)
Definition Close : M State error :=
  w <- this ;;
  if closed w then ret None
  else
    err <- syscall (OSClose (osFile w)) (os_Close sys (osFile w)) ;;
    if negb (is_nil err) then
      update_self (set_closed true) ;;; ret err
    else ret err.

(** A directory-enumeration call, and a sequence of them. *)
Inductive EnumCall : Type :=
| CallReaddir (n : Z)
| CallReadDir (n : Z).

Definition enumerate (c : EnumCall) : M State error :=
  match c with
  | CallReaddir n => '(_, err) <- Readdir n ;; ret err
  | CallReadDir n => '(_, err) <- ReadDir n ;; ret err
  end.

Fixpoint enumerations (cs : list EnumCall) : M State (list error) :=
  match cs with
  | [] => ret []
  | c :: rest =>
      e <- enumerate c ;;
      es <- enumerations rest ;;
      ret (e :: es)
  end.

(** The native call an enumeration ends with. *)
Definition enum_event (h : Hd) (c : EnumCall) : OSCall :=
  match c with
  | CallReaddir n => OSReaddir h n
  | CallReadDir n => OSReadDir h n
  end.

(** The calls that close or open a native handle. *)
Definition is_reopen (c : OSCall) : bool :=
  match c with
  | OSClose _ | OSOpenFile _ _ _ => true
  | _ => false
  end.

End WithOS.

Arguments OSStat {Hd}.
Arguments OSClose {Hd}.
Arguments OSOpenFile {Hd}.
Arguments OSReaddir {Hd}.
Arguments OSReadDir {Hd}.
Arguments OSWrite {Hd}.
Arguments mkOS {Hd N FileInfo DirEntry}.
Arguments mkWrapped {Hd}.
Arguments osFile {Hd}.
Arguments path {Hd}.
Arguments flag {Hd}.
Arguments perm {Hd}.
Arguments dirInitialized {Hd}.
Arguments fileType {Hd}.
Arguments closed {Hd}.
Arguments mkState {Hd N}.
Arguments self {Hd N}.
Arguments os {Hd N}.
Arguments log {Hd N}.
Arguments getFileType {Hd N FileInfo DirEntry}.
Arguments requireFile {Hd N FileInfo DirEntry}.
Arguments maybeInitDir {Hd N FileInfo DirEntry}.
Arguments Readdir {Hd N FileInfo DirEntry}.
Arguments ReadDir {Hd N FileInfo DirEntry}.
Arguments Write {Hd N FileInfo DirEntry}.
Arguments Close {Hd N FileInfo DirEntry}.
Arguments enumerate {Hd N FileInfo DirEntry}.
Arguments enumerations {Hd N FileInfo DirEntry}.
Arguments enum_event {Hd}.
Arguments is_reopen {Hd}.

End WindowsWrappedFile.

(** * [path.Clean] of the Go standard library

    [cleanPath] calls it.  The function is transcribed from [path/path.go]:
    the loop reads [path] at index [r] and writes a buffer of [w] bytes.
    Here [rest] is [path[r:]] and [out] holds the [w] bytes written so far,
    last byte first (the [lazybuf] of the original only avoids allocating
    when the output is a prefix of the input).  The loop consumes a byte at
    least on every iteration, so [len(path)] iterations are enough; [fuel]
    counts them. *)

Module Path.

Definition is_slash (c : ascii) : bool := (c =? "/")%char.

Definition is_dot (c : ascii) : bool := (c =? ".")%char.

(** [r+k == n || path[r+k] == '/'], on the suffix [path[r+k:]]. *)
Definition end_or_slash (l : list ascii) : bool :=
  match l with
  | [] => true
  | c :: _ => is_slash c
  end.

(** [path[r+1] == '.'], on the suffix [path[r+1:]]. *)
Definition head_is_dot (l : list ascii) : bool :=
  match l with
  | [] => false
  | c :: _ => is_dot c
  end.

(** [for out.w > dotdot && out.index(out.w) != '/' { out.w-- }], entered
    after a first [out.w--]: [popped] is the byte at index [out.w], the
    one removed last. *)
Fixpoint backtrack (dotdot : nat) (popped : ascii) (out : list ascii) : list ascii :=
  match out with
  | [] => []
  | c :: tl =>
      if (dotdot <? List.length out)%nat && negb (is_slash popped)
      then backtrack dotdot c tl
      else out
  end.

(** [for ; r < n && path[r] != '/'; r++ { out.append(path[r]) }] *)
Fixpoint copy_elem (rest out : list ascii) : list ascii * list ascii :=
  match rest with
  | [] => (out, [])
  | c :: tl => if is_slash c then (out, rest) else copy_elem tl (c :: out)
  end.

(** The loop [for r < n { switch { ... } }]. *)
Fixpoint clean_loop (fuel : nat) (rooted : bool) (rest out : list ascii)
  (dotdot : nat) : list ascii :=
  match fuel, rest with
  | O, _ => out
  | _, [] => out
  | S fuel', c :: tl =>
      if is_slash c then
        clean_loop fuel' rooted tl out dotdot
      else if is_dot c && end_or_slash tl then
        clean_loop fuel' rooted tl out dotdot
      else if is_dot c && head_is_dot tl && end_or_slash (List.tl tl) then
        if (dotdot <? List.length out)%nat then
          clean_loop fuel' rooted (List.tl tl)
            (match out with [] => [] | x :: o => backtrack dotdot x o end)
            dotdot
        else if negb rooted then
          let out1 := if (0 <? List.length out)%nat then "/"%char :: out else out in
          let out2 := "."%char :: "."%char :: out1 in
          clean_loop fuel' rooted (List.tl tl) out2 (List.length out2)
        else
          clean_loop fuel' rooted (List.tl tl) out dotdot
      else
        let out1 :=
          if (rooted && negb (List.length out =? 1)%nat)
             || (negb rooted && negb (List.length out =? 0)%nat)
          then "/"%char :: out else out in
        let '(out2, rest') := copy_elem rest out1 in
        clean_loop fuel' rooted rest' out2 dotdot
  end.

(** [path.Clean] *)
Definition Clean (path : string) : string :=
  match list_ascii_of_string path with
  | [] => "."%string
  | c :: tl =>
      let n := String.length path in
      let out :=
        if is_slash c then clean_loop n true tl ["/"%char] 1
        else clean_loop n false (c :: tl) [] 0 in
      if (List.length out =? 0)%nat then "."%string
      else string_of_list_ascii (rev out)
  end.

(** Two suffixes of a path from which the loop, started in the same
    state with fuel enough for each, writes the same output. *)
Definition same_from (r1 r2 : list ascii) : Prop :=
  forall rooted out dd f1 f2,
    (List.length r1 <= f1)%nat -> (List.length r2 <= f2)%nat ->
    clean_loop f1 rooted r1 out dd = clean_loop f2 rooted r2 out dd.

End Path.

(** * The lexical meaning of [path.Clean]

    What [Path.Clean] is compared with: the rules of its documentation,
    on the elements of a path.  A path is split at its slashes; empty
    elements (from doubled, leading or trailing slashes) and [.] elements
    are dropped; a [..] element removes the element kept before it; with
    nothing to remove it is dropped at the root and kept, in front, in a
    relative path.  The elements that remain are joined by single
    slashes, after a slash when the path is rooted, and the empty result
    is ["."]. *)

Module Lexical.

(** The elements between the slashes: ["a//b"] has the elements [a], the
    empty one, and [b]. *)
Fixpoint split (l : list ascii) : list (list ascii) :=
  match l with
  | [] => [[]]
  | c :: tl =>
      if Path.is_slash c then [] :: split tl
      else match split tl with
           | e :: es => (c :: e) :: es
           | [] => [[c]]
           end
  end.

Definition is_empty {A : Type} (e : list A) : bool :=
  match e with
  | [] => true
  | _ => false
  end.

Definition is_dot_elem (e : list ascii) : bool :=
  match e with
  | [c] => Path.is_dot c
  | _ => false
  end.

Definition is_dotdot_elem (e : list ascii) : bool :=
  match e with
  | [c; d] => Path.is_dot c && Path.is_dot d
  | _ => false
  end.

Definition dotdot : list ascii := ["."%char; "."%char].

(** The elements are read from left to right.  [kept] holds the
    elements kept so far, the last one first, and [ups] counts the [..]
    elements in front of a relative path. *)
Fixpoint resolve (rooted : bool) (kept : list (list ascii)) (ups : nat)
  (els : list (list ascii)) : list (list ascii) * nat :=
  match els with
  | [] => (kept, ups)
  | e :: rest =>
      if is_empty e || is_dot_elem e then resolve rooted kept ups rest
      else if is_dotdot_elem e then
        match kept with
        | _ :: kept' => resolve rooted kept' ups rest
        | [] =>
            if rooted then resolve rooted [] ups rest
            else resolve rooted [] (S ups) rest
        end
      else resolve rooted (e :: kept) ups rest
  end.

Fixpoint join (els : list (list ascii)) : list ascii :=
  match els with
  | [] => []
  | e :: rest =>
      match rest with
      | [] => e
      | _ => e ++ "/"%char :: join rest
      end
  end.

Definition is_rooted (l : list ascii) : bool :=
  match l with
  | c :: _ => Path.is_slash c
  | [] => false
  end.

(** The path written for a state of [resolve]. *)
Definition written (rooted : bool) (kept : list (list ascii)) (ups : nat)
  : list ascii :=
  let body := join (repeat dotdot ups ++ rev kept) in
  if rooted then "/"%char :: body else body.

Definition Clean (path : string) : string :=
  let l := list_ascii_of_string path in
  let rooted := is_rooted l in
  let '(kept, ups) := resolve rooted [] 0 (split l) in
  match written rooted kept ups with
  | [] => "."%string
  | out => string_of_list_ascii out
  end.

Definition slash_free (e : list ascii) : bool :=
  forallb (fun c => negb (Path.is_slash c)) e.

(** An element that [Clean] keeps when it meets it. *)
Definition named (e : list ascii) : bool :=
  negb (is_empty e) && negb (is_dot_elem e) && slash_free e.

(** An element that is a name: not empty, not [.], not [..], without a
    slash. *)
Definition plain (e : list ascii) : bool :=
  named e && negb (is_dotdot_elem e).

(** ** The state of the loop of [Path.Clean] as elements

    The element that starts a suffix of the path, and what follows
    it. *)
Fixpoint run (l : list ascii) : list ascii :=
  match l with
  | [] => []
  | c :: tl => if Path.is_slash c then [] else c :: run tl
  end.

Fixpoint after (l : list ascii) : list ascii :=
  match l with
  | [] => []
  | c :: tl => if Path.is_slash c then l else after tl
  end.

(** The buffer of the loop, last byte first, when [kept] and [ups] are
    what has been read: the [..] elements in front, ... *)
Fixpoint updots (ups : nat) : list ascii :=
  match ups with
  | O => []
  | S n =>
      "."%char :: "."%char ::
        match n with
        | O => []
        | _ => "/"%char :: updots n
        end
  end.

Definition base (rooted : bool) (ups : nat) : list ascii :=
  if rooted then ["/"%char] else updots ups.

(** ... the separator the loop writes before an element, ... *)
Definition sep (rooted : bool) (out : list ascii) : list ascii :=
  if (rooted && negb (List.length out =? 1)%nat)
     || (negb rooted && negb (List.length out =? 0)%nat)
  then "/"%char :: out else out.

(** ... and the elements kept. *)
Fixpoint buf (rooted : bool) (kept : list (list ascii)) (ups : nat)
  : list ascii :=
  match kept with
  | [] => base rooted ups
  | e :: kept' => rev e ++ sep rooted (buf rooted kept' ups)
  end.

End Lexical.

(** * [sysfs.adapter]: the generic-namespace adapter *)

Module Adapter.

(** [cleanPath] *)
Definition cleanPath (name : string) : string :=
  match name with
  | EmptyString => name
  | String c rest =>
      let cleaned := if (c =? "/")%char then rest else name in
      Path.Clean cleaned
  end.

Section WithFS.

(** [N] is the state of the namespace (an [io/fs.FS]), [Fh] the type of
    the [fs.File] values its [Open] returns. *)
Variables N Fh : Type.

Record FS : Type := mkFS {
  fs_Open : string -> N -> (Fh * error) * N
}.

(** The state carries the namespace and the names passed to [Open]. *)
Record World : Type := mkWorld {
  ns     : N;
  opened : list string
}.

Record adapter : Type := mkAdapter { fs : FS }.

Definition call_Open (a : adapter) (name : string) : M World (Fh * error) :=
  fun w => let (r, n) := fs_Open (fs a) name (ns w) in
           (r, mkWorld n (opened w ++ [name])).

Variable UnwrapOSError : error -> Errno.

(** [adapter.OpenFile].  The file returned by [platform.NewFsFile] is the
    [fsFile] record together with the handle it holds, no call made on it
    yet. *)
Definition OpenFile (a : adapter) (path : string) (flag : Z) (perm : FileMode)
  : M World (FsFile.State Fh * Errno) :=
  let path := cleanPath path in
  '(f, err) <- call_Open a path ;;
  ret (FsFile.mkState (FsFile.NewFsFile path flag) f [], UnwrapOSError err).

End WithFS.

Arguments mkFS {N Fh}.
Arguments mkWorld {N}.
Arguments ns {N}.
Arguments opened {N}.
Arguments mkAdapter {N Fh}.
Arguments OpenFile {N Fh}.

End Adapter.

(** * Instrumented backends

    Concrete handles, filesystems and an operating system to run the
    embedding on. *)

Module Fixtures.

(** Modelled from the spec: [platform.UnwrapOSError] is not in this tree.
    The errno layer is "a fixed, closed translation from native OS error
    conditions" to codes where "zero/absent code denotes success
    uniformly": [nil] is success, an [Errno] is itself, a [*fs.PathError]
    is unwrapped.  [io.EOF] is success ("there is no io.EOF returned on
    end-of-file"), [fs.ErrInvalid] is "invalid argument", and an error the
    layer does not know is an I/O failure. *)
Fixpoint unwrap_val (e : error_val) : Errno :=
  match e with
  | ErrErrno x => x
  | ErrEOF => 0
  | ErrPath _ _ inner => unwrap_val inner
  | ErrOther msg => if String.eqb msg "invalid argument" then EINVAL else EIO
  end.

Definition UnwrapOSError (err : error) : Errno :=
  match err with
  | None => 0
  | Some e => unwrap_val e
  end.

Definition len {A : Type} (l : list A) : Z := Z.of_nat (List.length l).

(** ** An in-memory file

    [faulty] marks the offsets at which a sequential read fails with an
    I/O error. *)
Record MemFile : Type := mkMem {
  content : list byte;
  pos     : nat;
  mode    : FileMode;
  faulty  : nat -> bool
}.

Definition set_pos (n : nat) (h : MemFile) : MemFile :=
  mkMem (content h) n (mode h) (faulty h).

Definition mem_stat (h : MemFile) : (Stat_t * Errno) * MemFile :=
  ((mkStat (mode h) 1 (len (content h)) 0 0 0, 0), h).

Definition mem_close (h : MemFile) : error * MemFile := (None, h).

Definition mem_read (p : list byte) (h : MemFile)
  : (Z * error * list byte) * MemFile :=
  if faulty h (pos h) then ((0, Some (ErrErrno EIO), p), h)
  else if (List.length (content h) <=? pos h)%nat then ((0, Some ErrEOF, p), h)
  else
    let data := firstn (List.length p) (skipn (pos h) (content h)) in
    ((len data, None, data ++ skipn (List.length data) p),
     set_pos (pos h + List.length data) h).

Definition mem_seek (offset whence : Z) (h : MemFile) : (Z * error) * MemFile :=
  let base :=
    if whence =? FsFile.SeekStart then 0
    else if whence =? FsFile.SeekCurrent then Z.of_nat (pos h)
    else len (content h) in
  let new := base + offset in
  if new <? 0 then
    ((0, Some (ErrPath "seek" "mem" (ErrOther "invalid argument"))), h)
  else ((new, None), set_pos (Z.to_nat new) h).

Definition mem_readAt (p : list byte) (off : Z) (h : MemFile)
  : (Z * error * list byte) * MemFile :=
  if off <? 0 then
    ((0, Some (ErrPath "readat" "mem" (ErrOther "negative offset")), p), h)
  else
    let data := firstn (List.length p) (skipn (Z.to_nat off) (content h)) in
    ((len data,
      if (List.length data <? List.length p)%nat then Some ErrEOF else None,
      data ++ skipn (List.length data) p), h).

Definition mem_write (p : list byte) (h : MemFile) : (Z * error) * MemFile :=
  ((len p, None),
   mkMem (firstn (pos h) (content h) ++ p
            ++ skipn (pos h + List.length p) (content h))
         (pos h + List.length p) (mode h) (faulty h)).

(** A handle that reads and seeks but has no [ReadAt], as the files of an
    embedded namespace. *)
Definition seekOnly : FsFile.File MemFile :=
  FsFile.mkFile mem_stat mem_close (Some mem_read) None (Some mem_seek)
                None None None None.

(** A handle with [ReadAt] and [Write], as an [*os.File]: [ReadAt] with a
    negative offset fails with the error [errors.New("negative offset")]
    wrapped in a [*fs.PathError]. *)
Definition osLike : FsFile.File MemFile :=
  FsFile.mkFile mem_stat mem_close (Some mem_read) (Some mem_readAt)
                (Some mem_seek) (Some mem_write) None None None.

Definition bytes (s : string) : list byte := list_byte_of_string s.

Definition no_fault : nat -> bool := fun _ => false.

Definition regular (data : string) : MemFile := mkMem (bytes data) 0 420 no_fault.

Definition directory : MemFile := mkMem [] 0 (Z.lor ModeDir 493) no_fault.

Definition opened (flag : Z) (h : MemFile) : FsFile.State MemFile :=
  FsFile.mkState (FsFile.NewFsFile "f" flag) h [].

(** A sequence of [Pread] calls, each with its buffer and offset. *)
Fixpoint Preads {H : Type} (U : error -> Errno) (fl : FsFile.File H)
  (calls : list (list byte * Z)) : M (FsFile.State H) (list FsFile.ReadResult) :=
  match calls with
  | [] => ret []
  | (p, off) :: rest =>
      r <- FsFile.Pread U fl p off ;;
      rs <- Preads U fl rest ;;
      ret (r :: rs)
  end.

(** A 20-byte file opened read-only and read up to offset 3. *)
Definition midway : FsFile.State MemFile :=
  FsFile.mkState (FsFile.NewFsFile "f" O_RDONLY)
                 (set_pos 3 (regular "abcdefghijklmnopqrst")) [].

(** The offset of an in-memory file, as [Seek] reports it. *)
Definition mem_offset (h : MemFile) : Z := Z.of_nat (pos h).

(** [fsFile] over the [*os.File]-like handle, as a [File]. *)
Definition osImpl : File (FsFile.State MemFile) := fsFile_File UnwrapOSError osLike.

(** A read-only decorator over a directory. *)
Definition readOnlyDir : ReadFile.readFile (FsFile.State MemFile) :=
  ReadFile.mkReadFile (opened O_RDONLY directory).

(** ** A filesystem to wrap: every path exists, files are numbered. *)
Definition countingFS : ReadFS.FS nat nat :=
  ReadFS.mkFS
    (fun _ _ _ n => ((n, 0), S n))
    (fun _ n => ((Stat_zero, 0), n))
    (fun _ n => ((Stat_zero, 0), n))
    (fun _ n => ((EmptyString, ENOSYS), n)).

(** ** A namespace that opens every name. *)
Definition anyNS : Adapter.FS nat nat :=
  Adapter.mkFS (fun _ n => ((n, None), S n)).

(** ** An operating system with numbered handles

    A handle is open when it is in [live].  [stat_ok] says whether
    [statFile] succeeds, [is_dir] what it reports, [open_ok] whether
    [openFile] succeeds. *)
Record WinOS : Type := mkWinOS {
  live    : list nat;
  next    : nat;
  entries : list string;
  is_dir  : bool;
  stat_ok : bool;
  open_ok : bool
}.

Definition win_stat (h : nat) (o : WinOS) : (Stat_t * Errno) * WinOS :=
  if stat_ok o then
    ((mkStat (if is_dir o then Z.lor ModeDir 493 else 420) 1 0 0 0 0, 0), o)
  else ((Stat_zero, EIO), o).

Definition win_open (_ : string) (_ : Z) (_ : FileMode) (o : WinOS)
  : (nat * Errno) * WinOS :=
  if open_ok o then
    ((next o, 0),
     mkWinOS (next o :: live o) (S (next o)) (entries o) (is_dir o)
             (stat_ok o) (open_ok o))
  else ((0%nat, 2), o).

Definition win_close (h : nat) (o : WinOS) : error * WinOS :=
  if existsb (Nat.eqb h) (live o) then
    (None,
     mkWinOS (filter (fun x => negb (Nat.eqb h x)) (live o)) (next o)
             (entries o) (is_dir o) (stat_ok o) (open_ok o))
  else (Some (ErrErrno EBADF), o).

Definition win_readdir (h : nat) (_ : Z) (o : WinOS)
  : (list string * error) * WinOS :=
  if existsb (Nat.eqb h) (live o) then ((entries o, None), o)
  else (([], Some (ErrErrno EBADF)), o).

Definition win_write (h : nat) (p : list byte) (o : WinOS)
  : (Z * error) * WinOS :=
  if existsb (Nat.eqb h) (live o) then ((len p, None), o)
  else ((0, Some (ErrErrno WindowsWrappedFile.ERROR_ACCESS_DENIED)), o).

Definition winOS : WindowsWrappedFile.OS nat WinOS string string :=
  WindowsWrappedFile.mkOS win_stat win_open win_close win_readdir
                          win_readdir win_write.

(** A wrapper as [openFile] leaves it, over handle 0. *)
Definition wrapped0 : WindowsWrappedFile.windowsWrappedFile nat :=
  WindowsWrappedFile.mkWrapped 0%nat "dir" O_RDONLY 0 false None false.

Definition winState (o : WinOS)
  : WindowsWrappedFile.State nat WinOS :=
  WindowsWrappedFile.mkState wrapped0 o [].

Definition dirOS : WinOS := mkWinOS [0%nat] 1 ["a"%string; "b"%string] true true true.

(** The same directory when [statFile] fails. *)
Definition blindOS : WinOS := mkWinOS [0%nat] 1 ["a"%string; "b"%string] true false true.

End Fixtures.

(** * Further parts of the sources

    The rest of [fsFile] (descriptor-level methods and [Readdir]),
    [stdioFile], [NewReadFS], [adapter.Stat], and drivers that run
    sequences of calls. *)

(** ** Sequences of [fsFile] calls *)

Module FsFileOps.

Inductive Call : Type :=
| CallPath
| CallAccessMode
| CallIsNonblock
| CallStat
| CallIsDir
| CallRead (p : list byte)
| CallPread (p : list byte) (off : Z)
| CallSeek (offset whence : Z)
| CallWrite (p : list byte)
| CallPwrite (p : list byte) (off : Z)
| CallTruncate (size : Z)
| CallChmod (mode : FileMode)
| CallClose.

(** A call with its results dropped. *)
Definition call {H : Type} (U : error -> Errno) (fl : FsFile.File H)
  (c : Call) : M (FsFile.State H) unit :=
  match c with
  | CallPath => FsFile.Path ;;; ret tt
  | CallAccessMode => FsFile.AccessMode ;;; ret tt
  | CallIsNonblock => FsFile.IsNonblock ;;; ret tt
  | CallStat => FsFile.Stat fl ;;; ret tt
  | CallIsDir => FsFile.IsDir fl ;;; ret tt
  | CallRead p => FsFile.Read U fl p ;;; ret tt
  | CallPread p off => FsFile.Pread U fl p off ;;; ret tt
  | CallSeek offset whence => FsFile.Seek U fl offset whence ;;; ret tt
  | CallWrite p => FsFile.Write U fl p ;;; ret tt
  | CallPwrite p off => FsFile.Pwrite U fl p off ;;; ret tt
  | CallTruncate size => FsFile.Truncate U fl size ;;; ret tt
  | CallChmod mode => FsFile.Chmod U fl mode ;;; ret tt
  | CallClose => FsFile.Close U fl ;;; ret tt
  end.

Fixpoint calls {H : Type} (U : error -> Errno) (fl : FsFile.File H)
  (cs : list Call) : M (FsFile.State H) unit :=
  match cs with
  | [] => ret tt
  | c :: rest => call U fl c ;;; calls U fl rest
  end.

Definition is_CallStat (c : Call) : bool :=
  match c with
  | CallStat => true
  | _ => false
  end.

(** Native calls that change the content or the length of the file, that
    read from it, and the native stat. *)
Definition writes (c : FsFile.NativeCall) : bool :=
  match c with
  | FsFile.NWrite _ | FsFile.NWriteAt _ _ | FsFile.NTruncate _ => true
  | _ => false
  end.

Definition reads (c : FsFile.NativeCall) : bool :=
  match c with
  | FsFile.NRead _ | FsFile.NReadAt _ _ => true
  | _ => false
  end.

Definition stats (c : FsFile.NativeCall) : bool :=
  match c with
  | FsFile.NStat => true
  | _ => false
  end.

Definition closes (c : FsFile.NativeCall) : bool :=
  match c with
  | FsFile.NClose => true
  | _ => false
  end.

Definition is_CallClose (c : Call) : bool :=
  match c with
  | CallClose => true
  | _ => false
  end.

(** What calls may do to a file, from a state [s] to a state [s']: the
    record changes in its cache only, and the log grows by calls that
    respect the access mode.  With [st] false no explicit [Stat] was among
    the calls: a cache that was set is kept and no native stat is made.
    With [cl] false no [Close] was among them: the handle is not closed. *)
Definition step {H : Type} (st cl : bool) (s s' : FsFile.State H) : Prop :=
  (exists c',
     FsFile.self s' = FsFile.set_cachedSt c' (FsFile.self s)
     /\ (st = false ->
         forall cs, FsFile.cachedSt (FsFile.self s) = Some cs -> c' = Some cs))
  /\ exists l,
       FsFile.log s' = FsFile.log s ++ l
       /\ (FsFile.accessMode (FsFile.self s) = O_RDONLY -> filter writes l = [])
       /\ (FsFile.accessMode (FsFile.self s) = O_WRONLY -> filter reads l = [])
       /\ (st = false ->
           FsFile.cachedSt (FsFile.self s) <> None -> filter stats l = [])
       /\ (cl = false -> filter closes l = []).

End FsFileOps.

(** ** Descriptor-level methods of [fsFile] and [Readdir] *)

Module FsFileFd.

(** Calls into the package primitives [setNonblock] and [readdir]. *)
Inductive FdCall : Type :=
| FdSetNonblock (fd : Z) (enable : bool)
| FdReaddir (n : Z).

Definition set_nonblock (b : bool) (f : FsFile.fsFile) : FsFile.fsFile :=
  FsFile.mkFsFile (FsFile.path f) (FsFile.accessMode f) b (FsFile.cachedSt f).

Section WithFd.

(** [H] is the state of the handle, [Dirent] stands for
    [platform.Dirent]. *)
Variables H Dirent : Type.

(** The [fdFile] view of the handle ([None] when it has no [Fd]), and the
    two primitives, which are not part of this tree and are parameters:
    [setNonblock(fd, enable)] and [readdir(f, n)]. *)
Record Fd : Type := mkFd {
  fd_Fd          : option (H -> Z);
  fd_setNonblock : Z -> bool -> H -> error * H;
  fd_readdir     : Z -> H -> (list Dirent * Errno) * H
}.

Record State : Type := mkState {
  base    : FsFile.State H;
  fdcalls : list FdCall
}.

(** A method of [fsFile] defined over [FsFile.State]. *)
Definition on_base {A : Type} (m : M (FsFile.State H) A) : M State A :=
  fun s => let (a, b) := m (base s) in (a, mkState b (fdcalls s)).

Definition primitive {A : Type} (c : FdCall) (op : H -> A * H) : M State A :=
  fun s =>
    let (a, h) := op (FsFile.handle (base s)) in
    (a, mkState (FsFile.mkState (FsFile.self (base s)) h (FsFile.log (base s)))
                (fdcalls s ++ [c])).

Definition update_self (g : FsFile.fsFile -> FsFile.fsFile) : M State unit :=
  modify (fun s =>
    mkState (FsFile.mkState (g (FsFile.self (base s)))
                            (FsFile.handle (base s)) (FsFile.log (base s)))
            (fdcalls s)).

Variable UnwrapOSError : error -> Errno.
Variable fl : FsFile.File H.
Variable fd : Fd.

(** [fsFile.IsNonblock] *)
Definition IsNonblock : M State bool := on_base FsFile.IsNonblock.

(** [fsFile.SetNonblock] *)
Definition SetNonblock (enable : bool) : M State Errno :=
  match fd_Fd fd with
  | Some Fd =>
      h <- gets (fun s => FsFile.handle (base s)) ;;
      err <- primitive (FdSetNonblock (Fd h) enable)
                       (fd_setNonblock fd (Fd h) enable) ;;
      if negb (is_nil err) then ret (UnwrapOSError err)
      else update_self (set_nonblock enable) ;;; ret 0
  | None => ret ENOSYS
  end.

(** [fsFile.Readdir] *)
Definition Readdir (n : Z) : M State (list Dirent * Errno) :=
  '(isDir, errno) <- on_base (FsFile.IsDir fl) ;;
  if negb (errno =? 0) then ret ([], errno)
  else if negb isDir then ret ([], ENOTDIR)
  else primitive (FdReaddir n) (fd_readdir fd n).

End WithFd.

Arguments mkFd {H Dirent}.
Arguments fd_Fd {H Dirent}.
Arguments fd_setNonblock {H Dirent}.
Arguments fd_readdir {H Dirent}.
Arguments mkState {H}.
Arguments base {H}.
Arguments fdcalls {H}.
Arguments on_base {H A}.
Arguments IsNonblock {H}.
Arguments SetNonblock {H Dirent}.
Arguments Readdir {H Dirent}.

End FsFileFd.

(** ** [platform.stdioFile] *)

Module StdioFile.

Section WithFile.

Variable H : Type.

(** [stdioFile]: the embedded [fsFile], held with its handle and call log
    as a [FsFile.State], and the constant stat result. *)
Record stdioFile : Type := mkStdioFile {
  fsFile : FsFile.State H;
  st     : Stat_t
}.

Definition promoted {A : Type} (m : M (FsFile.State H) A) : M stdioFile A :=
  fun f => let (a, b) := m (fsFile f) in (a, mkStdioFile b (st f)).

Variable UnwrapOSError : error -> Errno.
Variable fl : FsFile.File H.

(** The [Stat] method of the [fs.File] itself (an [fs.FileInfo], of which
    only [Mode()] is read). *)
Variable file_Info : H -> (FileMode * error) * H.

(** [NewStdioFile].  The handle is given in the state [h]. *)
Definition NewStdioFile (stdin : bool) (h : H) : option stdioFile * error :=
  let '((mode, err), h') := file_Info h in
  if negb (is_nil err) then (None, err)
  else
    let accessMode := if stdin then O_RDONLY else O_WRONLY in
    (Some (mkStdioFile
             (FsFile.mkState (FsFile.mkFsFile EmptyString accessMode false None)
                             h' [])
             (mkStat mode 1 0 0 0 0)),
     None).

(** [stdioFile.IsDir] *)
Definition IsDir : M stdioFile (bool * Errno) := ret (false, 0).

(** [stdioFile.Stat] *)
Definition Stat : M stdioFile (Stat_t * Errno) := f <- gets st ;; ret (f, 0).

(** [stdioFile.Close] *)
Definition Close : M stdioFile Errno := ret 0.

(** The methods promoted from the embedded [fsFile].  They run on the
    embedded value: a [Read] reaches [fsFile.IsDir], not [stdioFile.IsDir]. *)
Definition Read (p : list byte) : M stdioFile FsFile.ReadResult :=
  promoted (FsFile.Read UnwrapOSError fl p).

Definition Pread (p : list byte) (off : Z) : M stdioFile FsFile.ReadResult :=
  promoted (FsFile.Pread UnwrapOSError fl p off).

Definition Write (p : list byte) : M stdioFile (Z * Errno) :=
  promoted (FsFile.Write UnwrapOSError fl p).

Definition Pwrite (p : list byte) (off : Z) : M stdioFile (Z * Errno) :=
  promoted (FsFile.Pwrite UnwrapOSError fl p off).

Definition Seek (offset whence : Z) : M stdioFile (Z * Errno) :=
  promoted (FsFile.Seek UnwrapOSError fl offset whence).

Definition Truncate (size : Z) : M stdioFile Errno :=
  promoted (FsFile.Truncate UnwrapOSError fl size).

Definition AccessMode : M stdioFile Z := promoted FsFile.AccessMode.

(** Calls on a [stdioFile], results dropped. *)
Inductive Call : Type :=
| CallIsDir
| CallStat
| CallClose
| CallRead (p : list byte)
| CallPread (p : list byte) (off : Z)
| CallWrite (p : list byte)
| CallPwrite (p : list byte) (off : Z)
| CallSeek (offset whence : Z)
| CallTruncate (size : Z).

Definition call (c : Call) : M stdioFile unit :=
  match c with
  | CallIsDir => IsDir ;;; ret tt
  | CallStat => Stat ;;; ret tt
  | CallClose => Close ;;; ret tt
  | CallRead p => Read p ;;; ret tt
  | CallPread p off => Pread p off ;;; ret tt
  | CallWrite p => Write p ;;; ret tt
  | CallPwrite p off => Pwrite p off ;;; ret tt
  | CallSeek offset whence => Seek offset whence ;;; ret tt
  | CallTruncate size => Truncate size ;;; ret tt
  end.

Fixpoint calls (cs : list Call) : M stdioFile unit :=
  match cs with
  | [] => ret tt
  | c :: rest => call c ;;; calls rest
  end.

End WithFile.

Arguments mkStdioFile {H}.
Arguments fsFile {H}.
Arguments st {H}.
Arguments NewStdioFile {H}.
Arguments IsDir {H}.
Arguments Stat {H}.
Arguments Close {H}.
Arguments Read {H}.
Arguments Write {H}.
Arguments call {H}.
Arguments calls {H}.

End StdioFile.

(** ** [sysfs.NewReadFS] *)

Module NewReadFS.

(** An [FS] interface value by its dynamic type: a [*readFS] with the
    value it wraps, an [UnimplementedFS], or a value of another
    implementation. *)
Inductive FSValue (Impl : Type) : Type :=
| IsReadFS (fs : FSValue Impl)
| IsUnimplementedFS
| IsOther (impl : Impl).

Arguments IsReadFS {Impl}.
Arguments IsUnimplementedFS {Impl}.
Arguments IsOther {Impl}.

(** [NewReadFS] *)
Definition NewReadFS {Impl : Type} (fs : FSValue Impl) : FSValue Impl :=
  match fs with
  | IsReadFS _ => fs
  | IsUnimplementedFS => fs
  | IsOther _ => IsReadFS fs
  end.

(** The number of [readFS] layers at the top of a value. *)
Fixpoint layers {Impl : Type} (fs : FSValue Impl) : nat :=
  match fs with
  | IsReadFS inner => S (layers inner)
  | _ => O
  end.

End NewReadFS.

(** ** [adapter.Stat] and [adapter.Lstat] *)

Module AdapterStat.

Section WithFS.

(** [N] is the state of the namespace.  A file it opens is given by the
    state [Fh] of its handle; [fl] says what the methods of such a handle
    do. *)
Variables N Fh : Type.

(** The state carries, next to the namespace and the names opened, the
    native calls made on the handles that [Stat] opened. *)
Record World : Type := mkWorld {
  world        : Adapter.World N;
  handle_calls : list FsFile.NativeCall
}.

Variable UnwrapOSError : error -> Errno.
Variable fl : FsFile.File Fh.

(** [adapter.Stat].  The deferred [f.Close()] runs after the stat; its
    result is dropped. *)
Definition Stat (a : Adapter.adapter N Fh) (path : string)
  : M World (Stat_t * Errno) :=
  fun w =>
    let name := Adapter.cleanPath path in
    let '((f, err), w1) := Adapter.call_Open N Fh a name (world w) in
    if negb (is_nil err) then
      ((Stat_zero, UnwrapOSError err), mkWorld w1 (handle_calls w))
    else
      let '(r, s1) :=
        FsFile.Stat fl (FsFile.mkState (FsFile.NewFsFile path O_RDONLY) f []) in
      let '(_, s2) := FsFile.native FsFile.NClose (FsFile.file_Close fl) s1 in
      (r, mkWorld w1 (handle_calls w ++ FsFile.log s2)).

(** [adapter.Lstat] *)
Definition Lstat (a : Adapter.adapter N Fh) (path : string)
  : M World (Stat_t * Errno) :=
  Stat a path.

End WithFS.

Arguments mkWorld {N}.
Arguments world {N}.
Arguments handle_calls {N}.
Arguments Stat {N Fh}.
Arguments Lstat {N Fh}.

End AdapterStat.

(** ** Sequences of calls on a [windowsWrappedFile] *)

Module WindowsOps.

Inductive Op : Type :=
| OpPath
| OpReaddir (n : Z)
| OpReadDir (n : Z)
| OpWrite (p : list byte)
| OpClose.

Section WithOS.

Variables Hd N FileInfo DirEntry : Type.
Variable sys : WindowsWrappedFile.OS Hd N FileInfo DirEntry.

Definition run (o : Op) : M (WindowsWrappedFile.State Hd N) unit :=
  match o with
  | OpPath => WindowsWrappedFile.Path Hd N ;;; ret tt
  | OpReaddir n => WindowsWrappedFile.Readdir sys n ;;; ret tt
  | OpReadDir n => WindowsWrappedFile.ReadDir sys n ;;; ret tt
  | OpWrite p => WindowsWrappedFile.Write sys p ;;; ret tt
  | OpClose => WindowsWrappedFile.Close sys ;;; ret tt
  end.

Fixpoint runs (os : list Op) : M (WindowsWrappedFile.State Hd N) unit :=
  match os with
  | [] => ret tt
  | o :: rest => run o ;;; runs rest
  end.

(** The native stat among the calls to the operating system. *)
Definition is_stat (c : WindowsWrappedFile.OSCall Hd) : bool :=
  match c with
  | WindowsWrappedFile.OSStat _ => true
  | _ => false
  end.

End WithOS.

Arguments run {Hd N FileInfo DirEntry}.
Arguments runs {Hd N FileInfo DirEntry}.
Arguments is_stat {Hd}.

(** What any method of the wrapper may change between two states: never
    the path, the flag or the permissions; a cached file type is kept, and
    once it is there no native stat is made. *)
Definition step {Hd N : Type} (s s' : WindowsWrappedFile.State Hd N) : Prop :=
  WindowsWrappedFile.path (WindowsWrappedFile.self s')
    = WindowsWrappedFile.path (WindowsWrappedFile.self s)
  /\ WindowsWrappedFile.flag (WindowsWrappedFile.self s')
     = WindowsWrappedFile.flag (WindowsWrappedFile.self s)
  /\ WindowsWrappedFile.perm (WindowsWrappedFile.self s')
     = WindowsWrappedFile.perm (WindowsWrappedFile.self s)
  /\ (forall ft,
        WindowsWrappedFile.fileType (WindowsWrappedFile.self s) = Some ft ->
        WindowsWrappedFile.fileType (WindowsWrappedFile.self s') = Some ft)
  /\ exists l, WindowsWrappedFile.log s' = WindowsWrappedFile.log s ++ l
       /\ (WindowsWrappedFile.fileType (WindowsWrappedFile.self s) <> None ->
           filter is_stat l = []).

End WindowsOps.

(** ** Sequences of calls on a [readFS] *)

Module ReadFSOps.

Inductive Op : Type :=
| OpOpenFile (path : string) (flag : Z) (perm : FileMode)
| OpLstat (path : string)
| OpStat (path : string)
| OpReadlink (path : string)
| OpMkdir (path : string) (perm : FileMode)
| OpChmod (path : string) (perm : FileMode)
| OpChown (path : string) (uid gid : Z)
| OpLchown (path : string) (uid gid : Z)
| OpRename (from to : string)
| OpRmdir (path : string)
| OpLink (oldPath newPath : string)
| OpSymlink (oldPath linkName : string)
| OpUnlink (path : string)
| OpUtimens (path : string) (times : option (Z * Z)) (symlinkFollow : bool)
| OpTruncate (path : string) (size : Z).

(** The operations that would change the filesystem. *)
Definition is_mutation (o : Op) : bool :=
  match o with
  | OpOpenFile _ _ _ | OpLstat _ | OpStat _ | OpReadlink _ => false
  | _ => true
  end.

(** A call that reaches the wrapped filesystem and opens for writing:
    its access mode, as [NewFsFile] computes it, is [O_WRONLY] or
    [O_RDWR]. *)
Definition opens_for_writing (c : ReadFS.FSCall) : bool :=
  match c with
  | ReadFS.CallOpenFile _ flag _ =>
      let m := Z.land flag (Z.lor (Z.lor O_RDONLY O_WRONLY) O_RDWR) in
      (m =? O_WRONLY) || (m =? O_RDWR)
  | _ => false
  end.

Section WithFS.

Variables W F : Type.
Variable r : ReadFS.readFS W F.

(** One call, keeping the errno it returns. *)
Definition run (o : Op) : M (ReadFS.World W) Errno :=
  match o with
  | OpOpenFile path flag perm =>
      '(_, errno) <- ReadFS.OpenFile r path flag perm ;; ret errno
  | OpLstat path => '(_, errno) <- ReadFS.Lstat W F r path ;; ret errno
  | OpStat path => '(_, errno) <- ReadFS.Stat W F r path ;; ret errno
  | OpReadlink path => '(_, errno) <- ReadFS.Readlink W F r path ;; ret errno
  | OpMkdir path perm => ReadFS.Mkdir r path perm
  | OpChmod path perm => ReadFS.Chmod r path perm
  | OpChown path uid gid => ReadFS.Chown r path uid gid
  | OpLchown path uid gid => ReadFS.Lchown r path uid gid
  | OpRename from to => ReadFS.Rename r from to
  | OpRmdir path => ReadFS.Rmdir r path
  | OpLink oldPath newPath => ReadFS.Link r oldPath newPath
  | OpSymlink oldPath linkName => ReadFS.Symlink r oldPath linkName
  | OpUnlink path => ReadFS.Unlink r path
  | OpUtimens path times symlinkFollow =>
      ReadFS.Utimens r path times symlinkFollow
  | OpTruncate path size => ReadFS.Truncate r path size
  end.

Fixpoint runs (os : list Op) : M (ReadFS.World W) (list Errno) :=
  match os with
  | [] => ret []
  | o :: rest =>
      e <- run o ;;
      es <- runs rest ;;
      ret (e :: es)
  end.

End WithFS.

Arguments run {W F}.
Arguments runs {W F}.

End ReadFSOps.

(** ** Sample files and calls *)

Module Samples.

(** A handle with [Stat] and [Close] only, none of the optional
    interfaces. *)
Definition bare : FsFile.File Fixtures.MemFile :=
  FsFile.mkFile Fixtures.mem_stat Fixtures.mem_close None None None
                None None None None.

(** A handle that cannot be used through a descriptor, and one that
    can. *)
Definition noFd : FsFileFd.Fd Fixtures.MemFile string :=
  FsFileFd.mkFd None (fun _ _ h => (None, h)) (fun _ h => (([], 0), h)).

(** [fs.File.Stat] followed by [Mode] on an in-memory file. *)
Definition mem_info (h : Fixtures.MemFile)
  : (FileMode * error) * Fixtures.MemFile :=
  ((Fixtures.mode h, None), h).

(** A mix of calls on an [fsFile], without [Stat]. *)
Definition traffic : list FsFileOps.Call :=
  [FsFileOps.CallRead (Fixtures.bytes "..");
   FsFileOps.CallWrite (Fixtures.bytes "xy");
   FsFileOps.CallPwrite (Fixtures.bytes "z") 1;
   FsFileOps.CallPread (Fixtures.bytes ".") 0;
   FsFileOps.CallSeek 0 FsFile.SeekStart;
   FsFileOps.CallTruncate 0;
   FsFileOps.CallIsDir;
   FsFileOps.CallClose].

(** A regular file opened for reading and writing whose type is cached
    already. *)
Definition cachedFile : FsFile.State Fixtures.MemFile :=
  FsFile.mkState
    (FsFile.set_cachedSt (Some (FsFile.mkCachedStat 0))
       (FsFile.NewFsFile "f" O_RDWR))
    (Fixtures.regular "abc") [].

(** The same calls through a [stdioFile]. *)
Definition stdioTraffic : list StdioFile.Call :=
  [StdioFile.CallRead (Fixtures.bytes "..");
   StdioFile.CallWrite (Fixtures.bytes "xy");
   StdioFile.CallStat;
   StdioFile.CallClose;
   StdioFile.CallIsDir].


Definition fileOS : Fixtures.WinOS :=
  Fixtures.mkWinOS [0%nat] 1 [] false true true.

(** Standard input over an in-memory file, as [NewStdioFile] builds
    it. *)
Definition stdinFile : StdioFile.stdioFile Fixtures.MemFile :=
  StdioFile.mkStdioFile
    (FsFile.mkState (FsFile.mkFsFile EmptyString O_RDONLY false None)
                    (Fixtures.regular "abc") [])
    (mkStat 420 1 0 0 0 0).

End Samples.

(** * Properties *)

(** ** The monad *)

(** The monad laws, up to the state the computation is run from. *)
Lemma bind_ret_l {S A B : Type} (a : A) (k : A -> M S B) (s : S) :
  bind (ret a) k s = k a s.
Proof. reflexivity. Qed.

Lemma bind_ret_r {S A : Type} (m : M S A) (s : S) :
  bind m ret s = m s.
Proof. unfold bind, ret. destruct (m s); reflexivity. Qed.

Lemma bind_assoc {S A B C : Type} (m : M S A) (k : A -> M S B)
  (k' : B -> M S C) (s : S) :
  bind (bind m k) k' s = bind m (fun a => bind (k a) k') s.
Proof. unfold bind. destruct (m s); reflexivity. Qed.

(** ** The read-only filesystem wrapper *)

(** The mask keeps the two low bits of the flag and nothing else. *)
Lemma rw_mask_mod (flag : Z) :
  Z.land flag (Z.lor (Z.lor O_RDONLY O_WRONLY) O_RDWR) = flag mod 4.
Proof.
  change (Z.lor (Z.lor O_RDONLY O_WRONLY) O_RDWR) with (Z.ones 2).
  rewrite Z.land_ones by lia. reflexivity.
Qed.

(** C1.  [readFS.OpenFile] looks at [flag & (O_RDONLY|O_WRONLY|O_RDWR)]
    only.  When that is [O_WRONLY] or [O_RDWR] it returns no file and
    ENOSYS, and the wrapped filesystem is not called: the state and its
    call log are the ones it started from.  Otherwise it calls the wrapped
    [OpenFile] once, with the path, the unmasked flag and the permission
    it was given; an error of that call is returned as it is, and on
    success the file is returned inside a [readFile].  The masked value is
    the flag modulo 4: no other bit of the flag takes part. *)
Theorem readFS_OpenFile_masks_then_delegates :
  forall (W F : Type) (r : ReadFS.readFS W F) (path : string) (flag : Z)
         (perm : FileMode) (w : ReadFS.World W),
    let m := Z.land flag (Z.lor (Z.lor O_RDONLY O_WRONLY) O_RDWR) in
    m = flag mod 4
    /\
    (m = O_WRONLY \/ m = O_RDWR ->
       ReadFS.OpenFile r path flag perm w = ((None, ENOSYS), w))
    /\
    (m <> O_WRONLY -> m <> O_RDWR ->
       exists (f : F) (errno : Errno) (i : W),
         ReadFS.fs_OpenFile _ _ (ReadFS.fs r) path flag perm (ReadFS.inner w)
           = ((f, errno), i)
         /\ ReadFS.OpenFile r path flag perm w =
              ((if errno =? 0 then Some (ReadFile.mkReadFile f) else None, errno),
               ReadFS.mkWorld i
                 (ReadFS.calls w ++ [ReadFS.CallOpenFile path flag perm]))).
Proof.
  intros W F r path flag perm w m. unfold ReadFS.OpenFile. fold m.
  split; [apply rw_mask_mod|]. split.
  - intros [E | E]; rewrite E; reflexivity.
  - intros N1 N2.
    destruct (Z.eqb_spec m O_WRONLY) as [|_]; [contradiction|].
    destruct (Z.eqb_spec m O_RDWR) as [|_]; [contradiction|].
    cbn [orb].
    destruct (ReadFS.fs_OpenFile _ _ (ReadFS.fs r) path flag perm (ReadFS.inner w))
      as [[f errno] i] eqn:E.
    exists f, errno, i. split; [reflexivity|].
    unfold bind, ReadFS.invoke. rewrite E.
    destruct (Z.eqb_spec errno 0) as [->|]; reflexivity.
Qed.

(** A write-intent open and a read-intent open on a concrete filesystem:
    [O_WRONLY|O_CREAT] (65) is refused without a call, [O_RDONLY|O_CLOEXEC]
    (0x80000) is forwarded unmasked. *)
Lemma readFS_OpenFile_masks_then_delegates_witness :
  ReadFS.OpenFile (ReadFS.mkReadFS Fixtures.countingFS) "a" 65 0
                  (ReadFS.mkWorld 7%nat [])
    = ((None, ENOSYS), ReadFS.mkWorld 7%nat [])
  /\ exists f errno i,
       ReadFS.fs_OpenFile _ _ Fixtures.countingFS "a" 524288 0 7%nat = ((f, errno), i)
       /\ ReadFS.OpenFile (ReadFS.mkReadFS Fixtures.countingFS) "a" 524288 0
                          (ReadFS.mkWorld 7%nat [])
          = ((if errno =? 0 then Some (ReadFile.mkReadFile f) else None, errno),
             ReadFS.mkWorld i [ReadFS.CallOpenFile "a" 524288 0]).
Proof.
  pose proof (readFS_OpenFile_masks_then_delegates nat nat
                (ReadFS.mkReadFS Fixtures.countingFS) "a" 65 0
                (ReadFS.mkWorld 7%nat [])) as (_ & Hw & _).
  pose proof (readFS_OpenFile_masks_then_delegates nat nat
                (ReadFS.mkReadFS Fixtures.countingFS) "a" 524288 0
                (ReadFS.mkWorld 7%nat [])) as (_ & _ & Hr).
  split.
  - apply Hw. left. reflexivity.
  - apply Hr; discriminate.
Defined.

(** C7.  Each path-mutating operation of [readFS] returns EROFS, which is
    not ENOSYS, whatever its arguments, and leaves the state, the log of
    calls into the wrapped filesystem included, as it found it. *)
Theorem readFS_mutations_return_EROFS :
  forall (W F : Type) (r : ReadFS.readFS W F) (w : ReadFS.World W)
         (path path2 : string) (perm : FileMode) (uid gid size : Z)
         (times : option (Z * Z)) (symlinkFollow : bool),
    ReadFS.Mkdir r path perm w = (EROFS, w)
    /\ ReadFS.Chmod r path perm w = (EROFS, w)
    /\ ReadFS.Chown r path uid gid w = (EROFS, w)
    /\ ReadFS.Lchown r path uid gid w = (EROFS, w)
    /\ ReadFS.Rename r path path2 w = (EROFS, w)
    /\ ReadFS.Rmdir r path w = (EROFS, w)
    /\ ReadFS.Link r path path2 w = (EROFS, w)
    /\ ReadFS.Symlink r path path2 w = (EROFS, w)
    /\ ReadFS.Unlink r path w = (EROFS, w)
    /\ ReadFS.Utimens r path times symlinkFollow w = (EROFS, w)
    /\ ReadFS.Truncate r path size w = (EROFS, w)
    /\ EROFS <> ENOSYS.
Proof.
  intros. repeat split. discriminate.
Qed.

(** ** The native-backed File *)

Section FsFileFacts.

Variable H : Type.
Variable U : error -> Errno.
Variable fl : FsFile.File H.

Lemma Stat_sets_cache (s s' : FsFile.State H) (st : Stat_t) :
  FsFile.Stat fl s = ((st, 0), s') ->
  FsFile.cachedSt (FsFile.self s')
    = Some (FsFile.mkCachedStat (Z.land (st_Mode st) ModeType)).
Proof.
  unfold FsFile.Stat, bind, FsFile.native.
  destruct (FsFile.file_Stat fl (FsFile.handle s)) as [[st0 e] h'].
  destruct (Z.eqb_spec e 0) as [->|Hne].
  - cbn. intros E. inversion E; subst. reflexivity.
  - destruct (Z.eqb_spec e EIO) as [->|Hne'];
      cbn; intros E; inversion E; subst; congruence.
Qed.

Lemma cachedStat_frame (s : FsFile.State H) :
  let s' := snd (FsFile.cachedStat fl s) in
  FsFile.path (FsFile.self s') = FsFile.path (FsFile.self s)
  /\ FsFile.accessMode (FsFile.self s') = FsFile.accessMode (FsFile.self s)
  /\ FsFile.handle s' = FsFile.handle_after_check fl s
  /\ FsFile.log s' = FsFile.log s ++ FsFile.stat_cost s.
Proof.
  unfold FsFile.cachedStat, FsFile.handle_after_check, FsFile.stat_cost, bind, gets.
  destruct (FsFile.cachedSt (FsFile.self s)) as [cs|] eqn:Ec; cbn.
  - rewrite app_nil_r. auto.
  - unfold FsFile.Stat, bind, FsFile.native.
    destruct (FsFile.file_Stat fl (FsFile.handle s)) as [[st e] h'].
    destruct (Z.eqb_spec e 0) as [->|Hne]; cbn; [auto|].
    destruct (Z.eqb_spec e EIO) as [->|Hne']; cbn; [auto|].
    destruct (Z.eqb_spec e 0); [contradiction|]. cbn. auto.
Qed.

Lemma IsDir_frame (s : FsFile.State H) :
  snd (FsFile.IsDir fl s) = snd (FsFile.cachedStat fl s).
Proof.
  unfold FsFile.IsDir, bind.
  destruct (FsFile.cachedStat fl s) as [[ft e] s'].
  destruct (negb (e =? 0)); [reflexivity|].
  destruct (FileMode_Type ft =? ModeDir); reflexivity.
Qed.

Lemma isDirErrno_frame (s : FsFile.State H) :
  let s' := snd (FsFile.isDirErrno fl s) in
  FsFile.path (FsFile.self s') = FsFile.path (FsFile.self s)
  /\ FsFile.accessMode (FsFile.self s') = FsFile.accessMode (FsFile.self s)
  /\ FsFile.handle s' = FsFile.handle_after_check fl s
  /\ FsFile.log s' = FsFile.log s ++ FsFile.stat_cost s.
Proof.
  assert (E : snd (FsFile.isDirErrno fl s) = snd (FsFile.cachedStat fl s)).
  { rewrite <- IsDir_frame. unfold FsFile.isDirErrno, bind.
    destruct (FsFile.IsDir fl s) as [[d e] s'].
    destruct (negb (e =? 0)); [reflexivity|]. destruct d; reflexivity. }
  cbv zeta. rewrite E. apply cachedStat_frame.
Qed.

(** On a handle whose cached type is a directory the check says EISDIR. *)
Lemma isDirErrno_cached (s : FsFile.State H) (cs : FsFile.cachedStat_t) :
  FsFile.cachedSt (FsFile.self s) = Some cs ->
  FsFile.isDirErrno fl s =
    (if FileMode_Type (FsFile.fileType cs) =? ModeDir then EISDIR else 0, s).
Proof.
  intros E.
  unfold FsFile.isDirErrno, FsFile.IsDir, FsFile.cachedStat, bind, gets.
  rewrite E. cbn.
  destruct (FileMode_Type (FsFile.fileType cs) =? _); reflexivity.
Qed.

(** C3, as the code has it.  [Read] with an empty buffer returns zero
    bytes and errno zero and touches nothing: no native call is logged and
    the file and its handle are as before, whatever the access mode and
    the file type.  [Write] with an empty buffer never reaches the native
    write, but it runs the directory check and the access-mode check
    first: it returns the errno of the directory check when that is not
    zero (EISDIR on a directory), else EBADF when the file was opened
    [O_RDONLY], else zero bytes and errno zero; the directory check costs
    one native stat unless the file type is cached. *)
Theorem fsFile_zero_length_Read_Write (s : FsFile.State H) :
  FsFile.Read U fl [] s = ((0, 0, []), s)
  /\ FsFile.Write U fl [] s =
       (let (e, s') := FsFile.isDirErrno fl s in
        ((0, if negb (e =? 0) then e
             else if FsFile.accessMode (FsFile.self s) =? O_RDONLY then EBADF
             else 0), s'))
  /\ FsFile.log (snd (FsFile.Write U fl [] s))
       = FsFile.log s ++ FsFile.stat_cost s
  /\ (forall cs, FsFile.cachedSt (FsFile.self s) = Some cs ->
        FileMode_Type (FsFile.fileType cs) = ModeDir ->
        FsFile.Write U fl [] s = ((0, EISDIR), s)).
Proof.
  assert (W : FsFile.Write U fl [] s =
       (let (e, s') := FsFile.isDirErrno fl s in
        ((0, if negb (e =? 0) then e
             else if FsFile.accessMode (FsFile.self s) =? O_RDONLY then EBADF
             else 0), s'))).
  { pose proof (isDirErrno_frame s) as (_ & Ham & _).
    unfold FsFile.Write, bind in *.
    destruct (FsFile.isDirErrno fl s) as [e s'].
    cbn [snd] in Ham.
    destruct (negb (e =? 0)); [reflexivity|].
    unfold FsFile.AccessMode, gets. rewrite Ham.
    destruct (FsFile.accessMode (FsFile.self s) =? O_RDONLY); reflexivity. }
  split; [reflexivity|]. split; [exact W|]. split.
  - rewrite W. pose proof (isDirErrno_frame s) as (_ & _ & _ & Hlog).
    destruct (FsFile.isDirErrno fl s) as [e s']. exact Hlog.
  - intros cs Ecs Edir. rewrite W, (isDirErrno_cached s cs Ecs), Edir.
    reflexivity.
Qed.

End FsFileFacts.


(** C3 fails for [Write] as the claim states it: an empty [Write] on a
    directory opened read-write returns EISDIR after a native stat, and on
    a regular file opened [O_RDONLY] it returns EBADF after a native
    stat. *)
Lemma fsFile_empty_Write_counterexample :
  (let r := FsFile.Write Fixtures.UnwrapOSError Fixtures.osLike []
              (Fixtures.opened O_RDWR Fixtures.directory) in
   fst r = (0, EISDIR) /\ FsFile.log (snd r) = [FsFile.NStat])
  /\
  (let r := FsFile.Write Fixtures.UnwrapOSError Fixtures.osLike []
              (Fixtures.opened O_RDONLY (Fixtures.regular "data")) in
   fst r = (0, EBADF) /\ FsFile.log (snd r) = [FsFile.NStat])
  /\ ~ (forall s : FsFile.State Fixtures.MemFile,
          FsFile.Write Fixtures.UnwrapOSError Fixtures.osLike [] s = ((0, 0), s)).
Proof.
  split; [split; reflexivity|]. split; [split; reflexivity|].
  intros C.
  specialize (C (Fixtures.opened O_RDWR Fixtures.directory)).
  discriminate C.
Qed.

(** ** Close *)

(** C2 fails as stated.  On an [fsFile] two calls of [Close] that both
    succeed reach the native close twice.  The same holds of the Windows
    wrapper: after a first [Close] that succeeds its [closed] field is
    still false and the second [Close] calls the native close again. *)
Lemma close_twice_counterexample :
  (let r1 := FsFile.Close Fixtures.UnwrapOSError Fixtures.osLike
               (Fixtures.opened O_RDONLY (Fixtures.regular "data")) in
   let r2 := FsFile.Close Fixtures.UnwrapOSError Fixtures.osLike (snd r1) in
   fst r1 = 0 /\ fst r2 = 0
   /\ FsFile.log (snd r2) = [FsFile.NClose; FsFile.NClose])
  /\
  (let r1 := WindowsWrappedFile.Close Fixtures.winOS
               (Fixtures.winState Fixtures.dirOS) in
   let r2 := WindowsWrappedFile.Close Fixtures.winOS (snd r1) in
   fst r1 = None
   /\ WindowsWrappedFile.closed (WindowsWrappedFile.self (snd r1)) = false
   /\ WindowsWrappedFile.log (snd r2)
        = [WindowsWrappedFile.OSClose 0%nat; WindowsWrappedFile.OSClose 0%nat]).
Proof.
  split; repeat split; reflexivity.
Qed.

(** C2, as the code has it.  [fsFile.Close] keeps no closed state: every
    call invokes the close of the backing handle once and returns its
    translated error.  [windowsWrappedFile.Close] returns [nil] without a
    native call when its [closed] field is set, and otherwise invokes the
    native close once and returns its error. *)
Theorem Close_forwards_unless_flagged :
  forall (H : Type) (U : error -> Errno) (fl : FsFile.File H)
         (s : FsFile.State H)
         (Hd N FileInfo DirEntry : Type)
         (sys : WindowsWrappedFile.OS Hd N FileInfo DirEntry)
         (t : WindowsWrappedFile.State Hd N),
    FsFile.Close U fl s =
      (let (err, h) := FsFile.file_Close fl (FsFile.handle s) in
       (U err, FsFile.mkState (FsFile.self s) h (FsFile.log s ++ [FsFile.NClose])))
    /\
    (WindowsWrappedFile.closed (WindowsWrappedFile.self t) = true ->
       WindowsWrappedFile.Close sys t = (None, t))
    /\
    (WindowsWrappedFile.closed (WindowsWrappedFile.self t) = false ->
       let h := WindowsWrappedFile.osFile (WindowsWrappedFile.self t) in
       fst (WindowsWrappedFile.Close sys t)
         = fst (WindowsWrappedFile.os_Close _ _ _ _ sys h (WindowsWrappedFile.os t))
       /\ WindowsWrappedFile.log (snd (WindowsWrappedFile.Close sys t))
            = WindowsWrappedFile.log t ++ [WindowsWrappedFile.OSClose h]).
Proof.
  intros. split; [|split].
  - unfold FsFile.Close, bind, FsFile.native.
    destruct (FsFile.file_Close fl (FsFile.handle s)); reflexivity.
  - intros E. unfold WindowsWrappedFile.Close, bind, WindowsWrappedFile.this, gets.
    rewrite E. reflexivity.
  - intros E. unfold WindowsWrappedFile.Close, bind, WindowsWrappedFile.this,
      gets, WindowsWrappedFile.syscall.
    rewrite E.
    destruct (WindowsWrappedFile.os_Close _ _ _ _ sys _ _) as [[e|] n];
      split; reflexivity.
Qed.

(** The three parts on concrete files: an [fsFile] close, a wrapper whose
    flag is set, and a wrapper whose flag is not. *)
Lemma Close_forwards_unless_flagged_witness :
  FsFile.log (snd (FsFile.Close Fixtures.UnwrapOSError Fixtures.osLike
                     (Fixtures.opened O_RDONLY (Fixtures.regular "data"))))
    = [FsFile.NClose]
  /\ WindowsWrappedFile.Close Fixtures.winOS
       (WindowsWrappedFile.mkState
          (WindowsWrappedFile.set_closed _ true Fixtures.wrapped0)
          Fixtures.dirOS [])
     = (None,
        WindowsWrappedFile.mkState
          (WindowsWrappedFile.set_closed _ true Fixtures.wrapped0)
          Fixtures.dirOS [])
  /\ WindowsWrappedFile.log
       (snd (WindowsWrappedFile.Close Fixtures.winOS
               (Fixtures.winState Fixtures.dirOS)))
     = [WindowsWrappedFile.OSClose 0%nat].
Proof.
  pose proof (Close_forwards_unless_flagged _ Fixtures.UnwrapOSError
      Fixtures.osLike (Fixtures.opened O_RDONLY (Fixtures.regular "data"))
      _ _ _ _ Fixtures.winOS
      (WindowsWrappedFile.mkState
          (WindowsWrappedFile.set_closed _ true Fixtures.wrapped0)
          Fixtures.dirOS [])) as (Hf & Hset & _).
  pose proof (Close_forwards_unless_flagged _ Fixtures.UnwrapOSError
      Fixtures.osLike (Fixtures.opened O_RDONLY (Fixtures.regular "data"))
      _ _ _ _ Fixtures.winOS (Fixtures.winState Fixtures.dirOS)) as (_ & _ & Hun).
  split; [rewrite Hf; reflexivity|]. split.
  - apply Hset. reflexivity.
  - apply Hun. reflexivity.
Defined.

(** ** Positional read *)

(** With a handle that implements [io.ReaderAt], [Pread] on a readable
    regular file is the handle's [ReadAt] at the offset it was given,
    whatever the sign of that offset. *)
Lemma Pread_ReaderAt_forwards (H : Type) (U : error -> Errno)
  (fl : FsFile.File H) (s : FsFile.State H) (cs : FsFile.cachedStat_t)
  (ra : list byte -> Z -> H -> (Z * error * list byte) * H)
  (p : list byte) (off : Z) :
  FsFile.file_ReaderAt fl = Some ra ->
  p <> [] ->
  FsFile.cachedSt (FsFile.self s) = Some cs ->
  FileMode_Type (FsFile.fileType cs) <> ModeDir ->
  FsFile.accessMode (FsFile.self s) <> O_WRONLY ->
  FsFile.Pread U fl p off s =
    (let '((n, err, p'), h') := ra p off (FsFile.handle s) in
     ((n, U err, p'),
      FsFile.mkState (FsFile.self s) h'
        (FsFile.log s ++ [FsFile.NReadAt (List.length p) off]))).
Proof.
  intros Hra Hp Hcs Hreg Ham. unfold FsFile.Pread.
  destruct p as [|b p']; [contradiction|]. cbn [List.length Nat.eqb].
  unfold bind. rewrite (isDirErrno_cached H fl s cs Hcs).
  destruct (Z.eqb_spec (FileMode_Type (FsFile.fileType cs)) ModeDir) as [E|_];
    [contradiction|].
  cbn [negb Z.eqb]. unfold FsFile.AccessMode, gets.
  destruct (Z.eqb_spec (FsFile.accessMode (FsFile.self s)) O_WRONLY) as [E|_];
    [contradiction|].
  rewrite Hra. unfold FsFile.native.
  destruct (ra (b :: p') off (FsFile.handle s)) as [[[n err] q] h'].
  reflexivity.
Qed.

(** C5: the check is missing.  [Pread] hands a negative offset to the
    handle's [ReadAt] and returns whatever error that gives, translated by
    the errno layer; with a handle that answers as an [*os.File] does, the
    error is the opaque "negative offset", which the layer does not map to
    EINVAL. *)
Theorem fsFile_Pread_negative_offset_forwarded :
  (forall U : error -> Errno,
     let r := FsFile.Pread U Fixtures.osLike [x00] (-1)
                (Fixtures.opened O_RDONLY (Fixtures.regular "data")) in
     fst r = (0, U (Some (ErrPath "readat" "mem" (ErrOther "negative offset"))),
              [x00])
     /\ FsFile.log (snd r) = [FsFile.NStat; FsFile.NReadAt 1 (-1)])
  /\ (let r := FsFile.Pread Fixtures.UnwrapOSError Fixtures.osLike [x00] (-1)
                 (Fixtures.opened O_RDONLY (Fixtures.regular "data")) in
      fst r = (0, EIO, [x00]) /\ EIO <> EINVAL).
Proof.
  split.
  - intros U. split; reflexivity.
  - split; [reflexivity | discriminate].
Qed.

Section PreadFallback.

Variable H : Type.
Variable U : error -> Errno.
Variable fl : FsFile.File H.

(** The handle has no [ReadAt] but reads and seeks. *)
Variable rd : list byte -> H -> (Z * error * list byte) * H.
Variable sk : Z -> Z -> H -> (Z * error) * H.
Hypothesis no_ReaderAt : FsFile.file_ReaderAt fl = None.
Hypothesis has_Reader : FsFile.file_Reader fl = Some rd.
Hypothesis has_Seeker : FsFile.file_Seeker fl = Some sk.

(** [offset] is the sequential offset of the handle.  What is assumed of
    the handle is the contract of [io.Seeker]: [Seek(0, io.SeekCurrent)]
    does not move it and, when it succeeds, reports it; [Seek(o,
    io.SeekStart)] to an offset the handle has had puts it there; and a
    stat does not move it.  Nothing is assumed of [Read], nor of a seek
    that fails. *)
Variable offset : H -> Z.
Hypothesis stat_keeps_offset :
  forall h, offset (snd (FsFile.file_Stat fl h)) = offset h.
Hypothesis seek_current_reports :
  forall h,
    offset (snd (sk 0 FsFile.SeekCurrent h)) = offset h
    /\ (snd (fst (sk 0 FsFile.SeekCurrent h)) = None ->
        fst (fst (sk 0 FsFile.SeekCurrent h)) = offset h).
Hypothesis seek_start_moves :
  forall h h0, offset (snd (sk (offset h0) FsFile.SeekStart h)) = offset h0.

Lemma isDirErrno_keeps_offset (s : FsFile.State H) :
  offset (FsFile.handle (snd (FsFile.isDirErrno fl s))) = offset (FsFile.handle s).
Proof.
  pose proof (isDirErrno_frame H fl s) as (_ & _ & Hh & _).
  cbv zeta in Hh. rewrite Hh. unfold FsFile.handle_after_check.
  destruct (FsFile.cachedSt (FsFile.self s)); [reflexivity|].
  apply stat_keeps_offset.
Qed.

Lemma Pread_ReadSeeker_keeps_offset (p : list byte) (off : Z)
  (s : FsFile.State H) :
  offset (FsFile.handle (snd (FsFile.Pread_ReadSeeker U rd sk p off s)))
    = offset (FsFile.handle s).
Proof.
  unfold FsFile.Pread_ReadSeeker, bind, FsFile.native.
  pose proof (seek_current_reports (FsFile.handle s)) as [Hkeep Hrep].
  destruct (sk 0 FsFile.SeekCurrent (FsFile.handle s)) as [[cur err] h1].
  cbn [fst snd] in *.
  destruct err as [e|]; cbn [is_nil negb]; [exact Hkeep|].
  specialize (Hrep eq_refl). subst cur.
  cbn [FsFile.handle FsFile.self FsFile.log].
  match goal with
  | |- context [let (_, _) := ?inner ?st in _] =>
      destruct (inner st) as [res s3]
  end.
  destruct (sk (offset (FsFile.handle s)) FsFile.SeekStart (FsFile.handle s3))
    as [r4 h4] eqn:E4.
  cbn. pose proof (seek_start_moves (FsFile.handle s3) (FsFile.handle s)) as M.
  rewrite E4 in M. exact M.
Qed.

Lemma Pread_keeps_offset (p : list byte) (off : Z) (s : FsFile.State H) :
  offset (FsFile.handle (snd (FsFile.Pread U fl p off s)))
    = offset (FsFile.handle s).
Proof.
  unfold FsFile.Pread.
  destruct (List.length p =? 0)%nat; [reflexivity|].
  unfold bind.
  pose proof (isDirErrno_keeps_offset s) as Hc.
  destruct (FsFile.isDirErrno fl s) as [e s1]. cbn [snd] in Hc.
  destruct (negb (e =? 0)); [exact Hc|].
  unfold FsFile.AccessMode, gets.
  destruct (FsFile.accessMode (FsFile.self s1) =? O_WRONLY); [exact Hc|].
  rewrite no_ReaderAt, has_Reader, has_Seeker.
  rewrite Pread_ReadSeeker_keeps_offset. exact Hc.
Qed.

Lemma Preads_keep_offset (calls : list (list byte * Z)) (s : FsFile.State H) :
  offset (FsFile.handle (snd (Fixtures.Preads U fl calls s)))
    = offset (FsFile.handle s).
Proof.
  revert s. induction calls as [|[p off] rest IH]; intros s.
  - reflexivity.
  - cbn [Fixtures.Preads]. unfold bind at 1.
    pose proof (Pread_keeps_offset p off s) as H1.
    destruct (FsFile.Pread U fl p off s) as [r s1]. cbn [snd] in H1.
    unfold bind. specialize (IH s1).
    destruct (Fixtures.Preads U fl rest s1) as [rs s2].
    unfold ret. cbn [snd] in *. congruence.
Qed.

(** Where [Read] reads: it either returns without data (empty buffer,
    failed type check, write-only file) or it is the handle's [Read]
    applied to the handle as the type check left it, which is at the
    offset the handle had. *)
Lemma Read_starts_at_offset (p : list byte) (s : FsFile.State H) :
  let h := FsFile.handle_after_check fl s in
  offset h = offset (FsFile.handle s)
  /\ ((exists e, fst (FsFile.Read U fl p s) = (0, e, p))
      \/ (fst (FsFile.Read U fl p s)
            = (let '(n, err, p') := fst (rd p h) in (n, U err, p'))
          /\ FsFile.handle (snd (FsFile.Read U fl p s)) = snd (rd p h))).
Proof.
  cbv zeta. split.
  - unfold FsFile.handle_after_check.
    destruct (FsFile.cachedSt (FsFile.self s)); [reflexivity|].
    apply stat_keeps_offset.
  - unfold FsFile.Read.
    destruct (List.length p =? 0)%nat; [left; eexists; reflexivity|].
    unfold bind.
    pose proof (isDirErrno_frame H fl s) as (_ & _ & Hh & _).
    destruct (FsFile.isDirErrno fl s) as [e s1]. cbn [snd] in Hh.
    destruct (negb (e =? 0)); [left; eexists; reflexivity|].
    unfold FsFile.AccessMode, gets.
    destruct (FsFile.accessMode (FsFile.self s1) =? O_WRONLY);
      [left; eexists; reflexivity|].
    rewrite has_Reader. unfold FsFile.native. rewrite Hh.
    destruct (rd p (FsFile.handle_after_check fl s)) as [[[n err] p'] h'].
    right. split; reflexivity.
Qed.

(** C6.  With a handle that has no positional read but reads and seeks,
    [Pread] leaves the sequential offset of the handle where it was, on
    every path out of it: empty buffer, failed type check, wrong access
    mode, failed seek, failed or successful read.  So after any sequence
    of such calls the handle is at the offset it had before the first, and
    a [Read] that follows, when it reads at all, is the handle's
    sequential read started at that offset. *)
Theorem Pread_sequence_restores_offset (calls : list (list byte * Z))
  (s : FsFile.State H) (p : list byte) :
  let s' := snd (Fixtures.Preads U fl calls s) in
  let h := FsFile.handle_after_check fl s' in
  offset (FsFile.handle s') = offset (FsFile.handle s)
  /\ offset h = offset (FsFile.handle s)
  /\ ((exists e, fst (FsFile.Read U fl p s') = (0, e, p))
      \/ (fst (FsFile.Read U fl p s')
            = (let '(n, err, p') := fst (rd p h) in (n, U err, p'))
          /\ FsFile.handle (snd (FsFile.Read U fl p s')) = snd (rd p h))).
Proof.
  intros s' h.
  pose proof (Preads_keep_offset calls s) as Hseq. fold s' in Hseq.
  pose proof (Read_starts_at_offset p s') as [Hoff Hread]. fold h in Hoff, Hread.
  split; [exact Hseq|]. split; [congruence | exact Hread].
Qed.

End PreadFallback.

(** The in-memory file keeps the contract assumed of a seekable handle. *)
Lemma mem_seek_current_reports (h : Fixtures.MemFile) :
  Fixtures.mem_offset (snd (Fixtures.mem_seek 0 FsFile.SeekCurrent h))
    = Fixtures.mem_offset h
  /\ (snd (fst (Fixtures.mem_seek 0 FsFile.SeekCurrent h)) = None ->
      fst (fst (Fixtures.mem_seek 0 FsFile.SeekCurrent h)) = Fixtures.mem_offset h).
Proof.
  unfold Fixtures.mem_seek, Fixtures.mem_offset.
  change (FsFile.SeekCurrent =? FsFile.SeekStart) with false.
  change (FsFile.SeekCurrent =? FsFile.SeekCurrent) with true.
  cbv iota. rewrite Z.add_0_r.
  destruct (Z.ltb_spec (Z.of_nat (Fixtures.pos h)) 0) as [Hlt|Hge]; [lia|].
  cbn [fst snd Fixtures.set_pos Fixtures.pos]. rewrite Nat2Z.id.
  split; reflexivity.
Qed.

Lemma mem_seek_start_moves (h h0 : Fixtures.MemFile) :
  Fixtures.mem_offset
    (snd (Fixtures.mem_seek (Fixtures.mem_offset h0) FsFile.SeekStart h))
    = Fixtures.mem_offset h0.
Proof.
  unfold Fixtures.mem_seek, Fixtures.mem_offset.
  change (FsFile.SeekStart =? FsFile.SeekStart) with true.
  cbv iota. rewrite Z.add_0_l.
  destruct (Z.ltb_spec (Z.of_nat (Fixtures.pos h0)) 0) as [Hlt|Hge]; [lia|].
  cbn [fst snd Fixtures.set_pos Fixtures.pos]. rewrite Nat2Z.id.
  reflexivity.
Qed.

(** A 20-byte file read up to offset 3, then three positional reads at
    10, 0 and 10, then a sequential read of two bytes. *)
Lemma Pread_sequence_restores_offset_witness :
  FsFile.file_ReaderAt Fixtures.seekOnly = None
  /\ FsFile.file_Reader Fixtures.seekOnly = Some Fixtures.mem_read
  /\ FsFile.file_Seeker Fixtures.seekOnly = Some Fixtures.mem_seek
  /\ Fixtures.mem_offset
       (FsFile.handle
          (snd (Fixtures.Preads Fixtures.UnwrapOSError Fixtures.seekOnly
                  [([x00], 10); ([x00], 0); ([x00], 10)] Fixtures.midway)))
     = Fixtures.mem_offset (FsFile.handle Fixtures.midway).
Proof.
  split; [reflexivity|]. split; [reflexivity|]. split; [reflexivity|].
  apply (Pread_sequence_restores_offset Fixtures.MemFile Fixtures.UnwrapOSError
           Fixtures.seekOnly Fixtures.mem_read Fixtures.mem_seek
           eq_refl eq_refl eq_refl Fixtures.mem_offset
           (fun h => eq_refl) mem_seek_current_reports mem_seek_start_moves
           [([x00], 10); ([x00], 0); ([x00], 10)] Fixtures.midway [x00; x00]).
Defined.

(** The scenario of the tests: the three positional reads return the bytes
    at 10, 0 and 10, and the sequential read that follows returns the
    bytes at 3 and 4. *)
Example Pread_then_Read_continues :
  let s0 := Fixtures.midway in
  let '(rs, s1) := Fixtures.Preads Fixtures.UnwrapOSError Fixtures.seekOnly
                     [([x00], 10); ([x00], 0); ([x00], 10)] s0 in
  rs = [(1, 0, Fixtures.bytes "k"); (1, 0, Fixtures.bytes "a");
        (1, 0, Fixtures.bytes "k")]
  /\ fst (FsFile.Read Fixtures.UnwrapOSError Fixtures.seekOnly [x00; x00] s1)
     = (2, 0, Fixtures.bytes "de")
  /\ fst (FsFile.Read Fixtures.UnwrapOSError Fixtures.seekOnly [x00; x00] s0)
     = (2, 0, Fixtures.bytes "de").
Proof. vm_compute. repeat split. Qed.

(** The error paths: a seek that is refused (negative offset) and a read
    that fails (offset 5 is faulty) both leave the handle at offset 3. *)
Example Pread_errors_restore_offset :
  let h0 := Fixtures.mkMem (Fixtures.bytes "abcdefghijklmnopqrst") 3 420
              (fun o => Nat.eqb o 5) in
  let s0 := FsFile.mkState (FsFile.NewFsFile "f" O_RDONLY) h0 [] in
  let r1 := FsFile.Pread Fixtures.UnwrapOSError Fixtures.seekOnly [x00] (-1) s0 in
  let r2 := FsFile.Pread Fixtures.UnwrapOSError Fixtures.seekOnly [x00] 5 s0 in
  fst r1 = (0, EINVAL, [x00]) /\ Fixtures.pos (FsFile.handle (snd r1)) = 3%nat
  /\ fst r2 = (0, EIO, [x00]) /\ Fixtures.pos (FsFile.handle (snd r2)) = 3%nat
  /\ FsFile.log (snd r2)
     = [FsFile.NStat; FsFile.NSeek 0 FsFile.SeekCurrent;
        FsFile.NSeek 5 FsFile.SeekStart; FsFile.NRead 1;
        FsFile.NSeek 3 FsFile.SeekStart].
Proof. vm_compute. repeat split. Qed.

(** ** The read-only file decorator *)

Section ReadFileFacts.

Context {F : Type} `{File F}.

(** C4, as the code has it.  Every mutating method of [readFile] fails.
    [Write], [Pwrite] and [Truncate] ask the wrapped file for its type:
    they return the errno of [IsDir] when that is not zero, EISDIR when it
    is a directory and EBADF otherwise.  [Chmod], [Chown] and [Utimens]
    return EBADF without a look at the type and without a call on the
    wrapped file. *)
Theorem readFile_mutators_fail (r : ReadFile.readFile F) (p : list byte)
  (off size uid gid : Z) (mode : FileMode) (times : option (Z * Z)) :
  ReadFile.writeErr r =
    (let '((isDir, errno), f') := File_IsDir (ReadFile.f r) in
     (if negb (errno =? 0) then errno else if isDir then EISDIR else EBADF,
      ReadFile.mkReadFile f'))
  /\ fst (ReadFile.writeErr r) <> 0
  /\ ReadFile.Write p r = (let (e, r') := ReadFile.writeErr r in ((0, e), r'))
  /\ ReadFile.Pwrite p off r = (let (e, r') := ReadFile.writeErr r in ((0, e), r'))
  /\ ReadFile.Truncate size r = ReadFile.writeErr r
  /\ ReadFile.Chmod mode r = (EBADF, r)
  /\ ReadFile.Chown uid gid r = (EBADF, r)
  /\ ReadFile.Utimens times r = (EBADF, r)
  /\ EBADF <> 0.
Proof.
  assert (E : ReadFile.writeErr r =
    (let '((isDir, errno), f') := File_IsDir (ReadFile.f r) in
     (if negb (errno =? 0) then errno else if isDir then EISDIR else EBADF,
      ReadFile.mkReadFile f'))).
  { unfold ReadFile.writeErr, ReadFile.IsDir, ReadFile.on_f, bind.
    destruct (File_IsDir (ReadFile.f r)) as [[isDir errno] f'].
    destruct (negb (errno =? 0)); [reflexivity|].
    destruct isDir; reflexivity. }
  split; [exact E|]. split.
  - rewrite E. destruct (File_IsDir (ReadFile.f r)) as [[isDir errno] f'].
    cbn [fst]. destruct (Z.eqb_spec errno 0) as [->|Hne]; cbn [negb].
    + destruct isDir; discriminate.
    + exact Hne.
  - repeat split; try reflexivity. discriminate.
Qed.

End ReadFileFacts.

(** C4 fails as stated: over a directory, for which [Write] reports
    EISDIR, [Chmod], [Chown] and [Utimens] report EBADF. *)
Lemma readFile_Chmod_directory_counterexample :
  fst (@ReadFile.IsDir _ Fixtures.osImpl Fixtures.readOnlyDir) = (true, 0)
  /\ fst (@ReadFile.Write _ Fixtures.osImpl [x00] Fixtures.readOnlyDir) = (0, EISDIR)
  /\ fst (ReadFile.Chmod 420 Fixtures.readOnlyDir) = EBADF
  /\ fst (ReadFile.Chown 0 0 Fixtures.readOnlyDir) = EBADF
  /\ fst (ReadFile.Utimens None Fixtures.readOnlyDir) = EBADF
  /\ EBADF <> EISDIR.
Proof.
  repeat split; discriminate.
Qed.

(** ** The Windows quirk layer *)

Section WindowsFacts.

Variables Hd N FileInfo DirEntry : Type.
Variable sys : WindowsWrappedFile.OS Hd N FileInfo DirEntry.

Local Abbreviation State := (WindowsWrappedFile.State Hd N).
Local Abbreviation self := WindowsWrappedFile.self.
Local Abbreviation statFile := (WindowsWrappedFile.os_statFile _ _ _ _ sys).

(** [getFileType] never returns an error, and what it does depends on the
    cache and on the native stat only. *)
Lemma getFileType_cases (s : State) :
  WindowsWrappedFile.getFileType sys s =
    match WindowsWrappedFile.fileType (self s) with
    | Some ft => ((ft, None), s)
    | None =>
        let h := WindowsWrappedFile.osFile (self s) in
        let '((st, errno), n) := statFile h (WindowsWrappedFile.os s) in
        let l := WindowsWrappedFile.log s ++ [WindowsWrappedFile.OSStat h] in
        if negb (errno =? 0) then
          ((0, None), WindowsWrappedFile.mkState (self s) n l)
        else
          let ft := Z.land (st_Mode st) ModeType in
          ((ft, None),
           WindowsWrappedFile.mkState
             (WindowsWrappedFile.set_fileType _ (Some ft) (self s)) n l)
    end.
Proof.
  unfold WindowsWrappedFile.getFileType, WindowsWrappedFile.this, bind, gets.
  destruct (WindowsWrappedFile.fileType (self s)); [reflexivity|].
  unfold WindowsWrappedFile.syscall.
  destruct (statFile _ _) as [[st errno] n].
  destruct (negb (errno =? 0)); reflexivity.
Qed.

(** [getFileType] and [requireFile] change the cached type only, and log
    at most a stat. *)
Lemma getFileType_frame (s : State) :
  let s' := snd (WindowsWrappedFile.getFileType sys s) in
  (exists ft, self s' = WindowsWrappedFile.set_fileType _ ft (self s))
  /\ (exists l, WindowsWrappedFile.log s' = WindowsWrappedFile.log s ++ l
                /\ filter WindowsWrappedFile.is_reopen l = []).
Proof.
  rewrite getFileType_cases.
  destruct (WindowsWrappedFile.fileType (self s)) as [ft|] eqn:E.
  - cbn. split.
    + exists (Some ft). destruct s as [[]]; cbn in *. subst. reflexivity.
    + exists []. rewrite app_nil_r. auto.
  - cbv zeta. destruct (statFile _ _) as [[st errno] m].
    destruct (negb (errno =? 0)); cbn; split.
    + exists None. destruct s as [[]]; cbn in *. subst. reflexivity.
    + eexists. split; reflexivity.
    + eexists. reflexivity.
    + eexists. split; reflexivity.
Qed.

Lemma requireFile_frame (s s1 : State) (op : string) (readOnly isDir : bool)
  (e : error) :
  WindowsWrappedFile.requireFile sys op readOnly isDir s = (e, s1) ->
  (exists ft, self s1 = WindowsWrappedFile.set_fileType _ ft (self s))
  /\ (exists l, WindowsWrappedFile.log s1 = WindowsWrappedFile.log s ++ l
                /\ filter WindowsWrappedFile.is_reopen l = []).
Proof.
  assert (Same : (exists ft, self s = WindowsWrappedFile.set_fileType _ ft (self s))
    /\ (exists l, WindowsWrappedFile.log s = WindowsWrappedFile.log s ++ l
                /\ filter WindowsWrappedFile.is_reopen l = [])).
  { split.
    - exists (WindowsWrappedFile.fileType (self s)). destruct s as [[]]; reflexivity.
    - exists []. rewrite app_nil_r. auto. }
  unfold WindowsWrappedFile.requireFile, WindowsWrappedFile.this, gets.
  unfold bind at 1.
  destruct (WindowsWrappedFile.closed (self s)).
  { intros E; inversion E; subst; exact Same. }
  destruct (readOnly && _).
  { intros E; inversion E; subst; exact Same. }
  unfold bind. pose proof (getFileType_frame s) as Fr.
  destruct (WindowsWrappedFile.getFileType sys s) as [[ft err] s2].
  cbn [snd] in Fr.
  destruct (is_nil err && _).
  - destruct isDir; intros E; inversion E; subst; exact Fr.
  - destruct err; intros E; inversion E; subst; exact Fr.
Qed.

(** An open directory passes the check of a directory-only operation. *)
Lemma requireFile_directory (s : State) (op : string) :
  WindowsWrappedFile.closed (self s) = false ->
  FileMode_IsDir (fst (fst (WindowsWrappedFile.getFileType sys s))) = true ->
  WindowsWrappedFile.requireFile sys op false true s
    = (None, snd (WindowsWrappedFile.getFileType sys s)).
Proof.
  intros Hopen Hdir.
  unfold WindowsWrappedFile.requireFile, WindowsWrappedFile.this, gets.
  unfold bind at 1. rewrite Hopen. cbn [andb]. unfold bind.
  pose proof (getFileType_cases s) as C.
  destruct (WindowsWrappedFile.getFileType sys s) as [[ft err] s1].
  cbn [fst snd] in *. rewrite Hdir.
  assert (err = None) as ->.
  { destruct (WindowsWrappedFile.fileType (self s)); [congruence|].
    cbv zeta in C. destruct (statFile _ _) as [[st e] m].
    destruct (negb (e =? 0)); congruence. }
  reflexivity.
Qed.

Lemma maybeInitDir_initialized (s : State) :
  WindowsWrappedFile.dirInitialized (self s) = true ->
  WindowsWrappedFile.maybeInitDir sys s = (None, s).
Proof.
  intros E. unfold WindowsWrappedFile.maybeInitDir, WindowsWrappedFile.this,
    bind, gets. rewrite E. reflexivity.
Qed.

(** With the flag set, [Readdir] and [ReadDir] are the check followed by
    the native call. *)
Lemma Readdir_initialized (s : State) (n : Z) :
  WindowsWrappedFile.dirInitialized (self s) = true ->
  WindowsWrappedFile.Readdir sys n s =
    (let (e, s1) := WindowsWrappedFile.requireFile sys "Readdir" false true s in
     if negb (is_nil e) then (([], e), s1)
     else
       let h := WindowsWrappedFile.osFile (self s1) in
       WindowsWrappedFile.syscall _ _ (WindowsWrappedFile.OSReaddir h n)
         (WindowsWrappedFile.os_Readdir _ _ _ _ sys h n) s1).
Proof.
  intros Hinit. unfold WindowsWrappedFile.Readdir. unfold bind at 1.
  destruct (WindowsWrappedFile.requireFile sys "Readdir" false true s)
    as [e s1] eqn:E.
  destruct (requireFile_frame _ _ _ _ _ _ E) as [[ft Hs] _].
  destruct e; cbn [is_nil negb]; [reflexivity|].
  unfold bind at 1. rewrite maybeInitDir_initialized by (rewrite Hs; exact Hinit).
  reflexivity.
Qed.

Lemma ReadDir_initialized (s : State) (n : Z) :
  WindowsWrappedFile.dirInitialized (self s) = true ->
  WindowsWrappedFile.ReadDir sys n s =
    (let (e, s1) := WindowsWrappedFile.requireFile sys "ReadDir" false true s in
     if negb (is_nil e) then (([], e), s1)
     else
       let h := WindowsWrappedFile.osFile (self s1) in
       WindowsWrappedFile.syscall _ _ (WindowsWrappedFile.OSReadDir h n)
         (WindowsWrappedFile.os_ReadDir _ _ _ _ sys h n) s1).
Proof.
  intros Hinit. unfold WindowsWrappedFile.ReadDir. unfold bind at 1.
  destruct (WindowsWrappedFile.requireFile sys "ReadDir" false true s)
    as [e s1] eqn:E.
  destruct (requireFile_frame _ _ _ _ _ _ E) as [[ft Hs] _].
  destruct e; cbn [is_nil negb]; [reflexivity|].
  unfold bind at 1. rewrite maybeInitDir_initialized by (rewrite Hs; exact Hinit).
  reflexivity.
Qed.

(** Once the flag is set, an enumeration call neither closes nor opens a
    native handle, keeps the handle it has and keeps the flag. *)
Lemma enumerate_initialized (s : State) (c : WindowsWrappedFile.EnumCall) :
  WindowsWrappedFile.dirInitialized (self s) = true ->
  let s' := snd (WindowsWrappedFile.enumerate sys c s) in
  WindowsWrappedFile.dirInitialized (self s') = true
  /\ WindowsWrappedFile.osFile (self s') = WindowsWrappedFile.osFile (self s)
  /\ filter WindowsWrappedFile.is_reopen (WindowsWrappedFile.log s')
     = filter WindowsWrappedFile.is_reopen (WindowsWrappedFile.log s).
Proof.
  intros Hinit.
  assert (Step : forall (op : string) (s1 : State) (e : error),
    WindowsWrappedFile.requireFile sys op false true s = (e, s1) ->
    WindowsWrappedFile.dirInitialized (self s1) = true
    /\ WindowsWrappedFile.osFile (self s1) = WindowsWrappedFile.osFile (self s)
    /\ filter WindowsWrappedFile.is_reopen (WindowsWrappedFile.log s1)
       = filter WindowsWrappedFile.is_reopen (WindowsWrappedFile.log s)).
  { intros op s1 e E.
    destruct (requireFile_frame s s1 op false true e E) as [[ft Hs] [l [Hl Hf]]].
    rewrite Hs, Hl, filter_app, Hf, app_nil_r. cbn. auto. }
  destruct c as [n|n]; cbv zeta; cbn [WindowsWrappedFile.enumerate]; unfold bind.
  - rewrite (Readdir_initialized s n Hinit).
    destruct (WindowsWrappedFile.requireFile sys "Readdir" false true s)
      as [e s1] eqn:E.
    destruct (Step _ s1 e E) as (I1 & O1 & L1).
    destruct e; cbn [is_nil negb]; [cbn; auto|].
    unfold WindowsWrappedFile.syscall.
    destruct (WindowsWrappedFile.os_Readdir _ _ _ _ sys _ n _) as [[r err] m].
    cbn. rewrite filter_app. cbn. rewrite app_nil_r. auto.
  - rewrite (ReadDir_initialized s n Hinit).
    destruct (WindowsWrappedFile.requireFile sys "ReadDir" false true s)
      as [e s1] eqn:E.
    destruct (Step _ s1 e E) as (I1 & O1 & L1).
    destruct e; cbn [is_nil negb]; [cbn; auto|].
    unfold WindowsWrappedFile.syscall.
    destruct (WindowsWrappedFile.os_ReadDir _ _ _ _ sys _ n _) as [[r err] m].
    cbn. rewrite filter_app. cbn. rewrite app_nil_r. auto.
Qed.

Lemma enumerations_initialized (cs : list WindowsWrappedFile.EnumCall) (s : State) :
  WindowsWrappedFile.dirInitialized (self s) = true ->
  let s' := snd (WindowsWrappedFile.enumerations sys cs s) in
  WindowsWrappedFile.dirInitialized (self s') = true
  /\ WindowsWrappedFile.osFile (self s') = WindowsWrappedFile.osFile (self s)
  /\ filter WindowsWrappedFile.is_reopen (WindowsWrappedFile.log s')
     = filter WindowsWrappedFile.is_reopen (WindowsWrappedFile.log s).
Proof.
  revert s. induction cs as [|c rest IH]; intros s Hinit.
  - cbn. auto.
  - cbv zeta. cbn [WindowsWrappedFile.enumerations]. unfold bind, ret.
    pose proof (enumerate_initialized s c Hinit) as (I1 & O1 & L1).
    destruct (WindowsWrappedFile.enumerate sys c s) as [e s1].
    cbn [snd] in I1, O1, L1.
    specialize (IH s1 I1). cbv zeta in IH.
    destruct (WindowsWrappedFile.enumerations sys rest s1) as [es s2].
    cbn [snd] in *.
    destruct IH as (I2 & O2 & L2). repeat split; congruence.
Qed.

(** The first pass through [maybeInitDir]: close, then open again with the
    path, flag and permission the wrapper holds. *)
Lemma maybeInitDir_reopens (s : State) (newH : Hd) :
  WindowsWrappedFile.dirInitialized (self s) = false ->
  let w := self s in
  let h := WindowsWrappedFile.osFile w in
  let closing := WindowsWrappedFile.os_Close _ _ _ _ sys h (WindowsWrappedFile.os s) in
  let opening := WindowsWrappedFile.os_openFile _ _ _ _ sys
                   (WindowsWrappedFile.path w) (WindowsWrappedFile.flag w)
                   (WindowsWrappedFile.perm w) (snd closing) in
  fst closing = None ->
  fst opening = (newH, 0) ->
  WindowsWrappedFile.maybeInitDir sys s =
    (None,
     WindowsWrappedFile.mkState
       (WindowsWrappedFile.set_dirInitialized _ true
          (WindowsWrappedFile.set_osFile _ newH w))
       (snd opening)
       (WindowsWrappedFile.log s
          ++ [WindowsWrappedFile.OSClose h;
              WindowsWrappedFile.OSOpenFile (WindowsWrappedFile.path w)
                (WindowsWrappedFile.flag w) (WindowsWrappedFile.perm w)])).
Proof.
  intros Hinit w h closing opening Hclose Hopen.
  subst opening. destruct closing as [cerr n2] eqn:Ec. subst closing w h.
  cbn [fst snd] in *. subst cerr.
  destruct (WindowsWrappedFile.os_openFile _ _ _ _ sys _ _ _ n2)
    as [[h' e'] n3] eqn:Eo.
  cbn [fst snd] in *. inversion Hopen; subst h' e'.
  unfold WindowsWrappedFile.maybeInitDir, WindowsWrappedFile.this, gets,
    bind, WindowsWrappedFile.syscall.
  rewrite Hinit, Ec. cbn [is_nil negb WindowsWrappedFile.os
                           WindowsWrappedFile.self WindowsWrappedFile.log].
  rewrite Eo. cbn. rewrite <- app_assoc. reflexivity.
Qed.

(** The state in which the first enumeration reaches its native call:
    the type is known, the handle is the reopened one and the flag is
    set. *)
Lemma first_pass (s : State) (newH : Hd) (op : string) :
  WindowsWrappedFile.closed (self s) = false ->
  WindowsWrappedFile.dirInitialized (self s) = false ->
  FileMode_IsDir (fst (fst (WindowsWrappedFile.getFileType sys s))) = true ->
  let w := self s in
  let h := WindowsWrappedFile.osFile w in
  let s1 := snd (WindowsWrappedFile.getFileType sys s) in
  let closing := WindowsWrappedFile.os_Close _ _ _ _ sys h (WindowsWrappedFile.os s1) in
  let opening := WindowsWrappedFile.os_openFile _ _ _ _ sys
                   (WindowsWrappedFile.path w) (WindowsWrappedFile.flag w)
                   (WindowsWrappedFile.perm w) (snd closing) in
  fst closing = None ->
  fst opening = (newH, 0) ->
  bind (WindowsWrappedFile.requireFile sys op false true)
       (fun err => if negb (is_nil err) then ret err
                   else WindowsWrappedFile.maybeInitDir sys) s
  = (None,
     WindowsWrappedFile.mkState
       (WindowsWrappedFile.set_dirInitialized _ true
          (WindowsWrappedFile.set_osFile _ newH (self s1)))
       (snd opening)
       (WindowsWrappedFile.log s1
          ++ [WindowsWrappedFile.OSClose h;
              WindowsWrappedFile.OSOpenFile (WindowsWrappedFile.path w)
                (WindowsWrappedFile.flag w) (WindowsWrappedFile.perm w)])).
Proof.
  intros Hopen Hinit Hdir w h s1 closing opening Hclose Hreopen.
  destruct (getFileType_frame s) as [[ft Hs1] _]. fold s1 in Hs1.
  assert (Hw1 : WindowsWrappedFile.dirInitialized (self s1) = false
                /\ WindowsWrappedFile.osFile (self s1) = h
                /\ WindowsWrappedFile.path (self s1) = WindowsWrappedFile.path w
                /\ WindowsWrappedFile.flag (self s1) = WindowsWrappedFile.flag w
                /\ WindowsWrappedFile.perm (self s1) = WindowsWrappedFile.perm w).
  { rewrite Hs1. cbn. auto. }
  destruct Hw1 as (I1 & O1 & P1 & F1 & M1).
  pose proof (maybeInitDir_reopens s1 newH I1) as Init.
  cbv zeta in Init. rewrite O1, P1, F1, M1 in Init.
  specialize (Init Hclose Hreopen).
  unfold bind. rewrite (requireFile_directory s op Hopen Hdir). fold s1.
  cbn [is_nil negb]. exact Init.
Qed.

(** C8.  Take a wrapper that is open and has not enumerated yet, over a
    handle that is a directory, and let the native close and the reopen
    succeed.  The first enumeration call, [Readdir] or [ReadDir], closes
    the native handle, opens the wrapper's path again with the wrapper's
    flag and permission, and enumerates on the handle that open returned;
    the flag is then set.  No enumeration call after it closes or opens a
    native handle again: they all run on the reopened handle. *)
Theorem first_enumeration_reopens_once (s : State)
  (c : WindowsWrappedFile.EnumCall) (newH : Hd)
  (cs : list WindowsWrappedFile.EnumCall) :
  WindowsWrappedFile.closed (self s) = false ->
  WindowsWrappedFile.dirInitialized (self s) = false ->
  FileMode_IsDir (fst (fst (WindowsWrappedFile.getFileType sys s))) = true ->
  let w := self s in
  let h := WindowsWrappedFile.osFile w in
  let s1 := snd (WindowsWrappedFile.getFileType sys s) in
  let closing := WindowsWrappedFile.os_Close _ _ _ _ sys h (WindowsWrappedFile.os s1) in
  fst closing = None ->
  fst (WindowsWrappedFile.os_openFile _ _ _ _ sys
         (WindowsWrappedFile.path w) (WindowsWrappedFile.flag w)
         (WindowsWrappedFile.perm w) (snd closing)) = (newH, 0) ->
  let s2 := snd (WindowsWrappedFile.enumerate sys c s) in
  WindowsWrappedFile.log s2
    = WindowsWrappedFile.log s1
        ++ [WindowsWrappedFile.OSClose h;
            WindowsWrappedFile.OSOpenFile (WindowsWrappedFile.path w)
              (WindowsWrappedFile.flag w) (WindowsWrappedFile.perm w);
            WindowsWrappedFile.enum_event newH c]
  /\ WindowsWrappedFile.osFile (self s2) = newH
  /\ WindowsWrappedFile.dirInitialized (self s2) = true
  /\ (let s3 := snd (WindowsWrappedFile.enumerations sys cs s2) in
      filter WindowsWrappedFile.is_reopen (WindowsWrappedFile.log s3)
        = filter WindowsWrappedFile.is_reopen (WindowsWrappedFile.log s2)
      /\ WindowsWrappedFile.osFile (self s3) = newH
      /\ WindowsWrappedFile.dirInitialized (self s3) = true).
Proof.
  intros Hopen Hinit Hdir w h s1 closing Hclose Hreopen s2.
  assert (First :
    WindowsWrappedFile.log s2
      = WindowsWrappedFile.log s1
          ++ [WindowsWrappedFile.OSClose h;
              WindowsWrappedFile.OSOpenFile (WindowsWrappedFile.path w)
                (WindowsWrappedFile.flag w) (WindowsWrappedFile.perm w);
              WindowsWrappedFile.enum_event newH c]
    /\ WindowsWrappedFile.osFile (self s2) = newH
    /\ WindowsWrappedFile.dirInitialized (self s2) = true).
  { assert (E : exists r m,
      WindowsWrappedFile.enumerate sys c s =
      (r, WindowsWrappedFile.mkState
            (WindowsWrappedFile.set_dirInitialized _ true
               (WindowsWrappedFile.set_osFile _ newH (self s1)))
            m
            ((WindowsWrappedFile.log s1
                ++ [WindowsWrappedFile.OSClose h;
                    WindowsWrappedFile.OSOpenFile (WindowsWrappedFile.path w)
                      (WindowsWrappedFile.flag w) (WindowsWrappedFile.perm w)])
               ++ [WindowsWrappedFile.enum_event newH c]))).
    { pose proof (first_pass s newH) as P. cbv zeta in P.
      destruct c as [n|n]; cbn [WindowsWrappedFile.enumerate];
        [ specialize (P "Readdir"%string Hopen Hinit Hdir Hclose Hreopen)
        | specialize (P "ReadDir"%string Hopen Hinit Hdir Hclose Hreopen) ];
        unfold WindowsWrappedFile.Readdir, WindowsWrappedFile.ReadDir;
        unfold bind in *;
        destruct (WindowsWrappedFile.requireFile sys _ false true s)
          as [e1 t1];
        (destruct e1 as [e1|]; cbn [is_nil negb] in *; [discriminate P|]);
        rewrite P; cbn [is_nil negb];
        unfold WindowsWrappedFile.this, gets, WindowsWrappedFile.syscall;
        cbn [WindowsWrappedFile.self WindowsWrappedFile.os
             WindowsWrappedFile.log WindowsWrappedFile.osFile
             WindowsWrappedFile.set_dirInitialized WindowsWrappedFile.set_osFile];
        match goal with
        | |- context [WindowsWrappedFile.os_Readdir _ _ _ _ sys ?a ?b ?o] =>
            destruct (WindowsWrappedFile.os_Readdir _ _ _ _ sys a b o)
              as [[r err] m]
        | |- context [WindowsWrappedFile.os_ReadDir _ _ _ _ sys ?a ?b ?o] =>
            destruct (WindowsWrappedFile.os_ReadDir _ _ _ _ sys a b o)
              as [[r err] m]
        end;
        do 2 eexists; reflexivity. }
    destruct E as (r & m & E). subst s2. rewrite E. cbn.
    rewrite <- app_assoc. auto. }
  destruct First as (L2 & O2 & I2).
  split; [exact L2|]. split; [exact O2|]. split; [exact I2|].
  pose proof (enumerations_initialized cs s2 I2) as (I3 & O3 & L3).
  cbv zeta. repeat split; congruence.
Qed.

(** C10.  When the handle's type is not cached and the native stat fails,
    [getFileType] returns file type zero and no error and leaves the cache
    empty.  [requireFile] then takes the handle for a file that is not a
    directory: it rejects a directory-only operation with ENOTDIR and lets
    a file-only operation pass, and [Readdir] fails with ENOTDIR; the
    errno of the failed stat reaches no caller. *)
Theorem getFileType_swallows_stat_failure (s : State) (op : string) (n : Z) :
  WindowsWrappedFile.fileType (self s) = None ->
  WindowsWrappedFile.closed (self s) = false ->
  snd (fst (statFile (WindowsWrappedFile.osFile (self s))
                     (WindowsWrappedFile.os s))) <> 0 ->
  let h := WindowsWrappedFile.osFile (self s) in
  let s' := WindowsWrappedFile.mkState (self s)
              (snd (statFile h (WindowsWrappedFile.os s)))
              (WindowsWrappedFile.log s ++ [WindowsWrappedFile.OSStat h]) in
  let p := WindowsWrappedFile.path (self s) in
  WindowsWrappedFile.getFileType sys s = ((0, None), s')
  /\ FileMode_IsDir 0 = false
  /\ WindowsWrappedFile.requireFile sys op false true s
       = (Some (ErrPath op p (ErrErrno ENOTDIR)), s')
  /\ WindowsWrappedFile.requireFile sys op false false s = (None, s')
  /\ WindowsWrappedFile.Readdir sys n s
       = (([], Some (ErrPath "Readdir" p (ErrErrno ENOTDIR))), s').
Proof.
  intros Hnone Hopen Hfail h s' p.
  assert (G : WindowsWrappedFile.getFileType sys s = ((0, None), s')).
  { rewrite getFileType_cases, Hnone. subst s' h. cbv zeta.
    destruct (statFile _ _) as [[st errno] m]. cbn [fst snd] in *.
    destruct (Z.eqb_spec errno 0); [contradiction|]. reflexivity. }
  assert (R : forall o isDir,
             WindowsWrappedFile.requireFile sys o false isDir s =
             (if isDir then Some (ErrPath o p (ErrErrno ENOTDIR)) else None, s')).
  { intros o isDir.
    unfold WindowsWrappedFile.requireFile, WindowsWrappedFile.this, gets.
    unfold bind at 1. rewrite Hopen. cbn [andb].
    unfold bind. rewrite G. destruct isDir; reflexivity. }
  split; [exact G|]. split; [reflexivity|].
  split; [exact (R op true)|]. split; [exact (R op false)|].
  unfold WindowsWrappedFile.Readdir. unfold bind at 1.
  rewrite (R "Readdir"%string true). reflexivity.
Qed.

End WindowsFacts.

(** On a directory whose stat fails, [Readdir] says "not a directory". *)
Lemma getFileType_swallows_stat_failure_witness :
  WindowsWrappedFile.getFileType Fixtures.winOS (Fixtures.winState Fixtures.blindOS)
    = ((0, None),
       WindowsWrappedFile.mkState Fixtures.wrapped0 Fixtures.blindOS
         [WindowsWrappedFile.OSStat 0%nat])
  /\ WindowsWrappedFile.Readdir Fixtures.winOS 0 (Fixtures.winState Fixtures.blindOS)
     = (([], Some (ErrPath "Readdir" "dir" (ErrErrno ENOTDIR))),
        WindowsWrappedFile.mkState Fixtures.wrapped0 Fixtures.blindOS
          [WindowsWrappedFile.OSStat 0%nat]).
Proof.
  pose proof (getFileType_swallows_stat_failure _ _ _ _ Fixtures.winOS
                (Fixtures.winState Fixtures.blindOS) "Readdir" 0
                eq_refl eq_refl) as T.
  cbv zeta in T.
  assert (Hfail : snd (fst (Fixtures.win_stat 0%nat Fixtures.blindOS)) <> 0)
    by discriminate.
  destruct (T Hfail) as (G & _ & _ & _ & R).
  split; [exact G | exact R].
Defined.

(** A directory handle: the first [Readdir] reopens, the two calls after
    it do not. *)
Lemma first_enumeration_reopens_once_witness :
  WindowsWrappedFile.log
    (snd (WindowsWrappedFile.enumerate Fixtures.winOS
            (WindowsWrappedFile.CallReaddir 0) (Fixtures.winState Fixtures.dirOS)))
  = [WindowsWrappedFile.OSStat 0%nat; WindowsWrappedFile.OSClose 0%nat;
     WindowsWrappedFile.OSOpenFile "dir" O_RDONLY 0;
     WindowsWrappedFile.OSReaddir 1%nat 0]
  /\ filter WindowsWrappedFile.is_reopen
       (WindowsWrappedFile.log
          (snd (WindowsWrappedFile.enumerations Fixtures.winOS
                  [WindowsWrappedFile.CallReaddir 0; WindowsWrappedFile.CallReadDir 2]
                  (snd (WindowsWrappedFile.enumerate Fixtures.winOS
                          (WindowsWrappedFile.CallReaddir 0)
                          (Fixtures.winState Fixtures.dirOS))))))
     = [WindowsWrappedFile.OSClose 0%nat;
        WindowsWrappedFile.OSOpenFile "dir" O_RDONLY 0].
Proof.
  pose proof (first_enumeration_reopens_once _ _ _ _ Fixtures.winOS
                (Fixtures.winState Fixtures.dirOS)
                (WindowsWrappedFile.CallReaddir 0) 1%nat
                [WindowsWrappedFile.CallReaddir 0; WindowsWrappedFile.CallReadDir 2]
                eq_refl eq_refl eq_refl eq_refl eq_refl) as (L & _ & _ & L3 & _).
  split.
  - exact L.
  - rewrite L3, L. reflexivity.
Defined.

(** When the reopen fails the flag stays unset, and the next enumeration
    call goes through the close again. *)
Example reopen_is_retried_after_a_failure :
  let o := Fixtures.mkWinOS [0%nat] 1 [] true true false in
  let r1 := WindowsWrappedFile.Readdir Fixtures.winOS 0 (Fixtures.winState o) in
  let r2 := WindowsWrappedFile.Readdir Fixtures.winOS 0 (snd r1) in
  snd (fst r1) = Some (ErrPath "OpenFile" "dir" (ErrErrno 2))
  /\ WindowsWrappedFile.dirInitialized (WindowsWrappedFile.self (snd r1)) = false
  /\ WindowsWrappedFile.log (snd r2)
     = [WindowsWrappedFile.OSStat 0%nat; WindowsWrappedFile.OSClose 0%nat;
        WindowsWrappedFile.OSOpenFile "dir" O_RDONLY 0;
        WindowsWrappedFile.OSClose 0%nat].
Proof. vm_compute. repeat split. Qed.

(** ** The generic-namespace adapter *)

Lemma copy_elem_length (rest out : list ascii) :
  (List.length (snd (Path.copy_elem rest out)) <= List.length rest)%nat.
Proof.
  revert out. induction rest as [|c tl IH]; intros out; cbn; [lia|].
  destruct (Path.is_slash c); cbn; [lia|].
  specialize (IH (c :: out)). lia.
Qed.

(** The loop of [Clean] ends by exhausting [rest], not [fuel]: any fuel of
    at least the length of [rest] gives the same output. *)
Lemma clean_loop_fuel (fuel1 fuel2 : nat) (rooted : bool)
  (rest out : list ascii) (dotdot : nat) :
  (List.length rest <= fuel1)%nat ->
  (List.length rest <= fuel2)%nat ->
  Path.clean_loop fuel1 rooted rest out dotdot
    = Path.clean_loop fuel2 rooted rest out dotdot.
Proof.
  revert fuel2 rest out dotdot.
  induction fuel1 as [|f1 IH]; intros fuel2 rest out dotdot H1 H2.
  - destruct rest; [|cbn in H1; lia]. destruct fuel2; reflexivity.
  - destruct rest as [|c tl]; [destruct fuel2; reflexivity|].
    destruct fuel2 as [|f2]; [cbn in H2; lia|].
    cbn [List.length] in H1, H2.
    assert (Htl : (List.length (List.tl tl) <= List.length tl)%nat)
      by (destruct tl; cbn; lia).
    cbn [Path.clean_loop].
    destruct (Path.is_slash c) eqn:Ec; [apply IH; lia|].
    destruct (Path.is_dot c && Path.end_or_slash tl); [apply IH; lia|].
    destruct (Path.is_dot c && Path.head_is_dot tl
              && Path.end_or_slash (List.tl tl)).
    + destruct (dotdot <? List.length out)%nat; [apply IH; lia|].
      destruct (negb rooted); apply IH; lia.
    + cbn [Path.copy_elem]. rewrite Ec.
      match goal with
      | |- context [Path.copy_elem tl ?o] =>
          pose proof (copy_elem_length tl o) as Hlen;
          destruct (Path.copy_elem tl o) as [out2 rest']
      end.
      cbn [snd] in Hlen. apply IH; lia.
Qed.

Lemma list_ascii_app (a b : string) :
  list_ascii_of_string (a ++ b) = (list_ascii_of_string a ++ list_ascii_of_string b)%list.
Proof. induction a as [|c a IH]; cbn; [reflexivity | now rewrite IH]. Qed.

Lemma string_length_list (a : string) :
  String.length a = List.length (list_ascii_of_string a).
Proof. induction a as [|c a IH]; cbn; [reflexivity | now rewrite IH]. Qed.

Lemma copy_elem_app (a r out : list ascii) :
  Path.copy_elem (a ++ "/"%char :: r) out
    = (fst (Path.copy_elem a out), (snd (Path.copy_elem a out) ++ "/"%char :: r)%list).
Proof.
  revert out. induction a as [|c a IH]; intros out; cbn.
  - reflexivity.
  - destruct (Path.is_slash c); [reflexivity | apply IH].
Qed.

Lemma end_or_slash_app (a r : list ascii) :
  Path.end_or_slash (a ++ "/"%char :: r) = Path.end_or_slash (a ++ ["/"%char]).
Proof. destruct a; reflexivity. Qed.

Lemma head_is_dot_app (a r : list ascii) :
  Path.head_is_dot (a ++ "/"%char :: r) = Path.head_is_dot (a ++ ["/"%char]).
Proof. destruct a; reflexivity. Qed.

(** A prefix [a] that ends before a slash is processed in the same way
    whatever follows that slash. *)
Lemma clean_loop_prefix (n : nat) :
  forall (a r1 r2 : list ascii),
    (List.length a <= n)%nat ->
    Path.same_from ("/"%char :: r1) ("/"%char :: r2) ->
    Path.same_from (a ++ "/"%char :: r1) (a ++ "/"%char :: r2).
Proof.
  induction n as [|n IH]; intros a r1 r2 Hn Hbase.
  - destruct a; [exact Hbase | cbn in Hn; lia].
  - destruct a as [|c a']; [exact Hbase|].
    cbn [List.length] in Hn.
    intros rooted out dd f1 f2 H1 H2.
    cbn [app List.length] in H1, H2.
    destruct f1 as [|f1]; [lia|]. destruct f2 as [|f2]; [lia|].
    cbn [app Path.clean_loop].
    destruct (Path.is_slash c) eqn:Ec.
    { apply IH; [lia | exact Hbase | lia | lia]. }
    rewrite (end_or_slash_app a' r1), (end_or_slash_app a' r2).
    destruct (Path.is_dot c && Path.end_or_slash (a' ++ ["/"%char])).
    { apply IH; [lia | exact Hbase | lia | lia]. }
    rewrite (head_is_dot_app a' r1), (head_is_dot_app a' r2).
    destruct a' as [|x a''].
    + (* the element is the last of [a] *)
      cbn [app Path.head_is_dot]. change (Path.is_dot "/"%char) with false.
      rewrite andb_false_r. cbn [andb].
      cbn [Path.copy_elem]. rewrite Ec. cbn [Path.copy_elem].
      change (Path.is_slash "/"%char) with true. cbv iota.
      apply Hbase; cbn [app List.length] in *; lia.
    + cbn [app List.tl Path.head_is_dot].
      rewrite (end_or_slash_app a'' r1), (end_or_slash_app a'' r2).
      cbn [List.length app] in *.
      destruct (Path.is_dot c && Path.is_dot x && Path.end_or_slash (a'' ++ ["/"%char])).
      * destruct (dd <? List.length out)%nat;
          [apply IH; [lia | exact Hbase | lia | lia]|].
        destruct (negb rooted); apply IH; try exact Hbase; lia.
      * change (c :: x :: (a'' ++ "/"%char :: r1))%list
          with ((c :: x :: a'') ++ "/"%char :: r1)%list.
        change (c :: x :: (a'' ++ "/"%char :: r2))%list
          with ((c :: x :: a'') ++ "/"%char :: r2)%list.
        assert (Hstep : forall l o,
                  Path.copy_elem (c :: l) o = Path.copy_elem l (c :: o)).
        { intros l o. cbn [Path.copy_elem]. rewrite Ec. reflexivity. }
        rewrite !copy_elem_app, !Hstep.
        pose proof (copy_elem_length (x :: a'')) as Hlen.
        match goal with
        | |- context [Path.copy_elem (x :: a'') ?o] =>
            specialize (Hlen o);
            destruct (Path.copy_elem (x :: a'') o) as [out2 rest']
        end.
        cbn [fst snd List.length] in *.
        apply IH; [lia | exact Hbase | |];
          rewrite length_app; cbn [List.length];
          rewrite ?length_app in *; cbn [List.length] in *; lia.
Qed.

Lemma same_from_dot_slash (b : list ascii) :
  Path.same_from ("/"%char :: "."%char :: "/"%char :: b) ("/"%char :: b).
Proof.
  intros rooted out dd f1 f2 H1 H2. cbn [List.length] in H1, H2.
  destruct f1 as [|[|f1]]; try lia.
  cbn [Path.clean_loop]. change (Path.is_slash "/"%char) with true. cbv iota.
  change (Path.is_slash "."%char) with false. cbv iota.
  change (Path.is_dot "."%char && Path.end_or_slash ("/"%char :: b)) with true.
  cbv iota. apply clean_loop_fuel; cbn [List.length]; lia.
Qed.

Lemma same_from_slash_slash (b : list ascii) :
  Path.same_from ("/"%char :: "/"%char :: b) ("/"%char :: b).
Proof.
  intros rooted out dd f1 f2 H1 H2. cbn [List.length] in H1, H2.
  destruct f1 as [|f1]; try lia.
  cbn [Path.clean_loop]. change (Path.is_slash "/"%char) with true. cbv iota.
  apply clean_loop_fuel; cbn [List.length]; lia.
Qed.

Lemma Clean_same_from (a : string) (r1 r2 : list ascii) :
  Path.same_from ("/"%char :: r1) ("/"%char :: r2) ->
  Path.Clean (a ++ string_of_list_ascii ("/"%char :: r1))
    = Path.Clean (a ++ string_of_list_ascii ("/"%char :: r2)).
Proof.
  intros Hbase. unfold Path.Clean.
  rewrite !string_length_list, !list_ascii_app,
    !list_ascii_of_string_of_list_ascii.
  pose proof (clean_loop_prefix _ (list_ascii_of_string a) r1 r2 (le_n _) Hbase)
    as Hall.
  destruct (list_ascii_of_string a) as [|c la] eqn:Ea.
  - cbn [app]. change (Path.is_slash "/"%char) with true. cbv iota.
    assert (E : Path.clean_loop (List.length ("/"%char :: r1)) true r1 ["/"%char] 1
                = Path.clean_loop (List.length ("/"%char :: r2)) true r2 ["/"%char] 1).
    { specialize (Hbase true ["/"%char] 1%nat
                    (S (List.length ("/"%char :: r1))) (S (List.length ("/"%char :: r2)))
                    ltac:(lia) ltac:(lia)).
      cbn [Path.clean_loop] in Hbase.
      change (Path.is_slash "/"%char) with true in Hbase. cbv iota in Hbase.
      exact Hbase. }
    rewrite E. reflexivity.
  - cbn [app]. destruct (Path.is_slash c) eqn:Ec.
    + pose proof (clean_loop_prefix _ la r1 r2 (le_n _) Hbase) as Htl.
      rewrite (Htl true ["/"%char] 1%nat _
                 (List.length (c :: la ++ "/"%char :: r2)))
        by (cbn [List.length]; lia).
      reflexivity.
    + rewrite (Hall false [] 0%nat _
                 (List.length (c :: la ++ "/"%char :: r2)))
        by (cbn [List.length app]; lia).
      reflexivity.
Qed.

(** [Clean] collapses "/./" and "//" to "/". *)
Lemma Clean_collapses (a b : string) :
  Path.Clean (a ++ "/./" ++ b) = Path.Clean (a ++ "/" ++ b)
  /\ Path.Clean (a ++ "//" ++ b) = Path.Clean (a ++ "/" ++ b).
Proof.
  rewrite <- (string_of_list_ascii_of_string b).
  split.
  - apply (Clean_same_from a ("."%char :: "/"%char :: list_ascii_of_string b)
             (list_ascii_of_string b)).
    apply same_from_dot_slash.
  - apply (Clean_same_from a ("/"%char :: list_ascii_of_string b)
             (list_ascii_of_string b)).
    apply same_from_slash_slash.
Qed.

Lemma cleanPath_collapses (a b : string) :
  a <> ""%string ->
  Adapter.cleanPath (a ++ "/./" ++ b) = Adapter.cleanPath (a ++ "/" ++ b)
  /\ Adapter.cleanPath (a ++ "//" ++ b) = Adapter.cleanPath (a ++ "/" ++ b).
Proof.
  intros Ha. destruct a as [|c a']; [contradiction|].
  unfold Adapter.cleanPath. cbn [String.append].
  destruct (c =? "/")%char.
  - apply Clean_collapses.
  - apply (Clean_collapses (String c a') b).
Qed.

(** The path of the tests, on a namespace that records the names it is
    asked to open. *)
Example adapter_OpenFile_sub_file :
  Adapter.opened
    (snd (Adapter.OpenFile Fixtures.UnwrapOSError
            (Adapter.mkAdapter Fixtures.anyNS) "/sub/./file.txt" O_RDONLY 0
            (Adapter.mkWorld 0%nat [])))
  = ["sub/file.txt"%string].
Proof. reflexivity. Qed.

(** * Further properties

    ** Sequences of calls on an [fsFile] *)

Section FsFileSequences.

Variable H : Type.
Variable U : error -> Errno.
Variable fl : FsFile.File H.

Lemma set_cachedSt_same (f : FsFile.fsFile) :
  FsFile.set_cachedSt (FsFile.cachedSt f) f = f.
Proof. destruct f; reflexivity. Qed.

(** The type check in full: it may fill the cache and costs the stat that
    [stat_cost] counts; a cache that is set is left as it is. *)
Lemma isDirErrno_shape (s : FsFile.State H) :
  exists c',
    snd (FsFile.isDirErrno fl s)
      = FsFile.mkState (FsFile.set_cachedSt c' (FsFile.self s))
          (FsFile.handle_after_check fl s)
          (FsFile.log s ++ FsFile.stat_cost s)
    /\ (forall cs, FsFile.cachedSt (FsFile.self s) = Some cs -> c' = Some cs).
Proof.
  assert (E : snd (FsFile.isDirErrno fl s) = snd (FsFile.cachedStat fl s)).
  { rewrite <- IsDir_frame. unfold FsFile.isDirErrno, bind.
    destruct (FsFile.IsDir fl s) as [[d e] s'].
    destruct (negb (e =? 0)); [reflexivity|]. destruct d; reflexivity. }
  rewrite E.
  unfold FsFile.cachedStat, FsFile.handle_after_check, FsFile.stat_cost, bind, gets.
  destruct (FsFile.cachedSt (FsFile.self s)) as [cs|] eqn:Ec; cbn.
  - exists (Some cs). rewrite <- Ec, set_cachedSt_same, app_nil_r.
    split; [destruct s; reflexivity | intros cs' E'; congruence].
  - unfold FsFile.Stat, bind, FsFile.native.
    destruct (FsFile.file_Stat fl (FsFile.handle s)) as [[st e] h'].
    destruct (Z.eqb_spec e 0) as [->|Hne]; cbn.
    + eexists. split; [reflexivity | discriminate].
    + exists None. rewrite <- Ec, set_cachedSt_same.
      destruct (Z.eqb_spec e EIO) as [->|Hne']; cbn.
      * split; [reflexivity | intros; congruence].
      * destruct (Z.eqb_spec e 0); [contradiction|]. cbn.
        split; [reflexivity | intros; congruence].
Qed.

Lemma step_refl (st cl : bool) (s : FsFile.State H) : FsFileOps.step st cl s s.
Proof.
  split.
  - exists (FsFile.cachedSt (FsFile.self s)). rewrite set_cachedSt_same.
    split; [reflexivity | intros _ cs E; exact E].
  - exists []. rewrite app_nil_r. repeat split; reflexivity.
Qed.

Lemma step_weaken (st cl : bool) (s s' : FsFile.State H) :
  FsFileOps.step false false s s' -> FsFileOps.step st cl s s'.
Proof.
  intros [[c' [Hs Hc]] [l (Hl & Hw & Hr & Hst & Hcl)]]. split.
  - exists c'. split; [exact Hs | intros _; exact (Hc eq_refl)].
  - exists l. repeat split; auto.
Qed.

Lemma step_trans (st cl : bool) (s s1 s2 : FsFile.State H) :
  FsFileOps.step st cl s s1 -> FsFileOps.step st cl s1 s2 -> FsFileOps.step st cl s s2.
Proof.
  intros [[c1 [Hs1 Hc1]] [l1 (Hl1 & Hw1 & Hr1 & Hst1 & Hcl1)]]
         [[c2 [Hs2 Hc2]] [l2 (Hl2 & Hw2 & Hr2 & Hst2 & Hcl2)]].
  assert (Ham : FsFile.accessMode (FsFile.self s1)
                = FsFile.accessMode (FsFile.self s))
    by (rewrite Hs1; reflexivity).
  assert (Hcache : FsFile.cachedSt (FsFile.self s1) = c1)
    by (rewrite Hs1; reflexivity).
  split.
  - exists c2. split.
    + rewrite Hs2, Hs1. reflexivity.
    + intros Hb cs Ecs. apply (Hc2 Hb). rewrite Hcache. exact (Hc1 Hb cs Ecs).
  - exists (l1 ++ l2). rewrite Hl2, Hl1, <- app_assoc, !filter_app.
    split; [reflexivity|]. split; [|split; [|split]].
    + intros E. rewrite (Hw1 E), (Hw2 (eq_trans Ham E)). reflexivity.
    + intros E. rewrite (Hr1 E), (Hr2 (eq_trans Ham E)). reflexivity.
    + intros Hb Hsome. rewrite (Hst1 Hb Hsome). apply (Hst2 Hb).
      destruct (FsFile.cachedSt (FsFile.self s)) as [cs|] eqn:Ecs;
        [|contradiction].
      rewrite Hcache, (Hc1 Hb cs eq_refl). discriminate.
    + intros Hb. rewrite (Hcl1 Hb), (Hcl2 Hb). reflexivity.
Qed.

Lemma step_check (s : FsFile.State H) :
  FsFileOps.step false false s (snd (FsFile.isDirErrno fl s)).
Proof.
  destruct (isDirErrno_shape s) as [c' [E Hc]]. rewrite E. split.
  - exists c'. split; [reflexivity | intros _; exact Hc].
  - exists (FsFile.stat_cost s). cbn [FsFile.log]. split; [reflexivity|].
    unfold FsFile.stat_cost.
    destruct (FsFile.cachedSt (FsFile.self s)); repeat split; try reflexivity.
    intros _ N. contradiction.
Qed.

Lemma step_native {A : Type} (cl : bool) (c : FsFile.NativeCall)
  (op : H -> A * H) (s : FsFile.State H) :
  (FsFile.accessMode (FsFile.self s) = O_RDONLY -> FsFileOps.writes c = false) ->
  (FsFile.accessMode (FsFile.self s) = O_WRONLY -> FsFileOps.reads c = false) ->
  FsFileOps.stats c = false ->
  (cl = false -> FsFileOps.closes c = false) ->
  FsFileOps.step false cl s (snd (FsFile.native c op s)).
Proof.
  intros Hw Hr Hst Hcl. unfold FsFile.native.
  destruct (op (FsFile.handle s)) as [a h].
  split.
  - exists (FsFile.cachedSt (FsFile.self s)). cbn. rewrite set_cachedSt_same.
    split; [reflexivity | intros _ cs E; exact E].
  - exists [c]. cbn. split; [reflexivity|]. split; [|split; [|split]].
    + intros E. rewrite (Hw E). reflexivity.
    + intros E. rewrite (Hr E). reflexivity.
    + intros _ _. rewrite Hst. reflexivity.
    + intros E. rewrite (Hcl E). reflexivity.
Qed.

Lemma step_Stat (s : FsFile.State H) :
  FsFileOps.step true false s (snd (FsFile.Stat fl s)).
Proof.
  unfold FsFile.Stat, bind, FsFile.native.
  destruct (FsFile.file_Stat fl (FsFile.handle s)) as [[st e] h'].
  assert (Hl : forall c', exists l,
            FsFile.log (FsFile.mkState c' h' (FsFile.log s ++ [FsFile.NStat]))
              = FsFile.log s ++ l
            /\ (FsFile.accessMode (FsFile.self s) = O_RDONLY ->
                filter FsFileOps.writes l = [])
            /\ (FsFile.accessMode (FsFile.self s) = O_WRONLY ->
                filter FsFileOps.reads l = [])
            /\ (true = false ->
                FsFile.cachedSt (FsFile.self s) <> None ->
                filter FsFileOps.stats l = [])
            /\ (false = false -> filter FsFileOps.closes l = [])).
  { intros c'. exists [FsFile.NStat]. repeat split; try reflexivity.
    discriminate. }
  destruct (e =? 0); [|destruct (e =? EIO)]; cbn; (split; [|apply Hl]).
  - eexists. split; [reflexivity | discriminate].
  - exists (FsFile.cachedSt (FsFile.self s)). rewrite set_cachedSt_same.
    split; [reflexivity | discriminate].
  - exists (FsFile.cachedSt (FsFile.self s)). rewrite set_cachedSt_same.
    split; [reflexivity | discriminate].
Qed.

Lemma step_Pread_ReadSeeker rd sk p off (s : FsFile.State H) :
  FsFile.accessMode (FsFile.self s) <> O_WRONLY ->
  FsFileOps.step false false s (snd (FsFile.Pread_ReadSeeker U rd sk p off s)).
Proof.
  intros Ham.
  assert (Nat : forall {A} c (op : H -> A * H) (t : FsFile.State H),
            FsFile.accessMode (FsFile.self t) = FsFile.accessMode (FsFile.self s) ->
            FsFileOps.writes c = false -> FsFileOps.stats c = false ->
            FsFileOps.closes c = false ->
            FsFileOps.step false false t (snd (FsFile.native c op t))).
  { intros A c op t Et Hw Hst Hcl. apply step_native; auto.
    intros E. rewrite Et in E. contradiction. }
  assert (Keep : forall {A} c (op : H -> A * H) (t : FsFile.State H),
            FsFile.accessMode (FsFile.self (snd (FsFile.native c op t)))
            = FsFile.accessMode (FsFile.self t)).
  { intros A c op t. unfold FsFile.native.
    destruct (op (FsFile.handle t)); reflexivity. }
  unfold FsFile.Pread_ReadSeeker. unfold bind at 1.
  pose proof (Nat _ (FsFile.NSeek 0 FsFile.SeekCurrent) (sk 0 FsFile.SeekCurrent) s
                eq_refl eq_refl eq_refl eq_refl) as S1.
  pose proof (Keep _ (FsFile.NSeek 0 FsFile.SeekCurrent) (sk 0 FsFile.SeekCurrent) s) as K1.
  destruct (FsFile.native (FsFile.NSeek 0 FsFile.SeekCurrent) (sk 0 FsFile.SeekCurrent) s)
    as [[cur err] s1]. cbn [snd] in S1, K1.
  destruct (negb (is_nil err)); [exact S1|].
  unfold bind at 1.
  assert (Inner : forall (t : FsFile.State H),
            FsFile.accessMode (FsFile.self t) = FsFile.accessMode (FsFile.self s) ->
            FsFileOps.step false false t
              (snd (bind (FsFile.native (FsFile.NRead (List.length p)) (rd p))
                      (fun x => let '(n, err0, p') := x in ret (n, U err0, p')) t))
            /\ FsFile.accessMode
                 (FsFile.self
                    (snd (bind (FsFile.native (FsFile.NRead (List.length p)) (rd p))
                            (fun x => let '(n, err0, p') := x in ret (n, U err0, p')) t)))
               = FsFile.accessMode (FsFile.self s)).
  { intros t Et. unfold bind.
    pose proof (Nat _ (FsFile.NRead (List.length p)) (rd p) t Et eq_refl eq_refl eq_refl) as S.
    pose proof (Keep _ (FsFile.NRead (List.length p)) (rd p) t) as K.
    destruct (FsFile.native (FsFile.NRead (List.length p)) (rd p) t)
      as [[[n e0] p'] t']. unfold ret. cbn [snd] in *. split; [exact S | congruence]. }
  assert (Mid : exists res s3,
            (if negb (off =? cur)
             then
               bind (FsFile.native (FsFile.NSeek off FsFile.SeekStart) (sk off FsFile.SeekStart))
                 (fun x => let '(_, err0) := x in
                   if negb (is_nil err0) then ret (0, U err0, p)
                   else bind (FsFile.native (FsFile.NRead (List.length p)) (rd p))
                          (fun x => let '(n, err1, p') := x in ret (n, U err1, p')))
             else
               bind (FsFile.native (FsFile.NRead (List.length p)) (rd p))
                 (fun x => let '(n, err0, p') := x in ret (n, U err0, p'))) s1
            = (res, s3)
            /\ FsFileOps.step false false s1 s3
            /\ FsFile.accessMode (FsFile.self s3) = FsFile.accessMode (FsFile.self s)).
  { destruct (negb (off =? cur)).
    - unfold bind at 1.
      pose proof (Nat _ (FsFile.NSeek off FsFile.SeekStart) (sk off FsFile.SeekStart) s1
                    K1 eq_refl eq_refl eq_refl) as S2.
      pose proof (Keep _ (FsFile.NSeek off FsFile.SeekStart) (sk off FsFile.SeekStart) s1) as K2.
      destruct (FsFile.native (FsFile.NSeek off FsFile.SeekStart) (sk off FsFile.SeekStart) s1)
        as [[o2 err2] s2]. cbn [snd] in S2, K2.
      destruct (negb (is_nil err2)).
      + do 2 eexists. split; [reflexivity|]. split; [exact S2 | congruence].
      + destruct (Inner s2 ltac:(congruence)) as [S3 K3].
        match goal with
        | |- exists res s3, ?m s2 = _ /\ _ =>
            destruct (m s2) as [res s3] eqn:Em
        end.
        cbn [snd] in S3, K3. exists res, s3.
        split; [reflexivity|]. split; [|exact K3].
        apply (step_trans _ _ s1 s2); assumption.
    - destruct (Inner s1 K1) as [S3 K3].
      match goal with
      | |- exists res s3, ?m s1 = _ /\ _ => destruct (m s1) as [res s3] eqn:Em
      end.
      cbn [snd] in S3, K3. exists res, s3. auto. }
  destruct Mid as (res & s3 & Em & S3 & K3). rewrite Em.
  unfold bind.
  pose proof (Nat _ (FsFile.NSeek cur FsFile.SeekStart) (sk cur FsFile.SeekStart) s3
                K3 eq_refl eq_refl eq_refl) as S4.
  destruct (FsFile.native (FsFile.NSeek cur FsFile.SeekStart) (sk cur FsFile.SeekStart) s3)
    as [r4 s4]. cbn [snd] in *.
  apply (step_trans _ _ s s1); [exact S1|].
  apply (step_trans _ _ s1 s3); [exact S3 | exact S4].
Qed.

(** The last part of a method: one native call on [s1], its results
    returned. *)
Ltac finish_native s s1 Hchk :=
  apply (step_trans _ _ s s1); [exact Hchk|];
  unfold bind;
  match goal with
  | |- context [FsFile.native ?c ?op s1] =>
      let Hn := fresh "Hn" in
      assert (Hn : FsFileOps.step false false s1 (snd (FsFile.native c op s1)))
        by (apply step_native;
            first [ reflexivity | intros; contradiction | intros; congruence ]);
      destruct (FsFile.native c op s1) as [? ?]; cbn [snd] in Hn;
      repeat match goal with
             | |- context [let (_, _) := ?x in _] => destruct x
             end;
      unfold ret; cbn [snd]; exact Hn
  end.

Ltac start_checked s :=
  unfold bind at 1;
  let e := fresh "e" in
  let s1 := fresh "s1" in
  let Hchk := fresh "Hchk" in
  pose proof (step_check s) as Hchk;
  destruct (FsFile.isDirErrno fl s) as [e s1]; cbn [snd] in Hchk;
  (destruct (negb (e =? 0)); [exact Hchk|]).

Lemma step_Read p (s : FsFile.State H) :
  FsFileOps.step false false s (snd (FsFile.Read U fl p s)).
Proof.
  unfold FsFile.Read. destruct (List.length p =? 0)%nat; [apply step_refl|].
  start_checked s.
  unfold bind at 1. unfold FsFile.AccessMode at 1, gets at 1.
  destruct (Z.eqb_spec (FsFile.accessMode (FsFile.self s1)) O_WRONLY);
    [exact Hchk|].
  destruct (FsFile.file_Reader fl); [|exact Hchk].
  finish_native s s1 Hchk.
Qed.

Lemma step_Pread p off (s : FsFile.State H) :
  FsFileOps.step false false s (snd (FsFile.Pread U fl p off s)).
Proof.
  unfold FsFile.Pread. destruct (List.length p =? 0)%nat; [apply step_refl|].
  start_checked s.
  unfold bind at 1. unfold FsFile.AccessMode at 1, gets at 1.
  destruct (Z.eqb_spec (FsFile.accessMode (FsFile.self s1)) O_WRONLY);
    [exact Hchk|].
  destruct (FsFile.file_ReaderAt fl); [finish_native s s1 Hchk|].
  destruct (FsFile.file_Reader fl); [|exact Hchk].
  destruct (FsFile.file_Seeker fl); [|exact Hchk].
  apply (step_trans _ _ s s1); [exact Hchk|].
  apply step_Pread_ReadSeeker. assumption.
Qed.

Lemma step_Seek offset whence (s : FsFile.State H) :
  FsFileOps.step false false s (snd (FsFile.Seek U fl offset whence s)).
Proof.
  unfold FsFile.Seek. start_checked s.
  destruct ((whence <? 0) || (FsFile.SeekEnd <? whence)); [exact Hchk|].
  destruct (FsFile.file_Seeker fl); [|exact Hchk].
  finish_native s s1 Hchk.
Qed.

Lemma step_Write p (s : FsFile.State H) :
  FsFileOps.step false false s (snd (FsFile.Write U fl p s)).
Proof.
  unfold FsFile.Write. start_checked s.
  unfold bind at 1. unfold FsFile.AccessMode at 1, gets at 1.
  destruct (Z.eqb_spec (FsFile.accessMode (FsFile.self s1)) O_RDONLY);
    [exact Hchk|].
  destruct (List.length p =? 0)%nat; [exact Hchk|].
  destruct (FsFile.file_Writer fl); [|exact Hchk].
  finish_native s s1 Hchk.
Qed.

Lemma step_Pwrite p off (s : FsFile.State H) :
  FsFileOps.step false false s (snd (FsFile.Pwrite U fl p off s)).
Proof.
  unfold FsFile.Pwrite. start_checked s.
  unfold bind at 1. unfold FsFile.AccessMode at 1, gets at 1.
  destruct (Z.eqb_spec (FsFile.accessMode (FsFile.self s1)) O_RDONLY);
    [exact Hchk|].
  destruct (List.length p =? 0)%nat; [exact Hchk|].
  destruct (FsFile.file_WriterAt fl); [|exact Hchk].
  finish_native s s1 Hchk.
Qed.

Lemma step_Truncate size (s : FsFile.State H) :
  FsFileOps.step false false s (snd (FsFile.Truncate U fl size s)).
Proof.
  unfold FsFile.Truncate. start_checked s.
  unfold bind at 1. unfold FsFile.AccessMode at 1, gets at 1.
  destruct (Z.eqb_spec (FsFile.accessMode (FsFile.self s1)) O_RDONLY);
    [exact Hchk|].
  destruct (FsFile.file_truncateFile fl); [|exact Hchk].
  finish_native s s1 Hchk.
Qed.

Lemma step_Chmod mode (s : FsFile.State H) :
  FsFileOps.step false false s (snd (FsFile.Chmod U fl mode s)).
Proof.
  unfold FsFile.Chmod. destruct (FsFile.file_chmodFile fl); [|apply step_refl].
  finish_native s s (step_refl false false s).
Qed.

Lemma step_Close (s : FsFile.State H) :
  FsFileOps.step false true s (snd (FsFile.Close U fl s)).
Proof.
  unfold FsFile.Close, bind.
  pose proof (step_native true FsFile.NClose (FsFile.file_Close fl) s
                (fun _ => eq_refl) (fun _ => eq_refl) eq_refl) as Hn.
  destruct (FsFile.native FsFile.NClose (FsFile.file_Close fl) s) as [err s1].
  unfold ret. cbn [snd] in *. apply Hn. discriminate.
Qed.

Lemma step_IsDir (s : FsFile.State H) :
  FsFileOps.step false false s (snd (FsFile.IsDir fl s)).
Proof.
  pose proof (step_check s) as Hchk.
  assert (E : snd (FsFile.isDirErrno fl s) = snd (FsFile.IsDir fl s)).
  { unfold FsFile.isDirErrno, bind.
    destruct (FsFile.IsDir fl s) as [[d e] s'].
    destruct (negb (e =? 0)); [reflexivity|]. destruct d; reflexivity. }
  rewrite <- E. exact Hchk.
Qed.

Lemma snd_drop {S A : Type} (m : M S A) (s : S) :
  snd (bind m (fun _ => ret tt) s) = snd (m s).
Proof. unfold bind, ret. destruct (m s); reflexivity. Qed.

Lemma step_call (c : FsFileOps.Call) (s : FsFile.State H) :
  FsFileOps.step (FsFileOps.is_CallStat c) (FsFileOps.is_CallClose c) s
       (snd (FsFileOps.call U fl c s)).
Proof.
  destruct c; cbn [FsFileOps.call FsFileOps.is_CallStat FsFileOps.is_CallClose];
    rewrite snd_drop; try apply step_refl.
  - apply step_Stat.
  - apply step_IsDir.
  - apply step_Read.
  - apply step_Pread.
  - apply step_Seek.
  - apply step_Write.
  - apply step_Pwrite.
  - apply step_Truncate.
  - apply step_Chmod.
  - apply step_Close.
Qed.

Lemma step_loosen (st cl : bool) (s s' : FsFile.State H) :
  FsFileOps.step st cl s s' -> FsFileOps.step true true s s'.
Proof.
  intros [[c' [Hs Hc]] [l (Hl & Hw & Hr & Hst & Hcl)]]. split.
  - exists c'. split; [exact Hs | discriminate].
  - exists l. repeat split; auto; discriminate.
Qed.

Lemma step_loosen_close (s s' : FsFile.State H) (cl : bool) :
  FsFileOps.step false cl s s' -> FsFileOps.step false true s s'.
Proof.
  intros [[c' [Hs Hc]] [l (Hl & Hw & Hr & Hst & Hcl)]]. split.
  - exists c'. split; [exact Hs | exact Hc].
  - exists l. repeat split; auto; discriminate.
Qed.

Lemma step_calls_any (cs : list FsFileOps.Call) (s : FsFile.State H) :
  FsFileOps.step true true s (snd (FsFileOps.calls U fl cs s)).
Proof.
  revert s. induction cs as [|c rest IH]; intros s; cbn [FsFileOps.calls].
  - apply step_refl.
  - unfold bind. pose proof (step_call c s) as S1.
    destruct (FsFileOps.call U fl c s) as [[] s1]. cbn [snd] in S1.
    apply (step_trans _ _ s s1); [|apply IH].
    exact (step_loosen _ _ _ _ S1).
Qed.

Lemma step_calls_no_Stat (cs : list FsFileOps.Call) (s : FsFile.State H) :
  existsb FsFileOps.is_CallStat cs = false ->
  FsFileOps.step false true s (snd (FsFileOps.calls U fl cs s)).
Proof.
  revert s. induction cs as [|c rest IH]; intros s Hno; cbn [FsFileOps.calls].
  - apply step_refl.
  - cbn [existsb] in Hno. apply orb_false_iff in Hno as [Hc Hrest].
    unfold bind. pose proof (step_call c s) as S1. rewrite Hc in S1.
    destruct (FsFileOps.call U fl c s) as [[] s1]. cbn [snd] in S1.
    apply (step_trans _ _ s s1); [|apply IH; exact Hrest].
    exact (step_loosen_close _ _ _ S1).
Qed.

(** X1.  No sequence of calls on an [fsFile] changes its path, its access
    mode or its non-blocking flag, and the log of native calls only grows.
    For a file made by [NewFsFile openPath openFlag], [AccessMode] keeps
    answering [openFlag mod 4], the read/write bits of the flag, and
    [Path] keeps answering [openPath]. *)
Theorem fsFile_identity_never_changes (cs : list FsFileOps.Call)
  (s : FsFile.State H) :
  let s' := snd (FsFileOps.calls U fl cs s) in
  FsFile.path (FsFile.self s') = FsFile.path (FsFile.self s)
  /\ FsFile.accessMode (FsFile.self s') = FsFile.accessMode (FsFile.self s)
  /\ FsFile.nonblock (FsFile.self s') = FsFile.nonblock (FsFile.self s)
  /\ (exists l, FsFile.log s' = FsFile.log s ++ l)
  /\ (forall openPath openFlag,
        FsFile.self s = FsFile.NewFsFile openPath openFlag ->
        fst (FsFile.AccessMode s') = openFlag mod 4
        /\ fst (FsFile.Path s') = openPath).
Proof.
  intros s'. destruct (step_calls_any cs s) as [[c' [Hs _]] [l [Hl _]]].
  fold s' in Hs, Hl.
  assert (P : FsFile.path (FsFile.self s') = FsFile.path (FsFile.self s))
    by (rewrite Hs; reflexivity).
  assert (A : FsFile.accessMode (FsFile.self s')
              = FsFile.accessMode (FsFile.self s))
    by (rewrite Hs; reflexivity).
  split; [exact P|]. split; [exact A|].
  split; [rewrite Hs; reflexivity|]. split; [exists l; exact Hl|].
  intros openPath openFlag E. unfold FsFile.AccessMode, FsFile.Path, gets.
  cbn [fst]. rewrite A, P, E. cbn [FsFile.NewFsFile FsFile.accessMode FsFile.path].
  split; [apply rw_mask_mod | reflexivity].
Qed.

(** X2.  A file opened [O_RDONLY] never writes: whatever the calls, [Write],
    [Pwrite] and [Truncate] included, no native write, positional write or
    truncate is made on the handle. *)
Theorem read_only_fsFile_never_writes (cs : list FsFileOps.Call)
  (s : FsFile.State H) :
  FsFile.accessMode (FsFile.self s) = O_RDONLY ->
  filter FsFileOps.writes (FsFile.log (snd (FsFileOps.calls U fl cs s)))
    = filter FsFileOps.writes (FsFile.log s).
Proof.
  intros E. destruct (step_calls_any cs s) as [_ [l (Hl & Hw & _)]].
  rewrite Hl, filter_app, (Hw E), app_nil_r. reflexivity.
Qed.

(** X3.  A file opened [O_WRONLY] never reads: whatever the calls, [Read]
    and [Pread] included, no native read or positional read is made on
    the handle. *)
Theorem write_only_fsFile_never_reads (cs : list FsFileOps.Call)
  (s : FsFile.State H) :
  FsFile.accessMode (FsFile.self s) = O_WRONLY ->
  filter FsFileOps.reads (FsFile.log (snd (FsFileOps.calls U fl cs s)))
    = filter FsFileOps.reads (FsFile.log s).
Proof.
  intros E. destruct (step_calls_any cs s) as [_ [l (Hl & _ & Hr & _)]].
  rewrite Hl, filter_app, (Hr E), app_nil_r. reflexivity.
Qed.

(** X4.  Once the file type is cached it stays as it is, and no call other
    than [Stat] itself makes a native stat. *)
Theorem cached_file_type_is_kept (cs : list FsFileOps.Call)
  (s : FsFile.State H) (c0 : FsFile.cachedStat_t) :
  FsFile.cachedSt (FsFile.self s) = Some c0 ->
  existsb FsFileOps.is_CallStat cs = false ->
  let s' := snd (FsFileOps.calls U fl cs s) in
  FsFile.cachedSt (FsFile.self s') = Some c0
  /\ filter FsFileOps.stats (FsFile.log s')
     = filter FsFileOps.stats (FsFile.log s).
Proof.
  intros E Hno s'.
  destruct (step_calls_no_Stat cs s Hno)
    as [[c' [Hs Hc]] [l (Hl & _ & _ & Hst & _)]].
  fold s' in Hs, Hl. split.
  - rewrite Hs. cbn. exact (Hc eq_refl c0 E).
  - rewrite Hl, filter_app, (Hst eq_refl), app_nil_r; [reflexivity|].
    rewrite E. discriminate.
Qed.

Lemma cachedStat_success (s s1 : FsFile.State H) (ft : FileMode) :
  FsFile.cachedStat fl s = ((ft, 0), s1) ->
  FsFile.cachedSt (FsFile.self s1) = Some (FsFile.mkCachedStat ft).
Proof.
  unfold FsFile.cachedStat, bind, gets.
  destruct (FsFile.cachedSt (FsFile.self s)) as [[ft0]|] eqn:Ec.
  - cbn. intros E. inversion E; subst. exact Ec.
  - destruct (FsFile.Stat fl s) as [[st e] s2] eqn:Est.
    destruct (Z.eqb_spec e 0) as [->|Hne]; cbn [negb].
    + rewrite (Stat_sets_cache H fl s s2 st Est). cbn.
      intros E. inversion E; subst.
      apply (Stat_sets_cache H fl s s1 st Est).
    + cbn. intros E. inversion E. congruence.
Qed.

(** X5.  After [IsDir] has succeeded, [IsDir] and [isDirErrno] answer the
    same again from the cache: the state, the log of native calls with it,
    is left as it is. *)
Theorem IsDir_answers_from_the_cache (s s1 : FsFile.State H) (d : bool) :
  FsFile.IsDir fl s = ((d, 0), s1) ->
  FsFile.IsDir fl s1 = ((d, 0), s1)
  /\ FsFile.isDirErrno fl s1 = (if d then EISDIR else 0, s1).
Proof.
  intros E.
  assert (C : exists ft,
            FsFile.cachedSt (FsFile.self s1) = Some (FsFile.mkCachedStat ft)
            /\ d = (FileMode_Type ft =? ModeDir)).
  { unfold FsFile.IsDir, bind in E.
    destruct (FsFile.cachedStat fl s) as [[ft e] s2] eqn:Ec.
    destruct (Z.eqb_spec e 0) as [->|Hne]; cbn [negb] in E.
    - exists ft. split.
      + destruct (FileMode_Type ft =? ModeDir); inversion E; subst;
          apply (cachedStat_success s s1 ft Ec).
      + destruct (FileMode_Type ft =? ModeDir); inversion E; reflexivity.
    - inversion E. congruence. }
  destruct C as (ft & Ecs & ->).
  assert (I : FsFile.IsDir fl s1 = ((FileMode_Type ft =? ModeDir, 0), s1)).
  { unfold FsFile.IsDir, FsFile.cachedStat, bind, gets. rewrite Ecs. cbn.
    destruct (FileMode_Type ft =? _); reflexivity. }
  split; [exact I|].
  unfold FsFile.isDirErrno, bind. rewrite I. cbn.
  destruct (FileMode_Type ft =? _); reflexivity.
Qed.

(** X6.  When the type check fails (the file is a directory, or the stat
    does not succeed), [Read], [Pread], [Seek], [Write], [Pwrite] and
    [Truncate] all return that errno with nothing transferred and make no
    call beyond the check; with a cached type the errno is [EISDIR] and the
    state is untouched. *)
Theorem failed_type_check_fails_every_data_call (s s1 : FsFile.State H)
  (e : Errno) (p q : list byte) (off offset whence size : Z) :
  FsFile.isDirErrno fl s = (e, s1) ->
  e <> 0 ->
  p <> [] ->
  FsFile.Read U fl p s = ((0, e, p), s1)
  /\ FsFile.Pread U fl p off s = ((0, e, p), s1)
  /\ FsFile.Seek U fl offset whence s = ((0, e), s1)
  /\ FsFile.Write U fl q s = ((0, e), s1)
  /\ FsFile.Pwrite U fl q off s = ((0, e), s1)
  /\ FsFile.Truncate U fl size s = (e, s1)
  /\ (forall c0, FsFile.cachedSt (FsFile.self s) = Some c0 ->
        e = EISDIR /\ s1 = s).
Proof.
  intros E Hne Hp.
  destruct p as [|b p']; [contradiction|].
  unfold FsFile.Read, FsFile.Pread, FsFile.Seek, FsFile.Write, FsFile.Pwrite,
    FsFile.Truncate, bind.
  cbn [List.length Nat.eqb]. rewrite E.
  destruct (Z.eqb_spec e 0); [contradiction|]. cbn [negb].
  repeat (split; [reflexivity|]).
  intros c0 Ec. rewrite (isDirErrno_cached H fl s c0 Ec) in E.
  destruct (FileMode_Type (FsFile.fileType c0) =? ModeDir);
    inversion E; subst; [split; reflexivity | contradiction].
Qed.

(** X7.  On a regular file opened for reading and writing, a method whose
    optional interface the handle lacks returns [ENOSYS] ([Read] alone
    returns [EBADF]) and makes no native call beyond the type check.
    [Pread] falls back to seek-and-read only when the handle has both. *)
Theorem missing_capability_is_ENOSYS (s s1 : FsFile.State H)
  (p : list byte) (off offset whence size : Z) (mode : FileMode) :
  FsFile.isDirErrno fl s = (0, s1) ->
  FsFile.accessMode (FsFile.self s) = O_RDWR ->
  p <> [] ->
  0 <= whence <= FsFile.SeekEnd ->
  (FsFile.file_ReaderAt fl = None ->
   FsFile.file_Reader fl = None \/ FsFile.file_Seeker fl = None ->
   FsFile.Pread U fl p off s = ((0, ENOSYS, p), s1))
  /\ (FsFile.file_Seeker fl = None ->
      FsFile.Seek U fl offset whence s = ((0, ENOSYS), s1))
  /\ (FsFile.file_Writer fl = None ->
      FsFile.Write U fl p s = ((0, ENOSYS), s1))
  /\ (FsFile.file_WriterAt fl = None ->
      FsFile.Pwrite U fl p off s = ((0, ENOSYS), s1))
  /\ (FsFile.file_truncateFile fl = None ->
      FsFile.Truncate U fl size s = (ENOSYS, s1))
  /\ (FsFile.file_chmodFile fl = None ->
      FsFile.Chmod U fl mode s = (ENOSYS, s))
  /\ (FsFile.file_Reader fl = None ->
      FsFile.Read U fl p s = ((0, EBADF, p), s1)).
Proof.
  intros E Ham Hp Hw.
  destruct p as [|b p']; [contradiction|].
  assert (Ham1 : FsFile.accessMode (FsFile.self s1) = O_RDWR).
  { pose proof (isDirErrno_frame H fl s) as (_ & A & _).
    rewrite E in A. cbn [snd] in A. congruence. }
  unfold FsFile.Pread, FsFile.Seek, FsFile.Write, FsFile.Pwrite,
    FsFile.Truncate, FsFile.Chmod, FsFile.Read, bind, FsFile.AccessMode, gets.
  cbn [List.length Nat.eqb]. rewrite E. cbn [negb Z.eqb]. cbv beta.
  rewrite ?Ham1. cbn [negb Z.eqb O_RDWR O_WRONLY O_RDONLY].
  destruct (Z.ltb_spec whence 0); [lia|].
  destruct (Z.ltb_spec FsFile.SeekEnd whence); [lia|]. cbn [orb].
  repeat split; intros.
  - match goal with Hra : FsFile.file_ReaderAt fl = None |- _ => rewrite Hra end.
    match goal with
    | Ho : _ \/ _ |- _ => destruct Ho as [Ho|Ho]; rewrite Ho
    end; [reflexivity|]. destruct (FsFile.file_Reader fl); reflexivity.
  - match goal with Hx : _ = None |- _ => rewrite Hx end. reflexivity.
  - match goal with Hx : _ = None |- _ => rewrite Hx end. reflexivity.
  - match goal with Hx : _ = None |- _ => rewrite Hx end. reflexivity.
  - match goal with Hx : _ = None |- _ => rewrite Hx end. reflexivity.
  - match goal with Hx : _ = None |- _ => rewrite Hx end. reflexivity.
  - match goal with Hx : _ = None |- _ => rewrite Hx end. reflexivity.
Qed.

Lemma Stat_shape (s : FsFile.State H) :
  let r := FsFile.Stat fl s in
  let native := FsFile.file_Stat fl (FsFile.handle s) in
  snd (fst r) <> EIO
  /\ snd (fst r) = (if snd (fst native) =? EIO then EBADF else snd (fst native))
  /\ fst (fst r) = fst (fst native)
  /\ FsFile.log (snd r) = FsFile.log s ++ [FsFile.NStat]
  /\ FsFile.handle (snd r) = snd native
  /\ FsFile.self (snd r)
     = (if snd (fst r) =? 0
        then FsFile.set_cachedSt
               (Some (FsFile.mkCachedStat
                        (Z.land (st_Mode (fst (fst native))) ModeType)))
               (FsFile.self s)
        else FsFile.self s).
Proof.
  cbv zeta. unfold FsFile.Stat, bind, FsFile.native.
  destruct (FsFile.file_Stat fl (FsFile.handle s)) as [[st e] h'].
  cbn [fst snd].
  destruct (Z.eqb_spec e 0) as [->|Hne].
  - cbn. repeat split. discriminate.
  - destruct (Z.eqb_spec e EIO) as [->|Hne']; cbn; repeat split;
      try discriminate; try assumption.
    destruct (Z.eqb_spec e 0); [contradiction | reflexivity].
Qed.

(** X8.  [Stat] makes one native stat and never returns [EIO] (it reports
    [EBADF] instead); when it returns zero, a following [IsDir] or
    [isDirErrno] is answered from what it cached, the type bits of the
    mode it returned, with no further native call. *)
Theorem Stat_caches_what_IsDir_needs (s : FsFile.State H) :
  let r := FsFile.Stat fl s in
  snd (fst r) <> EIO
  /\ FsFile.log (snd r) = FsFile.log s ++ [FsFile.NStat]
  /\ (snd (fst r) = 0 ->
      FsFile.IsDir fl (snd r)
        = ((FileMode_Type (st_Mode (fst (fst r))) =? ModeDir, 0), snd r)
      /\ FsFile.isDirErrno fl (snd r)
         = ((if FileMode_Type (st_Mode (fst (fst r))) =? ModeDir
             then EISDIR else 0), snd r)).
Proof.
  cbv zeta. destruct (Stat_shape s) as (Hne & _ & _ & Hl & _ & _).
  cbv zeta in Hne, Hl. split; [exact Hne|]. split; [exact Hl|].
  destruct (FsFile.Stat fl s) as [[st e] s1] eqn:Est. cbn [fst snd].
  intros ->. pose proof (Stat_sets_cache H fl s s1 st Est) as Ec.
  assert (T : FileMode_Type (Z.land (st_Mode st) ModeType)
              = FileMode_Type (st_Mode st)).
  { unfold FileMode_Type. rewrite <- Z.land_assoc, Z.land_diag. reflexivity. }
  assert (I : FsFile.IsDir fl s1
              = ((FileMode_Type (st_Mode st) =? ModeDir, 0), s1)).
  { unfold FsFile.IsDir, FsFile.cachedStat, bind, gets. rewrite Ec.
    cbn [FsFile.fileType ret negb Z.eqb]. rewrite T.
    destruct (FileMode_Type (st_Mode st) =? _); reflexivity. }
  split; [exact I|].
  unfold FsFile.isDirErrno, bind. rewrite I. cbn.
  destruct (FileMode_Type (st_Mode st) =? _); reflexivity.
Qed.

End FsFileSequences.

(** ** Descriptor-level methods of [fsFile] *)

Section FsFileFdFacts.

Variables H Dirent : Type.
Variable U : error -> Errno.
Variable fl : FsFile.File H.
Variable fd : FsFileFd.Fd H Dirent.

(** X9.  [SetNonblock] on a handle without a descriptor is [ENOSYS] and
    changes nothing.  With one, the primitive is called once with that
    descriptor; [IsNonblock] then reports the new value when the primitive
    succeeded and the old one when it failed. *)
Theorem SetNonblock_then_IsNonblock (s : FsFileFd.State H) (enable : bool) :
  let r := FsFileFd.SetNonblock U fd enable s in
  match FsFileFd.fd_Fd fd with
  | None => r = (ENOSYS, s)
  | Some Fd =>
      let h := FsFile.handle (FsFileFd.base s) in
      let err := fst (FsFileFd.fd_setNonblock fd (Fd h) enable h) in
      fst r = (if is_nil err then 0 else U err)
      /\ fst (FsFileFd.IsNonblock (snd r))
         = (if is_nil err then enable else fst (FsFileFd.IsNonblock s))
      /\ FsFileFd.fdcalls (snd r)
         = FsFileFd.fdcalls s ++ [FsFileFd.FdSetNonblock (Fd h) enable]
  end.
Proof.
  cbv zeta. unfold FsFileFd.SetNonblock.
  destruct (FsFileFd.fd_Fd fd) as [Fd|]; [|reflexivity].
  unfold bind, gets, FsFileFd.primitive.
  destruct (FsFileFd.fd_setNonblock fd (Fd (FsFile.handle (FsFileFd.base s)))
              enable (FsFile.handle (FsFileFd.base s))) as [err h'].
  cbn [fst]. destruct err as [e|]; cbn; repeat split.
Qed.

(** X10.  [Readdir] reaches the directory-reading primitive only when
    [IsDir] says directory; otherwise it returns no entries and a non-zero
    errno, [ENOTDIR] for a file of another type.  On the handle it costs
    the type check only: one native stat, none with a cached type. *)
Theorem Readdir_lists_directories_only (s : FsFileFd.State H) (n : Z) :
  let r := FsFileFd.Readdir fl fd n s in
  let b := FsFileFd.base s in
  FsFile.log (FsFileFd.base (snd r)) = FsFile.log b ++ FsFile.stat_cost b
  /\ ((fst (fst r) = [] /\ snd (fst r) <> 0
       /\ FsFileFd.fdcalls (snd r) = FsFileFd.fdcalls s)
      \/ (fst (FsFile.IsDir fl b) = (true, 0)
          /\ FsFileFd.fdcalls (snd r)
             = FsFileFd.fdcalls s ++ [FsFileFd.FdReaddir n]))
  /\ (fst (FsFile.IsDir fl b) = (false, 0) -> fst r = ([], ENOTDIR)).
Proof.
  cbv zeta. unfold FsFileFd.Readdir, bind, FsFileFd.on_base.
  pose proof (IsDir_frame H fl (FsFileFd.base s)) as E.
  pose proof (cachedStat_frame H fl (FsFileFd.base s)) as (_ & _ & _ & Hl).
  cbv zeta in Hl. rewrite <- E in Hl.
  destruct (FsFile.IsDir fl (FsFileFd.base s)) as [[d e] b1].
  cbn [fst snd] in *.
  destruct (Z.eqb_spec e 0) as [->|Hne]; cbn [negb].
  - destruct d; cbn [negb].
    + unfold FsFileFd.primitive. cbn [FsFileFd.base FsFileFd.fdcalls].
      destruct (FsFileFd.fd_readdir fd n (FsFile.handle b1)) as [res h'].
      cbn. split; [exact Hl|]. split; [right; auto | discriminate].
    + cbn. split; [exact Hl|]. split; [|reflexivity].
      left. repeat split. discriminate.
  - cbn. split; [exact Hl|]. split; [left; auto|]. intros Z0. inversion Z0.
    contradiction.
Qed.

End FsFileFdFacts.

(** ** [stdioFile] *)

Section StdioFacts.

Variable H : Type.
Variable U : error -> Errno.
Variable fl : FsFile.File H.
Variable file_Info : H -> (FileMode * error) * H.

Lemma promoted_step {A : Type} (m : M (FsFile.State H) A)
  (f : StdioFile.stdioFile H) :
  FsFileOps.step false false (StdioFile.fsFile f) (snd (m (StdioFile.fsFile f))) ->
  StdioFile.st (snd (StdioFile.promoted H m f)) = StdioFile.st f
  /\ FsFileOps.step false false (StdioFile.fsFile f)
       (StdioFile.fsFile (snd (StdioFile.promoted H m f))).
Proof.
  unfold StdioFile.promoted. destruct (m (StdioFile.fsFile f)) as [a b].
  cbn. auto.
Qed.

Lemma stdio_call_step (c : StdioFile.Call) (f : StdioFile.stdioFile H) :
  StdioFile.st (snd (StdioFile.call U fl c f)) = StdioFile.st f
  /\ FsFileOps.step false false (StdioFile.fsFile f)
       (StdioFile.fsFile (snd (StdioFile.call U fl c f))).
Proof.
  destruct c; cbn [StdioFile.call]; rewrite snd_drop;
    try (split; [reflexivity | apply step_refl]);
    unfold StdioFile.Read, StdioFile.Pread, StdioFile.Write, StdioFile.Pwrite,
      StdioFile.Seek, StdioFile.Truncate;
    apply promoted_step.
  - apply step_Read.
  - apply step_Pread.
  - apply step_Write.
  - apply step_Pwrite.
  - apply step_Seek.
  - apply step_Truncate.
Qed.

Lemma stdio_calls_step (cs : list StdioFile.Call) (f : StdioFile.stdioFile H) :
  StdioFile.st (snd (StdioFile.calls U fl cs f)) = StdioFile.st f
  /\ FsFileOps.step false false (StdioFile.fsFile f)
       (StdioFile.fsFile (snd (StdioFile.calls U fl cs f))).
Proof.
  revert f. induction cs as [|c rest IH]; intros f; cbn [StdioFile.calls].
  - split; [reflexivity | apply step_refl].
  - unfold bind. destruct (stdio_call_step c f) as [S1 T1].
    destruct (StdioFile.call U fl c f) as [[] f1]. cbn [snd] in S1, T1.
    destruct (IH f1) as [S2 T2]. split; [congruence|].
    apply (step_trans _ _ _ _ (StdioFile.fsFile f1)); assumption.
Qed.

(** X11.  A file made by [NewStdioFile] keeps, across any calls, the
    constant stat result made of the mode read at construction and a link
    count of one; it is never a directory, [Close] never reaches the
    handle, and the handle of standard input is never written while that
    of the outputs is never read. *)
Theorem stdio_file_keeps_its_direction (stdin : bool) (h : H)
  (f : StdioFile.stdioFile H) (cs : list StdioFile.Call) :
  StdioFile.NewStdioFile file_Info stdin h = (Some f, None) ->
  let f' := snd (StdioFile.calls U fl cs f) in
  let l := FsFile.log (StdioFile.fsFile f') in
  StdioFile.Stat f' = ((mkStat (fst (fst (file_Info h))) 1 0 0 0 0, 0), f')
  /\ StdioFile.IsDir f' = ((false, 0), f')
  /\ StdioFile.Close f' = (0, f')
  /\ FsFile.accessMode (FsFile.self (StdioFile.fsFile f'))
     = (if stdin then O_RDONLY else O_WRONLY)
  /\ filter FsFileOps.closes l = []
  /\ (stdin = true -> filter FsFileOps.writes l = [])
  /\ (stdin = false -> filter FsFileOps.reads l = []).
Proof.
  intros E f' l. unfold StdioFile.NewStdioFile in E.
  destruct (file_Info h) as [[mode err] h'].
  destruct err as [e|]; cbn [is_nil negb] in E; [discriminate|].
  inversion E as [Ef]. clear E.
  destruct (stdio_calls_step cs f) as [Hst [[c' [Hs _]] [l' (Hl & Hw & Hr & _ & Hcl)]]].
  fold f' in Hst, Hs, Hl.
  rewrite <- Ef in Hst, Hs, Hl, Hw, Hr.
  cbn [StdioFile.fsFile StdioFile.st FsFile.self FsFile.log FsFile.accessMode
       app] in Hst, Hs, Hl, Hw, Hr.
  cbn [fst]. split.
  - unfold StdioFile.Stat, bind, gets, ret. rewrite Hst. reflexivity.
  - split; [reflexivity|]. split; [reflexivity|]. split.
    + rewrite Hs. reflexivity.
    + subst l. rewrite Hl. split; [exact (Hcl eq_refl)|]. split.
      * intros ->. apply Hw. reflexivity.
      * intros ->. apply Hr. reflexivity.
Qed.

End StdioFacts.

(** X12.  [NewReadFS] is idempotent: wrapping again, any number of times,
    returns the same value.  It returns a [*readFS] and an
    [UnimplementedFS] as they are, and wraps a filesystem of any other
    kind in exactly one [readFS], so at most one read-only layer is ever
    added. *)
Theorem NewReadFS_never_adds_a_second_layer :
  forall (Impl : Type) (fs : NewReadFS.FSValue Impl) (n : nat),
    NewReadFS.NewReadFS (NewReadFS.NewReadFS fs) = NewReadFS.NewReadFS fs
    /\ Nat.iter n NewReadFS.NewReadFS (NewReadFS.NewReadFS fs)
       = NewReadFS.NewReadFS fs
    /\ (forall inner : NewReadFS.FSValue Impl,
          NewReadFS.NewReadFS (NewReadFS.IsReadFS inner)
          = NewReadFS.IsReadFS inner)
    /\ NewReadFS.NewReadFS (@NewReadFS.IsUnimplementedFS Impl)
       = NewReadFS.IsUnimplementedFS
    /\ (forall impl : Impl,
          NewReadFS.NewReadFS (NewReadFS.IsOther impl)
          = NewReadFS.IsReadFS (NewReadFS.IsOther impl)
          /\ NewReadFS.layers (NewReadFS.NewReadFS (NewReadFS.IsOther impl))
             = 1%nat)
    /\ (NewReadFS.layers fs <= 1 ->
        NewReadFS.layers (NewReadFS.NewReadFS fs) <= 1)%nat.
Proof.
  intros Impl fs n.
  assert (I : NewReadFS.NewReadFS (NewReadFS.NewReadFS fs) = NewReadFS.NewReadFS fs)
    by (destruct fs; reflexivity).
  split; [exact I|]. split; [|split; [|split; [|split]]].
  - induction n as [|n IH]; [reflexivity|].
    change (Nat.iter (S n) NewReadFS.NewReadFS (NewReadFS.NewReadFS fs))
      with (NewReadFS.NewReadFS
              (Nat.iter n NewReadFS.NewReadFS (NewReadFS.NewReadFS fs))).
    rewrite IH. exact I.
  - reflexivity.
  - reflexivity.
  - intros impl. split; reflexivity.
  - destruct fs; cbn; lia.
Qed.

(** ** [adapter.Stat] *)

Section AdapterStatFacts.

Variables N Fh : Type.
Variable U : error -> Errno.
Variable fl : FsFile.File Fh.

(** X13.  [adapter.Stat] opens the cleaned path once.  When the open
    fails it returns the zero stat with the translated error and touches
    no handle; otherwise the handle gets exactly one stat followed by one
    close, and the errno is never [EIO].  [Lstat] is the same function. *)
Theorem adapter_Stat_closes_what_it_opens (a : Adapter.adapter N Fh)
  (path : string) (w : AdapterStat.World N) :
  let r := AdapterStat.Stat U fl a path w in
  let opening :=
    Adapter.fs_Open N Fh (Adapter.fs N Fh a) (Adapter.cleanPath path)
      (Adapter.ns (AdapterStat.world w)) in
  Adapter.opened (AdapterStat.world (snd r))
    = Adapter.opened (AdapterStat.world w) ++ [Adapter.cleanPath path]
  /\ (if is_nil (snd (fst opening))
      then AdapterStat.handle_calls (snd r)
             = AdapterStat.handle_calls w ++ [FsFile.NStat; FsFile.NClose]
           /\ snd (fst r) <> EIO
      else AdapterStat.handle_calls (snd r) = AdapterStat.handle_calls w
           /\ fst r = (Stat_zero, U (snd (fst opening))))
  /\ AdapterStat.Lstat U fl a path w = r.
Proof.
  cbv zeta. unfold AdapterStat.Lstat, AdapterStat.Stat, Adapter.call_Open.
  destruct (Adapter.fs_Open N Fh (Adapter.fs N Fh a) (Adapter.cleanPath path)
              (Adapter.ns (AdapterStat.world w))) as [[f err] n1].
  cbn [fst snd]. destruct err as [e|]; cbn [is_nil negb].
  - cbn. repeat split.
  - pose proof (Stat_shape Fh fl
                  (FsFile.mkState (FsFile.NewFsFile path O_RDONLY) f []))
      as (Hne & _ & _ & Hlog & _).
    cbv zeta in Hne, Hlog.
    destruct (FsFile.Stat fl
                (FsFile.mkState (FsFile.NewFsFile path O_RDONLY) f []))
      as [r s1].
    cbn [fst snd FsFile.log app] in Hne, Hlog.
    unfold FsFile.native.
    destruct (FsFile.file_Close fl (FsFile.handle s1)) as [cerr h2].
    cbn. rewrite Hlog. repeat split. exact Hne.
Qed.

End AdapterStatFacts.

(** ** [readFile] over an [fsFile] *)

Section ReadFileOverFsFile.

Variable H : Type.
Variable U : error -> Errno.
Variable fl : FsFile.File H.

(** X14.  The mutating methods of a [readFile] over an [fsFile] never
    reach past the type check: [Write], [Pwrite] and [Truncate] cost the
    handle one native stat at most (none with a cached type), and [Sync],
    [Datasync], [Chmod], [Chown] and [Utimens] return [EBADF] without
    touching the file. *)
Theorem readFile_never_reaches_the_handle
  (r : ReadFile.readFile (FsFile.State H)) (p : list byte)
  (off size uid gid : Z) (mode : FileMode) (times : option (Z * Z)) :
  let impl := fsFile_File U fl in
  let checked (r' : ReadFile.readFile (FsFile.State H)) :=
    FsFile.handle (ReadFile.f r') = FsFile.handle_after_check fl (ReadFile.f r)
    /\ FsFile.log (ReadFile.f r')
       = FsFile.log (ReadFile.f r) ++ FsFile.stat_cost (ReadFile.f r) in
  checked (snd (@ReadFile.Write _ impl p r))
  /\ checked (snd (@ReadFile.Pwrite _ impl p off r))
  /\ checked (snd (@ReadFile.Truncate _ impl size r))
  /\ ReadFile.Sync r = (EBADF, r)
  /\ ReadFile.Datasync r = (EBADF, r)
  /\ ReadFile.Chmod mode r = (EBADF, r)
  /\ ReadFile.Chown uid gid r = (EBADF, r)
  /\ ReadFile.Utimens times r = (EBADF, r).
Proof.
  intros impl checked.
  assert (W : checked (snd (@ReadFile.writeErr _ impl r))).
  { unfold checked, ReadFile.writeErr, ReadFile.IsDir, ReadFile.on_f, bind.
    cbn [File_IsDir impl fsFile_File].
    pose proof (IsDir_frame H fl (ReadFile.f r)) as E.
    pose proof (cachedStat_frame H fl (ReadFile.f r)) as (_ & _ & Hh & Hl).
    rewrite <- E in Hh, Hl.
    destruct (FsFile.IsDir fl (ReadFile.f r)) as [[d e] s1].
    cbn [snd] in Hh, Hl.
    destruct (negb (e =? 0)); [|destruct d]; cbn; auto. }
  assert (D : forall (A : Type) (k : Errno -> A),
            snd (bind (@ReadFile.writeErr _ impl) (fun e => ret (k e)) r)
            = snd (@ReadFile.writeErr _ impl r)).
  { intros A k. unfold bind, ret.
    destruct (@ReadFile.writeErr _ impl r); reflexivity. }
  unfold ReadFile.Write, ReadFile.Pwrite, ReadFile.Truncate.
  rewrite !D. repeat split; try exact W; apply W.
Qed.

End ReadFileOverFsFile.

(** ** Sequences of calls on a [windowsWrappedFile] *)

Section WindowsSequences.

Variables Hd N FileInfo DirEntry : Type.
Variable sys : WindowsWrappedFile.OS Hd N FileInfo DirEntry.

Local Abbreviation State := (WindowsWrappedFile.State Hd N).
Local Abbreviation self := WindowsWrappedFile.self.

Lemma wstep_refl (s : State) : WindowsOps.step s s.
Proof.
  repeat split; auto. exists []. rewrite app_nil_r. auto.
Qed.

Lemma wstep_trans (s s1 s2 : State) :
  WindowsOps.step s s1 -> WindowsOps.step s1 s2 -> WindowsOps.step s s2.
Proof.
  intros (P1 & F1 & M1 & T1 & l1 & L1 & S1) (P2 & F2 & M2 & T2 & l2 & L2 & S2).
  repeat split; try congruence.
  - intros ft E. auto.
  - exists (l1 ++ l2). split.
    + rewrite L2, L1, app_assoc. reflexivity.
    + intros Hc. rewrite filter_app, (S1 Hc).
      rewrite S2; [reflexivity|].
      destruct (WindowsWrappedFile.fileType (self s)) as [ft|] eqn:E;
        [|congruence].
      rewrite (T1 ft eq_refl). discriminate.
Qed.

(** A native call other than the stat, which leaves the wrapper alone. *)
Lemma wstep_syscall {A : Type} (c : WindowsWrappedFile.OSCall Hd)
  (op : N -> A * N) (s : State) :
  WindowsOps.is_stat c = false ->
  WindowsOps.step s (snd (WindowsWrappedFile.syscall Hd N c op s)).
Proof.
  intros Hc. unfold WindowsWrappedFile.syscall.
  destruct (op (WindowsWrappedFile.os s)) as [a n]. cbn [snd].
  repeat split; auto. exists [c]. split; [reflexivity|].
  intros _. cbn. rewrite Hc. reflexivity.
Qed.

Lemma wstep_getFileType (s : State) :
  WindowsOps.step s (snd (WindowsWrappedFile.getFileType sys s)).
Proof.
  rewrite getFileType_cases.
  destruct (WindowsWrappedFile.fileType (self s)) as [ft|] eqn:E.
  - apply wstep_refl.
  - cbv zeta.
    destruct (WindowsWrappedFile.os_statFile _ _ _ _ sys _ _) as [[st errno] n].
    destruct (negb (errno =? 0)); cbn [snd];
      (repeat split; cbn; auto; try congruence;
       eexists; split; [reflexivity | congruence]).
Qed.

(** [getFileType] returns no error. *)
Lemma getFileType_no_error (s : State) :
  snd (fst (WindowsWrappedFile.getFileType sys s)) = None.
Proof.
  rewrite getFileType_cases.
  destruct (WindowsWrappedFile.fileType (self s)); [reflexivity|].
  cbv zeta.
  destruct (WindowsWrappedFile.os_statFile _ _ _ _ sys _ _) as [[st errno] n].
  destruct (negb (errno =? 0)); reflexivity.
Qed.

(** What [requireFile] returns: nothing, or a [PathError] of the
    operation and path carrying [EBADF] or [ENOTDIR]. *)
Lemma requireFile_shape (s : State) (op : string) (readOnly isDir : bool) :
  exists e s1,
    WindowsWrappedFile.requireFile sys op readOnly isDir s = (e, s1)
    /\ WindowsOps.step s s1
    /\ (e = None
        \/ e = Some (ErrPath op (WindowsWrappedFile.path (self s)) (ErrErrno EBADF))
        \/ e = Some (ErrPath op (WindowsWrappedFile.path (self s)) (ErrErrno ENOTDIR))).
Proof.
  unfold WindowsWrappedFile.requireFile, WindowsWrappedFile.this, gets, bind.
  destruct (WindowsWrappedFile.closed (self s)).
  { eexists _, _. split; [reflexivity|].
    split; [apply wstep_refl | right; left; reflexivity]. }
  destruct (readOnly && _).
  { eexists _, _. split; [reflexivity|].
    split; [apply wstep_refl | right; left; reflexivity]. }
  pose proof (wstep_getFileType s) as St.
  pose proof (getFileType_no_error s) as Ne.
  destruct (WindowsWrappedFile.getFileType sys s) as [[ft err] s1].
  cbn [fst snd] in St, Ne. subst err. cbn [is_nil andb].
  destruct (negb (Bool.eqb isDir (FileMode_IsDir ft))).
  - destruct isDir; eexists _, _; (split; [reflexivity|]);
      (split; [exact St|]); auto.
  - eexists _, _. split; [reflexivity|]. split; [exact St | left; reflexivity].
Qed.

Lemma wstep_maybeInitDir (s : State) :
  WindowsOps.step s (snd (WindowsWrappedFile.maybeInitDir sys s)).
Proof.
  unfold WindowsWrappedFile.maybeInitDir, WindowsWrappedFile.this, gets.
  unfold bind at 1.
  destruct (WindowsWrappedFile.dirInitialized (self s)); [apply wstep_refl|].
  unfold bind at 1.
  pose proof (wstep_syscall
                (WindowsWrappedFile.OSClose (WindowsWrappedFile.osFile (self s)))
                (WindowsWrappedFile.os_Close _ _ _ _ sys
                   (WindowsWrappedFile.osFile (self s))) s eq_refl) as S1.
  destruct (WindowsWrappedFile.syscall _ _ _ _ s) as [err s1].
  cbn [snd] in S1.
  destruct (negb (is_nil err)); [exact S1|].
  unfold bind at 1.
  pose proof (wstep_syscall
                (WindowsWrappedFile.OSOpenFile (WindowsWrappedFile.path (self s))
                   (WindowsWrappedFile.flag (self s))
                   (WindowsWrappedFile.perm (self s)))
                (WindowsWrappedFile.os_openFile _ _ _ _ sys
                   (WindowsWrappedFile.path (self s))
                   (WindowsWrappedFile.flag (self s))
                   (WindowsWrappedFile.perm (self s))) s1 eq_refl) as S2.
  destruct (WindowsWrappedFile.syscall _ _ _ _ s1) as [[newW errno] s2].
  cbn [snd] in S2. pose proof (wstep_trans _ _ _ S1 S2) as S12.
  destruct (negb (errno =? 0)); [exact S12|].
  apply (wstep_trans _ _ _ S12).
  unfold bind, WindowsWrappedFile.update_self, modify, ret. cbn.
  repeat split; auto. exists []. rewrite app_nil_r. auto.
Qed.

Lemma wstep_Readdir (s : State) (n : Z) :
  WindowsOps.step s (snd (WindowsWrappedFile.Readdir sys n s)).
Proof.
  unfold WindowsWrappedFile.Readdir. unfold bind at 1.
  destruct (requireFile_shape s "Readdir" false true) as (err & s1 & -> & S1 & _). destruct (negb (is_nil err)); [exact S1|].
  unfold bind at 1. pose proof (wstep_maybeInitDir s1) as S2.
  destruct (WindowsWrappedFile.maybeInitDir sys s1) as [err2 s2].
  cbn [snd] in S2. pose proof (wstep_trans _ _ _ S1 S2) as S12.
  destruct (negb (is_nil err2)); [exact S12|].
  unfold bind, WindowsWrappedFile.this, gets.
  apply (wstep_trans _ _ _ S12). apply wstep_syscall. reflexivity.
Qed.

Lemma wstep_ReadDir (s : State) (n : Z) :
  WindowsOps.step s (snd (WindowsWrappedFile.ReadDir sys n s)).
Proof.
  unfold WindowsWrappedFile.ReadDir. unfold bind at 1.
  destruct (requireFile_shape s "ReadDir" false true) as (err & s1 & -> & S1 & _). destruct (negb (is_nil err)); [exact S1|].
  unfold bind at 1. pose proof (wstep_maybeInitDir s1) as S2.
  destruct (WindowsWrappedFile.maybeInitDir sys s1) as [err2 s2].
  cbn [snd] in S2. pose proof (wstep_trans _ _ _ S1 S2) as S12.
  destruct (negb (is_nil err2)); [exact S12|].
  unfold bind, WindowsWrappedFile.this, gets.
  apply (wstep_trans _ _ _ S12). apply wstep_syscall. reflexivity.
Qed.

Lemma wstep_Write (s : State) (p : list byte) :
  WindowsOps.step s (snd (WindowsWrappedFile.Write sys p s)).
Proof.
  unfold WindowsWrappedFile.Write. unfold bind at 1.
  destruct (requireFile_shape s "Write" false false) as (err & s1 & -> & S1 & _). destruct (negb (is_nil err)); [exact S1|].
  unfold bind, WindowsWrappedFile.this, gets.
  pose proof (wstep_syscall
                (WindowsWrappedFile.OSWrite (WindowsWrappedFile.osFile (self s1)) p)
                (WindowsWrappedFile.os_Write _ _ _ _ sys
                   (WindowsWrappedFile.osFile (self s1)) p) s1 eq_refl) as S2.
  destruct (WindowsWrappedFile.syscall _ _ _ _ s1) as [[n err2] s2].
  cbn [snd] in S2.
  destruct (WindowsWrappedFile.errors_Is err2 _); cbn [snd ret];
    exact (wstep_trans _ _ _ S1 S2).
Qed.

Lemma wstep_Close (s : State) :
  WindowsOps.step s (snd (WindowsWrappedFile.Close sys s)).
Proof.
  unfold WindowsWrappedFile.Close, WindowsWrappedFile.this, gets.
  unfold bind at 1.
  destruct (WindowsWrappedFile.closed (self s)); [apply wstep_refl|].
  unfold bind at 1.
  pose proof (wstep_syscall
                (WindowsWrappedFile.OSClose (WindowsWrappedFile.osFile (self s)))
                (WindowsWrappedFile.os_Close _ _ _ _ sys
                   (WindowsWrappedFile.osFile (self s))) s eq_refl) as S1.
  destruct (WindowsWrappedFile.syscall _ _ _ _ s) as [err s1].
  cbn [snd] in S1.
  destruct (negb (is_nil err)); [|exact S1].
  apply (wstep_trans _ _ _ S1).
  unfold bind, WindowsWrappedFile.update_self, modify, ret. cbn.
  repeat split; auto. exists []. rewrite app_nil_r. auto.
Qed.

Lemma snd_then_ret {A : Type} (m : M State A) (s : State) :
  snd ((m ;;; ret tt) s) = snd (m s).
Proof.
  unfold bind, ret. destruct (m s); reflexivity.
Qed.

Lemma wstep_run (o : WindowsOps.Op) (s : State) :
  WindowsOps.step s (snd (WindowsOps.run sys o s)).
Proof.
  destruct o; unfold WindowsOps.run; rewrite snd_then_ret.
  - apply wstep_refl.
  - apply wstep_Readdir.
  - apply wstep_ReadDir.
  - apply wstep_Write.
  - apply wstep_Close.
Qed.

Lemma wstep_runs (ops : list WindowsOps.Op) (s : State) :
  WindowsOps.step s (snd (WindowsOps.runs sys ops s)).
Proof.
  revert s. induction ops as [|o ops IH]; intros s.
  - apply wstep_refl.
  - cbn [WindowsOps.runs]. unfold bind.
    pose proof (wstep_run o s) as S1.
    destruct (WindowsOps.run sys o s) as [[] s1]. cbn [snd] in S1.
    exact (wstep_trans _ _ _ S1 (IH s1)).
Qed.

(** X16.  No sequence of calls on a [windowsWrappedFile] changes its path,
    flag or permissions, so a reopen always uses those of the first open;
    a cached file type is kept, and with it no native stat is made. *)
Theorem wrapper_keeps_path_flags_and_type (ops : list WindowsOps.Op)
  (s : State) :
  let s' := snd (WindowsOps.runs sys ops s) in
  WindowsWrappedFile.Path Hd N s' = (WindowsWrappedFile.path (self s), s')
  /\ WindowsWrappedFile.flag (self s') = WindowsWrappedFile.flag (self s)
  /\ WindowsWrappedFile.perm (self s') = WindowsWrappedFile.perm (self s)
  /\ exists l, WindowsWrappedFile.log s' = WindowsWrappedFile.log s ++ l
       /\ forall ft,
            WindowsWrappedFile.fileType (self s) = Some ft ->
            WindowsWrappedFile.fileType (self s') = Some ft
            /\ filter WindowsOps.is_stat l = [].
Proof.
  cbv zeta. destruct (wstep_runs ops s) as (P & F & M' & T & l & L & S).
  split; [|split; [exact F | split; [exact M'|]]].
  - unfold WindowsWrappedFile.Path, gets. rewrite P. reflexivity.
  - exists l. split; [exact L|]. intros ft E. split; [auto|].
    apply S. congruence.
Qed.


(** X18.  The type guards of an open wrapper: [Write] on a directory is a
    [PathError] with [EBADF], [Readdir] and [ReadDir] on anything else a
    [PathError] with [ENOTDIR]; in both cases the only native call is the
    stat that found the type. *)
Theorem wrapper_type_guards (s s1 : State) (ft : FileMode) (e : error)
  (n : Z) (p : list byte) :
  WindowsWrappedFile.closed (self s) = false ->
  WindowsWrappedFile.getFileType sys s = ((ft, e), s1) ->
  let pth := WindowsWrappedFile.path (self s) in
  (FileMode_IsDir ft = true ->
   WindowsWrappedFile.Write sys p s
     = ((0, Some (ErrPath "Write" pth (ErrErrno EBADF))), s1))
  /\ (FileMode_IsDir ft = false ->
      WindowsWrappedFile.Readdir sys n s
        = (([], Some (ErrPath "Readdir" pth (ErrErrno ENOTDIR))), s1)
      /\ WindowsWrappedFile.ReadDir sys n s
         = (([], Some (ErrPath "ReadDir" pth (ErrErrno ENOTDIR))), s1)).
Proof.
  intros Hopen G pth.
  pose proof (getFileType_no_error s) as Ne. rewrite G in Ne. cbn in Ne. subst e.
  assert (R : forall op d,
            WindowsWrappedFile.requireFile sys op false d s
            = ((if negb (Bool.eqb d (FileMode_IsDir ft))
                then Some (ErrPath op pth (ErrErrno (if d then ENOTDIR else EBADF)))
                else None), s1)).
  { intros op d.
    unfold WindowsWrappedFile.requireFile, WindowsWrappedFile.this, gets.
    unfold bind at 1. rewrite Hopen. cbn [andb]. unfold bind. rewrite G.
    cbn [is_nil andb].
    destruct (negb (Bool.eqb d (FileMode_IsDir ft))); [|reflexivity].
    destruct d; reflexivity. }
  split.
  - intros D. unfold WindowsWrappedFile.Write. unfold bind at 1.
    rewrite R, D. reflexivity.
  - intros D. split.
    + unfold WindowsWrappedFile.Readdir. unfold bind at 1.
      rewrite R, D. reflexivity.
    + unfold WindowsWrappedFile.ReadDir. unfold bind at 1.
      rewrite R, D. reflexivity.
Qed.

(** X19.  [Write] never returns an error that is [ERROR_ACCESS_DENIED]:
    the native one is replaced by [EBADF], and the errors of the guard
    carry [EBADF] or [ENOTDIR]. *)
Theorem Write_never_reports_access_denied (s : State) (p : list byte) :
  WindowsWrappedFile.errors_Is
    (snd (fst (WindowsWrappedFile.Write sys p s)))
    WindowsWrappedFile.ERROR_ACCESS_DENIED = false.
Proof.
  unfold WindowsWrappedFile.Write. unfold bind at 1.
  destruct (requireFile_shape s "Write" false false) as (err & s1 & -> & _ & Sh).
  destruct Sh as [-> | [-> | ->]]; cbn [is_nil negb]; try reflexivity.
  unfold bind, WindowsWrappedFile.this, gets.
  destruct (WindowsWrappedFile.syscall _ _ _ _ s1) as [[n err2] s2].
  destruct (WindowsWrappedFile.errors_Is err2 _) eqn:E; [reflexivity|exact E].
Qed.

(** X20.  [requireFile] with [readOnly] set fails with [EBADF] for every
    flag, without looking at the file: [flag & O_RDONLY] is zero whatever
    the flag, [O_RDONLY] being zero. *)
Theorem requireFile_readOnly_always_fails (s : State) (op : string)
  (isDir : bool) :
  WindowsWrappedFile.requireFile sys op true isDir s
  = (Some (ErrPath op (WindowsWrappedFile.path (self s)) (ErrErrno EBADF)), s).
Proof.
  unfold WindowsWrappedFile.requireFile, WindowsWrappedFile.this, bind, gets.
  destruct (WindowsWrappedFile.closed (self s)); [reflexivity|].
  unfold O_RDONLY. rewrite Z.land_0_r. reflexivity.
Qed.

End WindowsSequences.

(** ** [cleanPath]: rooted and empty paths *)

(** The first byte written to the buffer of [Clean] is the last of [out]. *)
Lemma first_written (pre suf : list ascii) :
  suf <> [] -> hd_error (rev (pre ++ suf)) = hd_error (rev suf).
Proof.
  intros Hs. rewrite rev_app_distr.
  destruct (rev suf) as [|c r] eqn:E; [|reflexivity].
  apply (f_equal (@rev ascii)) in E. rewrite rev_involutive in E.
  cbn in E. contradiction.
Qed.

Lemma backtrack_suffix (dotdot : nat) (popped : ascii) (out : list ascii) :
  exists pre, out = (pre ++ Path.backtrack dotdot popped out)%list.
Proof.
  revert popped. induction out as [|c tl IH]; intros popped.
  - exists []. reflexivity.
  - cbn [Path.backtrack].
    destruct ((dotdot <? List.length (c :: tl))%nat && negb (Path.is_slash popped)).
    + destruct (IH c) as [pre E]. exists (c :: pre). cbn. rewrite <- E. reflexivity.
    + exists []. reflexivity.
Qed.

Lemma backtrack_length (dotdot : nat) (popped : ascii) (out : list ascii) :
  (dotdot <= List.length out)%nat ->
  (dotdot <= List.length (Path.backtrack dotdot popped out))%nat.
Proof.
  revert popped. induction out as [|c tl IH]; intros popped Hl; [exact Hl|].
  cbn [Path.backtrack].
  destruct (dotdot <? List.length (c :: tl))%nat eqn:E; cbn [andb]; [|exact Hl].
  destruct (negb (Path.is_slash popped)); [|exact Hl].
  apply IH. apply Nat.ltb_lt in E. cbn in E. lia.
Qed.

Lemma copy_elem_pushes (rest out : list ascii) :
  exists pre, fst (Path.copy_elem rest out) = (pre ++ out)%list.
Proof.
  revert out. induction rest as [|c tl IH]; intros out.
  - exists []. reflexivity.
  - cbn. destruct (Path.is_slash c).
    + exists []. reflexivity.
    + destruct (IH (c :: out)) as [pre E]. exists (pre ++ [c])%list.
      rewrite E, <- app_assoc. reflexivity.
Qed.

(** A rooted path keeps its leading slash at the bottom of the buffer. *)
Lemma clean_loop_rooted (fuel : nat) (rest out : list ascii) :
  hd_error (rev out) = Some "/"%char ->
  hd_error (rev (Path.clean_loop fuel true rest out 1)) = Some "/"%char.
Proof.
  revert rest out. induction fuel as [|fuel IH]; intros rest out Hb; [exact Hb|].
  destruct rest as [|c tl]; [exact Hb|].
  assert (Hne : out <> []) by (intros ->; discriminate).
  cbn [Path.clean_loop].
  destruct (Path.is_slash c); [apply IH; exact Hb|].
  destruct (Path.is_dot c && Path.end_or_slash tl); [apply IH; exact Hb|].
  destruct (Path.is_dot c && Path.head_is_dot tl && Path.end_or_slash (List.tl tl)).
  - destruct (1 <? List.length out)%nat eqn:E.
    + apply IH. destruct out as [|x o]; [contradiction|].
      apply Nat.ltb_lt in E. cbn in E.
      destruct (backtrack_suffix 1 x o) as [pre Es].
      pose proof (backtrack_length 1 x o ltac:(lia)) as Hl.
      assert (Hb' : Path.backtrack 1 x o <> [])
        by (intros Z0; rewrite Z0 in Hl; cbn in Hl; lia).
      rewrite <- Hb.
      change (x :: o) with ([x] ++ o)%list. rewrite Es at 2.
      rewrite app_assoc. symmetry. apply first_written. exact Hb'.
    + cbn [negb]. apply IH. exact Hb.
  - cbv zeta.
    set (out1 := if (_ || _) then "/"%char :: out else out).
    assert (H1 : hd_error (rev out1) = Some "/"%char).
    { subst out1. destruct (_ || _); [|exact Hb].
      change ("/"%char :: out) with (["/"%char] ++ out)%list.
      rewrite first_written; assumption. }
    assert (Hne1 : out1 <> []) by (intros Z0; rewrite Z0 in H1; discriminate).
    destruct (copy_elem_pushes (c :: tl) out1) as [pre Ep].
    destruct (Path.copy_elem (c :: tl) out1) as [out2 rest'].
    cbn [fst] in Ep. apply IH. rewrite Ep, first_written; assumption.
Qed.

(** Nothing written for a path that is not rooted starts with a slash. *)
Lemma clean_loop_unrooted (fuel : nat) (rest out : list ascii) (dotdot : nat) :
  (forall c, hd_error (rev out) = Some c -> Path.is_slash c = false) ->
  forall c, hd_error (rev (Path.clean_loop fuel false rest out dotdot)) = Some c ->
            Path.is_slash c = false.
Proof.
  revert rest out dotdot.
  induction fuel as [|fuel IH]; intros rest out dotdot Hb; [exact Hb|].
  destruct rest as [|c tl]; [exact Hb|].
  cbn [Path.clean_loop].
  destruct (Path.is_slash c) eqn:Hc; [apply IH; exact Hb|].
  destruct (Path.is_dot c && Path.end_or_slash tl); [apply IH; exact Hb|].
  destruct (Path.is_dot c && Path.head_is_dot tl && Path.end_or_slash (List.tl tl)).
  - destruct (dotdot <? List.length out)%nat eqn:E.
    + apply IH. destruct out as [|x o]; [intros ? Z0; discriminate|].
      destruct (backtrack_suffix dotdot x o) as [pre Es].
      destruct (Path.backtrack dotdot x o) as [|y bt] eqn:Eb;
        [intros ? Z0; discriminate|].
      intros c0 H0. apply Hb. rewrite <- H0.
      change (x :: o) with ([x] ++ o)%list. rewrite Es, app_assoc.
      apply first_written. discriminate.
    + cbn [negb]. cbv zeta. apply IH.
      destruct out as [|x o].
      * cbn. intros c0 Z0. inversion Z0. reflexivity.
      * cbn [List.length Nat.ltb Nat.leb].
        intros c0 H0. apply Hb. rewrite <- H0.
        change ("."%char :: "."%char :: "/"%char :: x :: o)
          with (["."%char; "."%char; "/"%char] ++ x :: o)%list.
        symmetry. apply first_written. discriminate.
  - cbv zeta. cbn [andb orb negb].
    destruct out as [|x o].
    + cbn [List.length Nat.eqb negb].
      cbn [Path.copy_elem]. rewrite Hc.
      destruct (copy_elem_pushes tl [c]) as [pre Ep].
      destruct (Path.copy_elem tl [c]) as [out2 rest'].
      cbn [fst] in Ep. apply IH. rewrite Ep, first_written by discriminate.
      cbn. intros c0 Z0. inversion Z0. subst. exact Hc.
    + cbn [List.length Nat.eqb negb].
      destruct (copy_elem_pushes (c :: tl) ("/"%char :: x :: o)) as [pre Ep].
      destruct (Path.copy_elem (c :: tl) ("/"%char :: x :: o)) as [out2 rest'].
      cbn [fst] in Ep. apply IH. rewrite Ep.
      change ("/"%char :: x :: o) with (["/"%char] ++ x :: o)%list.
      rewrite app_assoc, first_written by discriminate. exact Hb.
Qed.

Lemma string_of_rev_head (out : list ascii) (c : ascii) :
  hd_error (rev out) = Some c ->
  exists s, string_of_list_ascii (rev out) = String c s.
Proof.
  destruct (rev out) as [|x r]; [discriminate|].
  intros E. inversion E. subst. eexists. reflexivity.
Qed.

Lemma prefix_slash (s : string) :
  String.prefix "/" s
  = match s with String c _ => Path.is_slash c | EmptyString => false end.
Proof.
  destruct s as [|c s]; [reflexivity|].
  change (String.prefix "/" (String c s))
    with (if ascii_dec "/" c then String.prefix "" s else false).
  unfold Path.is_slash.
  destruct (ascii_dec "/" c) as [<-|Hn].
  - rewrite Ascii.eqb_refl. destruct s; reflexivity.
  - symmetry. apply Ascii.eqb_neq. congruence.
Qed.

(** [Clean] keeps a path rooted or not as it was. *)
Lemma Clean_keeps_rootedness (p : string) :
  String.prefix "/" (Path.Clean p) = String.prefix "/" p.
Proof.
  rewrite !prefix_slash. unfold Path.Clean.
  destruct p as [|c tl]; [reflexivity|].
  cbn [list_ascii_of_string]. cbv zeta.
  destruct (Path.is_slash c) eqn:Hc.
  - pose proof (clean_loop_rooted (String.length (String c tl))
                  (list_ascii_of_string tl) ["/"%char] eq_refl) as Hr.
    destruct (Path.clean_loop _ true _ _ 1) as [|x o] eqn:E; [discriminate|].
    cbn [List.length Nat.eqb].
    destruct (string_of_rev_head _ _ Hr) as [s ->]. reflexivity.
  - pose proof (clean_loop_unrooted (String.length (String c tl))
                  (c :: list_ascii_of_string tl) [] 0
                  ltac:(intros ? Z0; discriminate)) as Hu.
    destruct (Path.clean_loop _ false _ _ 0) as [|x o] eqn:E; [reflexivity|].
    cbn [List.length Nat.eqb].
    destruct (hd_error (rev (x :: o))) as [c0|] eqn:Eh.
    + destruct (string_of_rev_head _ _ Eh) as [s ->]. apply Hu. reflexivity.
    + destruct (rev (x :: o)) as [|y r] eqn:Er; [|discriminate].
      apply (f_equal (@rev ascii)) in Er. rewrite rev_involutive in Er.
      discriminate.
Qed.

Lemma Clean_not_empty (p : string) : Path.Clean p <> ""%string.
Proof.
  unfold Path.Clean. destruct (list_ascii_of_string p) as [|c tl]; [discriminate|].
  cbv zeta.
  destruct (if Path.is_slash c then _ else _) as [|x o]; [discriminate|]. cbn [List.length Nat.eqb].
  destruct (rev (x :: o)) as [|y r] eqn:Er; [|discriminate].
  apply (f_equal (@rev ascii)) in Er. rewrite rev_involutive in Er.
  discriminate.
Qed.

(** X21.  [cleanPath] returns the empty path for the empty path only, and
    its result is rooted (starts with a slash) exactly when the name
    starts with two slashes: one leading slash is stripped, and
    [path.Clean] keeps a path rooted or relative as it was. *)
Theorem cleanPath_is_rooted_only_after_two_slashes (name : string) :
  (Adapter.cleanPath name = ""%string <-> name = ""%string)
  /\ String.prefix "/" (Adapter.cleanPath name) = String.prefix "//" name.
Proof.
  split.
  - split; [|intros ->; reflexivity].
    destruct name as [|c rest]; [reflexivity|]. cbn [Adapter.cleanPath].
    intros E. apply Clean_not_empty in E. contradiction.
  - destruct name as [|c rest]; [reflexivity|].
    cbn [Adapter.cleanPath]. cbv zeta. rewrite Clean_keeps_rootedness.
    change (String.prefix "//" (String c rest))
      with (if ascii_dec "/" c then String.prefix "/" rest else false).
    destruct (c =? "/")%char eqn:Hc.
    + apply Ascii.eqb_eq in Hc. subst c.
      destruct (ascii_dec "/" "/"); [reflexivity | contradiction].
    + apply Ascii.eqb_neq in Hc. rewrite prefix_slash.
      destruct (ascii_dec "/" c) as [Heq|_]; [congruence|].
      unfold Path.is_slash. apply Ascii.eqb_neq. exact Hc.
Qed.

(** ** Sequences of calls on a [readFS] *)

Section ReadFSSequences.

Variables W F : Type.
Variable r : ReadFS.readFS W F.

(** One call on a [readFS]: at most one call passes to the wrapped
    filesystem, never one that opens for writing, and a mutation passes
    nothing. *)
Lemma readFS_run_step (o : ReadFSOps.Op) (w : ReadFS.World W) :
  exists l,
    ReadFS.calls (snd (ReadFSOps.run r o w)) = ReadFS.calls w ++ l
    /\ filter ReadFSOps.opens_for_writing l = []
    /\ (List.length l <= 1)%nat
    /\ (ReadFSOps.is_mutation o = true -> ReadFSOps.run r o w = (EROFS, w)).
Proof.
  assert (Nothing : exists l : list ReadFS.FSCall,
            ReadFS.calls w = ReadFS.calls w ++ l
            /\ filter ReadFSOps.opens_for_writing l = []
            /\ (List.length l <= 1)%nat
            /\ (true = true -> (EROFS, w) = (EROFS, w))).
  { exists []. rewrite app_nil_r. cbn. auto. }
  destruct o; cbn [ReadFSOps.run ReadFSOps.is_mutation]; try exact Nothing.
  - unfold ReadFS.OpenFile, bind. cbv zeta.
    destruct ((Z.land flag (Z.lor (Z.lor O_RDONLY O_WRONLY) O_RDWR) =? O_WRONLY)
              || (Z.land flag (Z.lor (Z.lor O_RDONLY O_WRONLY) O_RDWR) =? O_RDWR))
      eqn:Em.
    + exists []. cbn. rewrite app_nil_r. repeat split; auto; discriminate.
    + unfold ReadFS.invoke.
      destruct (ReadFS.fs_OpenFile W F (ReadFS.fs r) path flag perm
                  (ReadFS.inner w)) as [[f e] i].
      exists [ReadFS.CallOpenFile path flag perm].
      destruct (negb (e =? 0)); cbn [snd ret ReadFS.calls];
        (split; [reflexivity|]); (split; [|split; [cbn; lia | discriminate]]);
        cbn [filter ReadFSOps.opens_for_writing]; cbv zeta; rewrite Em;
        reflexivity.
  - unfold ReadFS.Lstat, bind, ReadFS.invoke.
    destruct (ReadFS.fs_Lstat W F (ReadFS.fs r) path (ReadFS.inner w))
      as [[st e] i].
    exists [ReadFS.CallLstat path]. cbn. repeat split; auto; discriminate.
  - unfold ReadFS.Stat, bind, ReadFS.invoke.
    destruct (ReadFS.fs_Stat W F (ReadFS.fs r) path (ReadFS.inner w))
      as [[st e] i].
    exists [ReadFS.CallStat path]. cbn. repeat split; auto; discriminate.
  - unfold ReadFS.Readlink, bind, ReadFS.invoke.
    destruct (ReadFS.fs_Readlink W F (ReadFS.fs r) path (ReadFS.inner w))
      as [[st e] i].
    exists [ReadFS.CallReadlink path]. cbn. repeat split; auto; discriminate.
Qed.

(** X15.  Through a [readFS], whatever the calls, the wrapped filesystem
    never receives an [OpenFile] whose access mode is [O_WRONLY] or
    [O_RDWR], and receives at most one call per call made; a sequence of
    mutations returns [EROFS] each time and leaves it untouched. *)
Theorem read_only_mount_lets_no_write_through (ops : list ReadFSOps.Op)
  (w : ReadFS.World W) :
  let res := ReadFSOps.runs r ops w in
  (exists l,
     ReadFS.calls (snd res) = ReadFS.calls w ++ l
     /\ filter ReadFSOps.opens_for_writing l = []
     /\ (List.length l <= List.length ops)%nat)
  /\ List.length (fst res) = List.length ops
  /\ (forallb ReadFSOps.is_mutation ops = true ->
      snd res = w /\ Forall (fun e => e = EROFS) (fst res)).
Proof.
  cbv zeta. revert w. induction ops as [|o ops IH]; intros w.
  - cbn. split; [exists []; rewrite app_nil_r; auto|]. auto.
  - cbn [ReadFSOps.runs forallb]. unfold bind, ret.
    destruct (readFS_run_step o w) as (l1 & L1 & F1 & N1 & M1).
    destruct (ReadFSOps.run r o w) as [e w1] eqn:Er. cbn [snd] in L1.
    destruct (IH w1) as ((l2 & L2 & F2 & N2) & Len & M2).
    destruct (ReadFSOps.runs r ops w1) as [es w2]. cbn [fst snd] in *.
    split; [|split].
    + exists (l1 ++ l2). rewrite L2, L1, app_assoc, filter_app, F1, F2, length_app.
      repeat split. cbn [List.length]. lia.
    + cbn [List.length]. lia.
    + intros Hm. apply andb_prop in Hm. destruct Hm as [Ho Hrest].
      specialize (M1 Ho). inversion M1; subst.
      destruct (M2 Hrest) as [-> Hall]. split; [reflexivity|].
      constructor; [reflexivity | exact Hall].
Qed.

End ReadFSSequences.

(** ** The properties on sample files *)

Lemma read_only_fsFile_never_writes_witness :
  filter FsFileOps.writes
    (FsFile.log
       (snd (FsFileOps.calls Fixtures.UnwrapOSError Fixtures.osLike
               Samples.traffic
               (Fixtures.opened O_RDONLY (Fixtures.regular "abc")))))
  = filter FsFileOps.writes
      (FsFile.log (Fixtures.opened O_RDONLY (Fixtures.regular "abc"))).
Proof.
  apply (read_only_fsFile_never_writes Fixtures.MemFile Fixtures.UnwrapOSError
           Fixtures.osLike Samples.traffic
           (Fixtures.opened O_RDONLY (Fixtures.regular "abc"))).
  reflexivity.
Defined.

Lemma write_only_fsFile_never_reads_witness :
  filter FsFileOps.reads
    (FsFile.log
       (snd (FsFileOps.calls Fixtures.UnwrapOSError Fixtures.osLike
               Samples.traffic
               (Fixtures.opened O_WRONLY (Fixtures.regular "abc")))))
  = filter FsFileOps.reads
      (FsFile.log (Fixtures.opened O_WRONLY (Fixtures.regular "abc"))).
Proof.
  apply (write_only_fsFile_never_reads Fixtures.MemFile Fixtures.UnwrapOSError
           Fixtures.osLike Samples.traffic
           (Fixtures.opened O_WRONLY (Fixtures.regular "abc"))).
  reflexivity.
Defined.

Lemma cached_file_type_is_kept_witness :
  FsFile.cachedSt
    (FsFile.self
       (snd (FsFileOps.calls Fixtures.UnwrapOSError Fixtures.osLike
               Samples.traffic Samples.cachedFile)))
  = Some (FsFile.mkCachedStat 0)
  /\ filter FsFileOps.stats
       (FsFile.log
          (snd (FsFileOps.calls Fixtures.UnwrapOSError Fixtures.osLike
                  Samples.traffic Samples.cachedFile)))
     = filter FsFileOps.stats (FsFile.log Samples.cachedFile).
Proof.
  apply (cached_file_type_is_kept Fixtures.MemFile Fixtures.UnwrapOSError
           Fixtures.osLike Samples.traffic Samples.cachedFile
           (FsFile.mkCachedStat 0)); reflexivity.
Defined.

Lemma IsDir_answers_from_the_cache_witness :
  FsFile.IsDir Fixtures.osLike
    (snd (FsFile.IsDir Fixtures.osLike
            (Fixtures.opened O_RDONLY Fixtures.directory)))
  = ((true, 0),
     snd (FsFile.IsDir Fixtures.osLike
            (Fixtures.opened O_RDONLY Fixtures.directory)))
  /\ FsFile.isDirErrno Fixtures.osLike
       (snd (FsFile.IsDir Fixtures.osLike
               (Fixtures.opened O_RDONLY Fixtures.directory)))
     = (EISDIR,
        snd (FsFile.IsDir Fixtures.osLike
               (Fixtures.opened O_RDONLY Fixtures.directory))).
Proof.
  apply (IsDir_answers_from_the_cache Fixtures.MemFile Fixtures.osLike
           (Fixtures.opened O_RDONLY Fixtures.directory) _ true).
  reflexivity.
Defined.

Lemma failed_type_check_fails_every_data_call_witness :
  FsFile.Read Fixtures.UnwrapOSError Fixtures.osLike (Fixtures.bytes "a")
    (Fixtures.opened O_RDWR Fixtures.directory)
  = ((0, EISDIR, Fixtures.bytes "a"),
     snd (FsFile.isDirErrno Fixtures.osLike
            (Fixtures.opened O_RDWR Fixtures.directory)))
  /\ FsFile.Write Fixtures.UnwrapOSError Fixtures.osLike []
       (Fixtures.opened O_RDWR Fixtures.directory)
     = ((0, EISDIR),
        snd (FsFile.isDirErrno Fixtures.osLike
               (Fixtures.opened O_RDWR Fixtures.directory))).
Proof.
  pose proof (failed_type_check_fails_every_data_call Fixtures.MemFile
                Fixtures.UnwrapOSError Fixtures.osLike
                (Fixtures.opened O_RDWR Fixtures.directory) _ EISDIR
                (Fixtures.bytes "a") [] 0 0 0 0 eq_refl
                ltac:(discriminate) ltac:(discriminate))
    as (Hr & _ & _ & Hw & _).
  split; [exact Hr | exact Hw].
Defined.

Lemma missing_capability_is_ENOSYS_witness :
  FsFile.Write Fixtures.UnwrapOSError Samples.bare (Fixtures.bytes "a")
    (Fixtures.opened O_RDWR (Fixtures.regular "abc"))
  = ((0, ENOSYS),
     snd (FsFile.isDirErrno Samples.bare
            (Fixtures.opened O_RDWR (Fixtures.regular "abc"))))
  /\ FsFile.Read Fixtures.UnwrapOSError Samples.bare (Fixtures.bytes "a")
       (Fixtures.opened O_RDWR (Fixtures.regular "abc"))
     = ((0, EBADF, Fixtures.bytes "a"),
        snd (FsFile.isDirErrno Samples.bare
               (Fixtures.opened O_RDWR (Fixtures.regular "abc")))).
Proof.
  pose proof (missing_capability_is_ENOSYS Fixtures.MemFile
                Fixtures.UnwrapOSError Samples.bare
                (Fixtures.opened O_RDWR (Fixtures.regular "abc")) _
                (Fixtures.bytes "a") 0 0 0 0 0 eq_refl eq_refl
                ltac:(discriminate) ltac:(cbv; split; discriminate))
    as (_ & _ & Hw & _ & _ & _ & Hr).
  split; [exact (Hw eq_refl) | exact (Hr eq_refl)].
Defined.

Lemma stdio_file_keeps_its_direction_witness :
  StdioFile.NewStdioFile Samples.mem_info true (Fixtures.regular "abc")
  = (Some Samples.stdinFile, None)
  /\ filter FsFileOps.writes
       (FsFile.log
          (StdioFile.fsFile
             (snd (StdioFile.calls Fixtures.UnwrapOSError Fixtures.osLike
                     Samples.stdioTraffic Samples.stdinFile))))
     = [].
Proof.
  split; [reflexivity|].
  pose proof (stdio_file_keeps_its_direction Fixtures.MemFile
                Fixtures.UnwrapOSError Fixtures.osLike Samples.mem_info
                true (Fixtures.regular "abc") Samples.stdinFile
                Samples.stdioTraffic eq_refl)
    as (_ & _ & _ & _ & _ & Hw & _).
  exact (Hw eq_refl).
Defined.


Lemma wrapper_type_guards_witness :
  WindowsWrappedFile.Write Fixtures.winOS (Fixtures.bytes "x")
    (Fixtures.winState Fixtures.dirOS)
  = ((0, Some (ErrPath "Write" "dir" (ErrErrno EBADF))),
     snd (WindowsWrappedFile.getFileType Fixtures.winOS
            (Fixtures.winState Fixtures.dirOS)))
  /\ WindowsWrappedFile.Readdir Fixtures.winOS 1
       (Fixtures.winState Samples.fileOS)
     = (([], Some (ErrPath "Readdir" "dir" (ErrErrno ENOTDIR))),
        snd (WindowsWrappedFile.getFileType Fixtures.winOS
               (Fixtures.winState Samples.fileOS))).
Proof.
  split.
  - pose proof (wrapper_type_guards nat Fixtures.WinOS string string
                  Fixtures.winOS (Fixtures.winState Fixtures.dirOS) _
                  _ _ 1 (Fixtures.bytes "x") eq_refl eq_refl) as [Hw _].
    exact (Hw eq_refl).
  - pose proof (wrapper_type_guards nat Fixtures.WinOS string string
                  Fixtures.winOS (Fixtures.winState Samples.fileOS) _
                  _ _ 1 (Fixtures.bytes "x") eq_refl eq_refl) as [_ Hr].
    exact (proj1 (Hr eq_refl)).
Defined.

(** ** [path.Clean] and its lexical meaning *)

Lemma dot_is_no_slash (c : ascii) : Path.is_dot c = true -> Path.is_slash c = false.
Proof.
  unfold Path.is_dot, Path.is_slash. intros E. apply Ascii.eqb_eq in E.
  subst c. reflexivity.
Qed.

Lemma split_run (l : list ascii) :
  Lexical.split l
  = Lexical.run l ::
      match Lexical.after l with
      | [] => []
      | _ :: tl => Lexical.split tl
      end.
Proof.
  induction l as [|c tl IH]; [reflexivity|].
  cbn [Lexical.split Lexical.run Lexical.after].
  destruct (Path.is_slash c); [reflexivity|]. rewrite IH. reflexivity.
Qed.

Lemma after_slash (l : list ascii) (s : ascii) (tl : list ascii) :
  Lexical.after l = s :: tl -> Path.is_slash s = true.
Proof.
  induction l as [|c l IH]; cbn; [discriminate|].
  destruct (Path.is_slash c) eqn:E; [|exact IH].
  intros Z0. inversion Z0. subst. exact E.
Qed.

Lemma after_length (l : list ascii) :
  (List.length (Lexical.after l) <= List.length l)%nat.
Proof.
  induction l as [|c l IH]; cbn; [lia|].
  destruct (Path.is_slash c); cbn; lia.
Qed.

Lemma run_slash_free (l : list ascii) :
  Lexical.slash_free (Lexical.run l) = true.
Proof.
  induction l as [|c l IH]; [reflexivity|]. cbn [Lexical.run].
  destruct (Path.is_slash c) eqn:E; [reflexivity|].
  cbn. rewrite E. exact IH.
Qed.

(** Reading on from what follows an element. *)
Lemma resolve_after (rooted : bool) (kept : list (list ascii)) (ups : nat)
  (l : list ascii) :
  Lexical.resolve rooted kept ups
    (match Lexical.after l with
     | [] => []
     | _ :: tl => Lexical.split tl
     end)
  = Lexical.resolve rooted kept ups (Lexical.split (Lexical.after l)).
Proof.
  destruct (Lexical.after l) as [|s tl] eqn:E; [reflexivity|].
  cbn [Lexical.split]. rewrite (after_slash l s tl E). reflexivity.
Qed.

Lemma copy_elem_run (rest out : list ascii) :
  Path.copy_elem rest out = (rev (Lexical.run rest) ++ out, Lexical.after rest).
Proof.
  revert out. induction rest as [|c tl IH]; intros out; [reflexivity|].
  cbn [Path.copy_elem Lexical.run Lexical.after].
  destruct (Path.is_slash c); [reflexivity|].
  rewrite IH. cbn [rev]. rewrite <- app_assoc. reflexivity.
Qed.

Lemma run_empty (l : list ascii) :
  Lexical.is_empty (Lexical.run l) = Path.end_or_slash l.
Proof.
  destruct l as [|c tl]; [reflexivity|]. cbn.
  destruct (Path.is_slash c); reflexivity.
Qed.

Lemma run_end (l : list ascii) :
  Path.end_or_slash l = true -> Lexical.run l = [] /\ Lexical.after l = l.
Proof.
  destruct l as [|c tl]; [auto|]. cbn. intros ->. auto.
Qed.

(** The tests of the loop are tests on the element it is at. *)
Lemma dot_test (c : ascii) (tl : list ascii) :
  Path.is_dot c && Path.end_or_slash tl
  = Lexical.is_dot_elem (c :: Lexical.run tl).
Proof.
  cbn [Lexical.is_dot_elem]. rewrite <- run_empty.
  destruct (Lexical.run tl); cbn; [apply andb_true_r | apply andb_false_r].
Qed.

Lemma dotdot_test (c : ascii) (tl : list ascii) :
  Path.is_dot c && Path.head_is_dot tl && Path.end_or_slash (List.tl tl)
  = Lexical.is_dotdot_elem (c :: Lexical.run tl).
Proof.
  destruct tl as [|d tl2]; cbn [Path.head_is_dot Lexical.run List.tl].
  - cbn. rewrite andb_false_r. reflexivity.
  - destruct (Path.is_slash d) eqn:Ed.
    + cbn [Lexical.is_dotdot_elem].
      destruct (Path.is_dot d) eqn:Dd.
      * apply dot_is_no_slash in Dd. congruence.
      * rewrite andb_false_r. reflexivity.
    + cbn [Lexical.is_dotdot_elem]. rewrite <- run_empty.
      destruct (Lexical.run tl2); cbn;
        [rewrite andb_true_r | rewrite andb_false_r]; reflexivity.
Qed.

Lemma updots_length (ups : nat) :
  (List.length (Lexical.updots ups) =? 0)%nat = (ups =? 0)%nat.
Proof. destruct ups; reflexivity. Qed.

Lemma buf_length (rooted : bool) (kept : list (list ascii)) (ups : nat) :
  (List.length (Lexical.base rooted ups)
   <= List.length (Lexical.buf rooted kept ups))%nat.
Proof.
  induction kept as [|e kept IH]; cbn [Lexical.buf]; [lia|].
  rewrite length_app. unfold Lexical.sep.
  destruct (_ || _); cbn [List.length]; lia.
Qed.

Lemma sep_length (rooted : bool) (out : list ascii) :
  (List.length out <= List.length (Lexical.sep rooted out))%nat.
Proof.
  unfold Lexical.sep. destruct (_ || _); cbn [List.length]; lia.
Qed.

(** The loop can go back exactly when an element is kept. *)
Lemma can_backtrack (rooted : bool) (kept : list (list ascii)) (ups : nat) :
  Forall (fun e => Lexical.named e = true) kept ->
  (List.length (Lexical.base rooted ups)
   <? List.length (Lexical.buf rooted kept ups))%nat
  = negb (Lexical.is_empty kept).
Proof.
  intros Hk. destruct kept as [|e kept]; cbn [Lexical.buf Lexical.is_empty negb].
  - apply Nat.ltb_irrefl.
  - apply Nat.ltb_lt. inversion Hk as [|? ? He _]; subst.
    rewrite length_app, length_rev.
    pose proof (buf_length rooted kept ups).
    pose proof (sep_length rooted (Lexical.buf rooted kept ups)).
    destruct e as [|c e]; [discriminate|]. cbn [List.length]. lia.
Qed.

(** Going back through the bytes of an element. *)
Lemma backtrack_run (dd : nat) (r out : list ascii) (x : ascii) :
  Path.is_slash x = false ->
  Lexical.slash_free r = true ->
  (dd <= List.length out)%nat ->
  exists y, Path.is_slash y = false
            /\ Path.backtrack dd x (r ++ out) = Path.backtrack dd y out.
Proof.
  revert x. induction r as [|c r IH]; intros x Hx Hr Hd.
  - exists x. auto.
  - cbn in Hr. apply andb_prop in Hr. destruct Hr as [Hc Hr].
    apply negb_true_iff in Hc.
    cbn [app Path.backtrack]. rewrite Hx. cbn [negb andb].
    assert (L : (dd <? List.length (c :: r ++ out))%nat = true).
    { apply Nat.ltb_lt. cbn [List.length]. rewrite length_app. lia. }
    rewrite L. cbn [andb]. apply IH; assumption.
Qed.

Lemma slash_free_rev (e : list ascii) :
  Lexical.slash_free (rev e) = Lexical.slash_free e.
Proof.
  unfold Lexical.slash_free. induction e as [|c e IH]; [reflexivity|].
  cbn [rev forallb]. rewrite forallb_app, IH. cbn. rewrite andb_true_r.
  apply andb_comm.
Qed.

(** Going back from a kept element leaves the buffer of the others. *)
Lemma backtrack_pop (rooted : bool) (e : list ascii)
  (kept : list (list ascii)) (ups : nat) :
  Lexical.named e = true ->
  match Lexical.buf rooted (e :: kept) ups with
  | [] => []
  | x :: o => Path.backtrack (List.length (Lexical.base rooted ups)) x o
  end
  = Lexical.buf rooted kept ups.
Proof.
  intros He. unfold Lexical.named in He.
  apply andb_prop in He. destruct He as [He Hsf].
  apply andb_prop in He. destruct He as [Hne _].
  cbn [Lexical.buf].
  set (B := Lexical.buf rooted kept ups).
  set (dd := List.length (Lexical.base rooted ups)).
  assert (HB : (dd <= List.length B)%nat) by apply buf_length.
  rewrite <- slash_free_rev in Hsf.
  destruct (rev e) as [|x r] eqn:Er.
  { destruct e; [discriminate|]. cbn in Er.
    apply app_eq_nil in Er. destruct Er; discriminate. }
  cbn in Hsf. apply andb_prop in Hsf. destruct Hsf as [Hx Hr].
  apply negb_true_iff in Hx. cbn [app].
  pose proof (sep_length rooted B) as HS.
  destruct (backtrack_run dd r (Lexical.sep rooted B) x Hx Hr ltac:(lia))
    as (y & Hy & ->).
  unfold Lexical.sep.
  destruct ((rooted && negb (List.length B =? 1)%nat)
            || (negb rooted && negb (List.length B =? 0)%nat)) eqn:Es.
  - cbn [Path.backtrack]. rewrite Hy. cbn [negb andb].
    assert (L : (dd <? List.length ("/"%char :: B))%nat = true)
      by (apply Nat.ltb_lt; cbn [List.length]; lia).
    rewrite L. cbn [andb].
    destruct B as [|b B']; [reflexivity|]. cbn [Path.backtrack].
    rewrite andb_false_r. reflexivity.
  - destruct B as [|b B'] eqn:EB; [reflexivity|].
    cbn [Path.backtrack].
    assert (L : (dd <? List.length (b :: B'))%nat = false).
    { apply Nat.ltb_ge. destruct rooted; cbn [andb orb negb] in Es.
      - rewrite orb_false_r in Es.
        apply negb_false_iff, Nat.eqb_eq in Es. subst dd. cbn in *. lia.
      - cbn in Es. discriminate. }
    rewrite L. reflexivity.
Qed.

(** The loop of [Clean], from the buffer of a state, reads the rest of
    the path as [resolve] reads its elements. *)
Lemma clean_loop_resolve (fuel : nat) (rooted : bool) (rest : list ascii)
  (kept : list (list ascii)) (ups : nat) :
  (List.length rest <= fuel)%nat ->
  Forall (fun e => Lexical.named e = true) kept ->
  Path.clean_loop fuel rooted rest (Lexical.buf rooted kept ups)
    (List.length (Lexical.base rooted ups))
  = Lexical.buf rooted
      (fst (Lexical.resolve rooted kept ups (Lexical.split rest)))
      (snd (Lexical.resolve rooted kept ups (Lexical.split rest))).
Proof.
  revert rest kept ups.
  induction fuel as [|fuel IH]; intros rest kept ups Hf Hk.
  { destruct rest; [reflexivity | cbn in Hf; lia]. }
  destruct rest as [|c tl]; [reflexivity|].
  cbn [List.length] in Hf.
  cbn [Path.clean_loop].
  destruct (Path.is_slash c) eqn:Hc.
  { cbn [Lexical.split]. rewrite Hc. cbn [Lexical.resolve Lexical.is_empty orb].
    apply IH; [lia | exact Hk]. }
  rewrite (split_run (c :: tl)). cbn [Lexical.run Lexical.after]. rewrite Hc.
  cbn [Lexical.resolve Lexical.is_empty orb].
  rewrite dot_test, dotdot_test.
  destruct (Lexical.is_dot_elem (c :: Lexical.run tl)) eqn:Ed.
  { (* a [.] element *)
    rewrite <- dot_test in Ed. apply andb_prop in Ed. destruct Ed as [_ Ee].
    destruct (run_end tl Ee) as [_ Ea].
    rewrite resolve_after, Ea. apply IH; [lia | exact Hk]. }
  destruct (Lexical.is_dotdot_elem (c :: Lexical.run tl)) eqn:Edd.
  { (* a [..] element *)
    assert (Ea : Lexical.after tl = List.tl tl).
    { rewrite <- dotdot_test in Edd.
      apply andb_prop in Edd. destruct Edd as [Edd Ee].
      apply andb_prop in Edd. destruct Edd as [_ Eh].
      destruct tl as [|d tl2]; [reflexivity|]. cbn in Eh.
      apply dot_is_no_slash in Eh. cbn [Lexical.after List.tl]. rewrite Eh.
      apply (run_end tl2 Ee). }
    assert (Hl : (List.length (List.tl tl) <= fuel)%nat)
      by (destruct tl; cbn in *; lia).
    rewrite (can_backtrack rooted kept ups Hk).
    destruct kept as [|e kept']; cbn [Lexical.is_empty negb].
    - destruct rooted; cbn [negb].
      + rewrite resolve_after, Ea. apply IH; [exact Hl | exact Hk].
      + cbv zeta.
        assert (Eb : "."%char :: "."%char ::
                       (if (0 <? List.length (Lexical.buf false [] ups))%nat
                        then "/"%char :: Lexical.buf false [] ups
                        else Lexical.buf false [] ups)
                     = Lexical.buf false [] (S ups)).
        { cbn [Lexical.buf Lexical.base Lexical.updots].
          destruct ups; reflexivity. }
        rewrite Eb.
        change (List.length (Lexical.buf false [] (S ups)))
          with (List.length (Lexical.base false (S ups))).
        rewrite resolve_after, Ea. apply IH; [exact Hl | exact Hk].
    - inversion Hk as [|? ? He Hk']; subst.
      rewrite (backtrack_pop rooted e kept' ups He).
      rewrite resolve_after, Ea. apply IH; [exact Hl | exact Hk'].
  }
  (* a name *)
  cbv zeta. fold (Lexical.sep rooted (Lexical.buf rooted kept ups)).
  rewrite copy_elem_run. cbn [Lexical.run Lexical.after]. rewrite Hc.
  rewrite resolve_after.
  change (rev (c :: Lexical.run tl)
            ++ Lexical.sep rooted (Lexical.buf rooted kept ups))
    with (Lexical.buf rooted ((c :: Lexical.run tl) :: kept) ups).
  apply IH.
  - pose proof (after_length tl). lia.
  - constructor; [|exact Hk]. unfold Lexical.named.
    rewrite Ed. cbn [Lexical.is_empty negb andb].
    cbn. rewrite Hc. apply run_slash_free.
Qed.

Lemma join_snoc (xs : list (list ascii)) (e : list ascii) :
  Lexical.join (xs ++ [e])
  = match xs with
    | [] => e
    | _ => Lexical.join xs ++ "/"%char :: e
    end.
Proof.
  induction xs as [|x xs IH]; [reflexivity|].
  cbn [app Lexical.join]. rewrite IH.
  destruct xs as [|y ys]; [reflexivity|].
  cbn [app]. rewrite <- app_assoc. reflexivity.
Qed.

Lemma join_nonempty (xs : list (list ascii)) :
  xs <> [] ->
  Forall (fun e => Lexical.is_empty e = false) xs ->
  Lexical.join xs <> [].
Proof.
  intros Hx Hall. destruct xs as [|x xs]; [contradiction|].
  inversion Hall as [|? ? He _]; subst.
  destruct x as [|c x]; [discriminate|].
  cbn. destruct xs; discriminate.
Qed.

Lemma rev_updots (ups : nat) :
  rev (Lexical.updots ups) = Lexical.join (repeat Lexical.dotdot ups).
Proof.
  induction ups as [|n IH]; [reflexivity|].
  destruct n as [|m]; [reflexivity|].
  change (Lexical.updots (S (S m)))
    with ("."%char :: "."%char :: "/"%char :: Lexical.updots (S m)).
  change (rev ("."%char :: "."%char :: "/"%char :: Lexical.updots (S m)))
    with (((rev (Lexical.updots (S m)) ++ ["/"%char]) ++ ["."%char])
            ++ ["."%char]).
  rewrite IH.
  change (repeat Lexical.dotdot (S (S m)))
    with (Lexical.dotdot :: repeat Lexical.dotdot (S m)).
  rewrite repeat_cons, join_snoc. cbn [repeat].
  rewrite <- !app_assoc. reflexivity.
Qed.

Lemma named_nonempty (xs : list (list ascii)) :
  Forall (fun e => Lexical.named e = true) xs ->
  Forall (fun e => Lexical.is_empty e = false) xs.
Proof.
  apply Forall_impl. intros e He. unfold Lexical.named in He.
  destruct e; [discriminate | reflexivity].
Qed.

Lemma ups_nonempty (ups : nat) :
  Forall (fun e : list ascii => Lexical.is_empty e = false)
         (repeat Lexical.dotdot ups).
Proof.
  induction ups; cbn; constructor; [reflexivity | assumption].
Qed.

(** The buffer, read from its first byte, is the path written for the
    state. *)
Lemma rev_buf (rooted : bool) (kept : list (list ascii)) (ups : nat) :
  Forall (fun e => Lexical.named e = true) kept ->
  (rooted = true -> ups = O) ->
  rev (Lexical.buf rooted kept ups) = Lexical.written rooted kept ups.
Proof.
  intros Hk Hr. induction kept as [|e kept IH].
  - unfold Lexical.written. cbn [Lexical.buf rev]. rewrite app_nil_r.
    destruct rooted.
    + rewrite (Hr eq_refl). reflexivity.
    + apply rev_updots.
  - inversion Hk as [|? ? He Hk']; subst. specialize (IH Hk').
    cbn [Lexical.buf]. rewrite rev_app_distr, rev_involutive.
    set (B := Lexical.buf rooted kept ups) in *.
    set (X := repeat Lexical.dotdot ups ++ rev kept).
    assert (HX : Forall (fun e => Lexical.is_empty e = false) X).
    { apply Forall_app. split; [apply ups_nonempty|].
      apply Forall_rev. apply named_nonempty. exact Hk'. }
    assert (W : Lexical.written rooted (e :: kept) ups
                = (if rooted then ["/"%char] else [])
                    ++ match X with
                       | [] => e
                       | _ => Lexical.join X ++ "/"%char :: e
                       end).
    { unfold Lexical.written. cbn [rev]. rewrite app_assoc. fold X.
      rewrite join_snoc. destruct rooted; reflexivity. }
    rewrite W.
    assert (LB : List.length B
                 = ((if rooted then 1 else 0) + List.length (Lexical.join X))%nat).
    { rewrite <- length_rev, IH. unfold Lexical.written. fold X.
      destruct rooted; reflexivity. }
    unfold Lexical.sep. destruct X as [|x X'] eqn:EX.
    + cbn [Lexical.join List.length] in LB. rewrite LB.
      unfold Lexical.written in IH. fold X in IH. rewrite EX in IH.
      destruct rooted; cbn; cbn in IH; rewrite IH; reflexivity.
    + assert (Hj : Lexical.join (x :: X') <> [])
        by (apply join_nonempty; [discriminate | exact HX]).
      assert (Hl : (0 < List.length (Lexical.join (x :: X')))%nat).
      { destruct (Lexical.join (x :: X')); [contradiction | cbn; lia]. }
      assert (Es : (rooted && negb (List.length B =? 1)%nat)
                   || (negb rooted && negb (List.length B =? 0)%nat) = true).
      { rewrite LB. destruct rooted; cbn [andb orb negb].
        - rewrite orb_false_r. apply negb_true_iff, Nat.eqb_neq. lia.
        - apply negb_true_iff, Nat.eqb_neq. lia. }
      rewrite Es. cbn [rev]. rewrite IH. unfold Lexical.written. fold X.
      rewrite EX. destruct rooted; cbn [app]; rewrite <- ?app_assoc; reflexivity.
Qed.

Lemma split_slash_free (l : list ascii) :
  Forall (fun e => Lexical.slash_free e = true) (Lexical.split l).
Proof.
  induction l as [|c l IH]; [repeat constructor|].
  cbn [Lexical.split]. destruct (Path.is_slash c) eqn:Hc.
  - constructor; [reflexivity | exact IH].
  - destruct (Lexical.split l) as [|e es]; [repeat constructor; cbn; now rewrite Hc|].
    inversion IH; subst. constructor; [|assumption].
    cbn. rewrite Hc. assumption.
Qed.

(** What [resolve] keeps are names or [..], and the root has no [..] in
    front. *)
Lemma resolve_named (rooted : bool) (els kept : list (list ascii)) (ups : nat) :
  Forall (fun e => Lexical.slash_free e = true) els ->
  Forall (fun e => Lexical.named e = true) kept ->
  Forall (fun e => Lexical.named e = true)
         (fst (Lexical.resolve rooted kept ups els)).
Proof.
  revert kept ups. induction els as [|e els IH]; intros kept ups Hs Hk;
    [exact Hk|].
  inversion Hs as [|? ? He Hs']; subst. cbn [Lexical.resolve].
  destruct (Lexical.is_empty e) eqn:E1; cbn [orb]; [apply IH; assumption|].
  destruct (Lexical.is_dot_elem e) eqn:E2; [apply IH; assumption|].
  destruct (Lexical.is_dotdot_elem e).
  - destruct kept as [|k kept'].
    + destruct rooted; apply IH; assumption.
    + inversion Hk; subst. apply IH; assumption.
  - apply IH; [assumption|]. constructor; [|assumption].
    unfold Lexical.named. rewrite E1, E2, He. reflexivity.
Qed.

Lemma resolve_rooted (els kept : list (list ascii)) (ups : nat) :
  snd (Lexical.resolve true kept ups els) = ups.
Proof.
  revert kept. induction els as [|e els IH]; intros kept; [reflexivity|].
  cbn [Lexical.resolve].
  destruct (_ || _); [apply IH|].
  destruct (Lexical.is_dotdot_elem e); [|apply IH].
  destruct kept; apply IH.
Qed.

(** [path.Clean] computes the lexical meaning of the path. *)
Lemma Clean_is_lexical (p : string) : Path.Clean p = Lexical.Clean p.
Proof.
  unfold Path.Clean, Lexical.Clean. cbv zeta.
  rewrite string_length_list.
  destruct (list_ascii_of_string p) as [|c l]; [reflexivity|].
  cbn [Lexical.is_rooted].
  assert (Fin : forall rooted kept ups,
            Forall (fun e => Lexical.named e = true) kept ->
            (rooted = true -> ups = O) ->
            (if (List.length (Lexical.buf rooted kept ups) =? 0)%nat
             then "."%string
             else string_of_list_ascii (rev (Lexical.buf rooted kept ups)))
            = match Lexical.written rooted kept ups with
              | [] => "."%string
              | x :: o => string_of_list_ascii (x :: o)
              end).
  { intros rooted kept ups Hk Hr. rewrite <- (rev_buf rooted kept ups Hk Hr).
    rewrite <- length_rev.
    destruct (rev (Lexical.buf rooted kept ups)); reflexivity. }
  destruct (Path.is_slash c) eqn:Hc.
  - pose proof (clean_loop_resolve (List.length (c :: l)) true l [] 0
                  ltac:(cbn; lia) (Forall_nil _)) as E.
    cbn [Lexical.buf Lexical.base List.length] in E.
    cbn [List.length]. rewrite E.
    cbn [Lexical.split]. rewrite Hc. cbn [Lexical.resolve Lexical.is_empty orb].
    pose proof (resolve_named true (Lexical.split l) [] 0
                  (split_slash_free l) (Forall_nil _)) as Hn.
    pose proof (resolve_rooted (Lexical.split l) [] 0) as Hu.
    destruct (Lexical.resolve true [] 0 (Lexical.split l)) as [kept ups].
    cbn [fst snd] in *. apply Fin; [exact Hn | intros _; exact Hu].
  - pose proof (clean_loop_resolve (List.length (c :: l)) false (c :: l) [] 0
                  (le_n _) (Forall_nil _)) as E.
    cbn [Lexical.buf Lexical.base Lexical.updots] in E.
    change (List.length (@nil ascii)) with O in E. rewrite E.
    pose proof (resolve_named false (Lexical.split (c :: l)) [] 0
                  (split_slash_free (c :: l)) (Forall_nil _)) as Hn.
    destruct (Lexical.resolve false [] 0 (Lexical.split (c :: l))) as [kept ups].
    cbn [fst snd] in *. apply Fin; [exact Hn | discriminate].
Qed.

Lemma split_cons (l : list ascii) : exists e es, Lexical.split l = e :: es.
Proof. rewrite split_run. eauto. Qed.

Lemma split_app_slash (a r : list ascii) :
  Lexical.split (a ++ "/"%char :: r) = Lexical.split a ++ Lexical.split r.
Proof.
  induction a as [|c a IH]; [reflexivity|].
  cbn [app Lexical.split]. rewrite IH.
  destruct (Path.is_slash c); [reflexivity|].
  destruct (split_cons a) as (e & es & ->). reflexivity.
Qed.

Lemma split_elem (e : list ascii) :
  Lexical.slash_free e = true -> Lexical.split e = [e].
Proof.
  induction e as [|c e IH]; [reflexivity|]. cbn.
  destruct (Path.is_slash c); [discriminate|]. cbn. intros He.
  rewrite (IH He). reflexivity.
Qed.

Lemma split_join (els : list (list ascii)) :
  els <> [] ->
  Forall (fun e => Lexical.slash_free e = true) els ->
  Lexical.split (Lexical.join els) = els.
Proof.
  induction els as [|e els IH]; [contradiction|]. intros _ Hall.
  inversion Hall as [|? ? He Hall']; subst.
  destruct els as [|e2 els]; [apply split_elem; exact He|].
  change (Lexical.join (e :: e2 :: els))
    with (e ++ "/"%char :: Lexical.join (e2 :: els)).
  rewrite split_app_slash, (split_elem e He), IH; [reflexivity | discriminate | exact Hall'].
Qed.

Lemma plain_named (e : list ascii) :
  Lexical.plain e = true ->
  Lexical.named e = true /\ Lexical.is_dotdot_elem e = false.
Proof.
  unfold Lexical.plain. intros E. apply andb_prop in E. destruct E as [E1 E2].
  split; [exact E1 | apply negb_true_iff; exact E2].
Qed.

Lemma named_parts (e : list ascii) :
  Lexical.named e = true ->
  Lexical.is_empty e = false /\ Lexical.is_dot_elem e = false
  /\ Lexical.slash_free e = true.
Proof.
  unfold Lexical.named. intros E.
  apply andb_prop in E. destruct E as [E E3].
  apply andb_prop in E. destruct E as [E1 E2].
  apply negb_true_iff in E1. apply negb_true_iff in E2. auto.
Qed.

(** Names are kept, in their order. *)
Lemma resolve_plain (rooted : bool) (els kept : list (list ascii)) (ups : nat) :
  Forall (fun e => Lexical.plain e = true) els ->
  Lexical.resolve rooted kept ups els = (rev els ++ kept, ups).
Proof.
  revert kept. induction els as [|e els IH]; intros kept Hall; [reflexivity|].
  inversion Hall as [|? ? He Hall']; subst.
  destruct (plain_named e He) as [Hn Hdd].
  destruct (named_parts e Hn) as (H1 & H2 & _).
  cbn [Lexical.resolve]. rewrite H1, H2, Hdd. cbn [orb].
  rewrite (IH _ Hall'). cbn [rev]. rewrite <- app_assoc. reflexivity.
Qed.

(** A relative path made of names is returned as it is. *)
Lemma Clean_plain (els : list (list ascii)) :
  els <> [] ->
  Forall (fun e => Lexical.plain e = true) els ->
  Path.Clean (string_of_list_ascii (Lexical.join els))
  = string_of_list_ascii (Lexical.join els)
  /\ Lexical.is_rooted (Lexical.join els) = false.
Proof.
  intros Hne Hall.
  assert (Hnamed : Forall (fun e => Lexical.named e = true) els).
  { revert Hall. apply Forall_impl. intros e He. apply (plain_named e He). }
  assert (Hsf : Forall (fun e => Lexical.slash_free e = true) els).
  { revert Hnamed. apply Forall_impl. intros e He. apply (named_parts e He). }
  assert (Hr : Lexical.is_rooted (Lexical.join els) = false).
  { destruct els as [|e els]; [contradiction|].
    inversion Hnamed as [|? ? He _]; subst.
    destruct (named_parts e He) as (H1 & _ & H3).
    destruct e as [|c e]; [discriminate|]. cbn in H3.
    apply andb_prop in H3. destruct H3 as [H3 _]. apply negb_true_iff in H3.
    destruct els; cbn; exact H3. }
  split; [|exact Hr].
  rewrite Clean_is_lexical. unfold Lexical.Clean. cbv zeta.
  rewrite list_ascii_of_string_of_list_ascii, Hr, (split_join els Hne Hsf),
    (resolve_plain false els [] 0 Hall).
  unfold Lexical.written. rewrite app_nil_r. cbn [repeat app].
  rewrite rev_involutive.
  pose proof (join_nonempty els Hne (named_nonempty els Hnamed)) as Hj.
  destruct (Lexical.join els); [contradiction | reflexivity].
Qed.

Lemma dotdot_named : Lexical.named Lexical.dotdot = true.
Proof. reflexivity. Qed.

(** The elements of the result after the first are names or [..]: none
    is empty and none is [.]. *)
Lemma Clean_elements (p : string) :
  Forall (fun e => Lexical.named e = true)
         (List.tl (Lexical.split (list_ascii_of_string (Path.Clean p))))
  \/ Path.Clean p = "/"%string.
Proof.
  rewrite Clean_is_lexical. unfold Lexical.Clean. cbv zeta.
  set (l := list_ascii_of_string p).
  pose proof (resolve_named (Lexical.is_rooted l) (Lexical.split l) [] 0
                (split_slash_free l) (Forall_nil _)) as Hn.
  destruct (Lexical.resolve (Lexical.is_rooted l) [] 0 (Lexical.split l))
    as [kept ups].
  cbn [fst] in Hn. unfold Lexical.written.
  set (X := repeat Lexical.dotdot ups ++ rev kept).
  assert (HX : Forall (fun e => Lexical.named e = true) X).
  { apply Forall_app. split.
    - clear. induction ups; cbn; constructor; [reflexivity | assumption].
    - apply Forall_rev. exact Hn. }
  assert (Hsf : Forall (fun e => Lexical.slash_free e = true) X).
  { revert HX. apply Forall_impl. intros e He. apply (named_parts e He). }
  destruct X as [|x X'] eqn:EX.
  - destruct (Lexical.is_rooted l); [right; reflexivity | left; constructor].
  - assert (Hs : Lexical.split (Lexical.join (x :: X')) = x :: X')
      by (apply split_join; [discriminate | exact Hsf]).
    left. destruct (Lexical.is_rooted l).
    + rewrite list_ascii_of_string_of_list_ascii.
      cbn [Lexical.split]. change (Path.is_slash "/"%char) with true.
      cbn [List.tl]. rewrite Hs. exact HX.
    + pose proof (join_nonempty (x :: X') ltac:(discriminate)
                    (named_nonempty _ HX)) as Hj.
      destruct (Lexical.join (x :: X')) as [|y o] eqn:Ej; [contradiction|].
      rewrite list_ascii_of_string_of_list_ascii, Hs.
      inversion HX; assumption.
Qed.

(** The result has no doubled slash and no [.] between slashes. *)
Lemma Clean_normal (p a b : string) :
  Path.Clean p <> (a ++ "//" ++ b)%string
  /\ Path.Clean p <> (a ++ "/./" ++ b)%string.
Proof.
  assert (Key : forall (mid : list ascii) (e : list ascii),
            Lexical.named e = false ->
            Lexical.split ("/"%char :: mid ++ list_ascii_of_string b)
              = [] :: e :: Lexical.split (list_ascii_of_string b) ->
            Path.Clean p
              <> (a ++ string_of_list_ascii ("/"%char :: mid) ++ b)%string).
  { intros mid e He Hs E.
    apply (f_equal list_ascii_of_string) in E.
    rewrite !list_ascii_app, list_ascii_of_string_of_list_ascii in E.
    destruct (Clean_elements p) as [Hall | Hroot].
    - rewrite E in Hall. cbn [app] in Hall.
      rewrite split_app_slash in Hall.
      destruct (split_cons (list_ascii_of_string a)) as (h & t & Ea).
      rewrite Ea in Hall. cbn [app List.tl] in Hall.
      apply Forall_app in Hall. destruct Hall as [_ Hall].
      assert (Hs' : Lexical.split (mid ++ list_ascii_of_string b)
                    = e :: Lexical.split (list_ascii_of_string b)).
      { cbn [Lexical.split] in Hs. change (Path.is_slash "/"%char) with true in Hs.
        inversion Hs. reflexivity. }
      rewrite Hs' in Hall. inversion Hall; subst. congruence.
    - rewrite Hroot in E. apply (f_equal (@List.length ascii)) in E.
      cbn [app] in E. rewrite length_app in E. cbn [List.length] in E.
      assert (L : Lexical.split ("/"%char :: mid ++ list_ascii_of_string b)
                  <> [[]; []]).
      { rewrite Hs. intros Z0. inversion Z0.
        destruct (split_cons (list_ascii_of_string b)) as (h & t & Eb).
        congruence. }
      destruct (mid ++ list_ascii_of_string b) as [|m rest] eqn:Em.
      + apply L. reflexivity.
      + cbn in E. lia. }
  split.
  - apply (Key ["/"%char] []); reflexivity.
  - apply (Key ["."%char; "/"%char] ["."%char]); [reflexivity|].
    cbn [app Lexical.split].
    change (Path.is_slash "/"%char) with true.
    change (Path.is_slash "."%char) with false. cbn iota. reflexivity.
Qed.

(** ** [adapter.OpenFile] *)

Lemma cleanPath_unrooted (c : ascii) (rest : string) :
  Path.is_slash c = false ->
  Adapter.cleanPath (String c rest) = Path.Clean (String c rest).
Proof.
  unfold Path.is_slash, Adapter.cleanPath. intros ->. reflexivity.
Qed.

(** C9.  [adapter.OpenFile] calls the namespace's [Open] once, with
    [cleanPath] of its path argument, and the file it returns carries that
    name.  [cleanPath] leaves the empty path as it is; from any other path
    it drops one leading slash, if there is one, and applies [path.Clean]
    to what remains.  [path.Clean] computes the lexical meaning of the
    path ([Lexical.Clean]: empty and [.] elements dropped, [..] resolved,
    the rest joined by single slashes), so a "/./" and a "//" inside the
    path collapse to "/", a relative path made of names is passed as it
    is, with or without the leading slash, and what is passed never
    contains "//" or "/./", is empty for the empty path only, and starts
    with a slash only when the path started with two.  For
    "/sub/./file.txt" the namespace receives "sub/file.txt". *)
Theorem adapter_OpenFile_passes_clean_path :
  forall (N Fh : Type) (U : error -> Errno) (a : Adapter.adapter N Fh)
         (path : string) (flag : Z) (perm : FileMode) (w : Adapter.World N),
    let r := Adapter.OpenFile U a path flag perm w in
    Adapter.opened (snd r) = Adapter.opened w ++ [Adapter.cleanPath path]
    /\ FsFile.path (FsFile.self (fst (fst r))) = Adapter.cleanPath path
    /\ Adapter.cleanPath "" = ""%string
    /\ (forall rest, Adapter.cleanPath (String "/" rest) = Path.Clean rest)
    /\ (forall c rest, c <> "/"%char ->
          Adapter.cleanPath (String c rest) = Path.Clean (String c rest))
    /\ (forall a b : string, a <> ""%string ->
          Adapter.cleanPath (a ++ "/./" ++ b) = Adapter.cleanPath (a ++ "/" ++ b)
          /\ Adapter.cleanPath (a ++ "//" ++ b) = Adapter.cleanPath (a ++ "/" ++ b))
    /\ Adapter.cleanPath "/sub/./file.txt" = "sub/file.txt"%string
    /\ (forall p : string, Path.Clean p = Lexical.Clean p)
    /\ (forall els : list (list ascii),
          els <> [] ->
          Forall (fun e => Lexical.plain e = true) els ->
          Adapter.cleanPath (string_of_list_ascii (Lexical.join els))
            = string_of_list_ascii (Lexical.join els)
          /\ Adapter.cleanPath
               (String "/" (string_of_list_ascii (Lexical.join els)))
             = string_of_list_ascii (Lexical.join els))
    /\ (forall name a b : string,
          Adapter.cleanPath name <> (a ++ "//" ++ b)%string
          /\ Adapter.cleanPath name <> (a ++ "/./" ++ b)%string)
    /\ (forall name : string,
          (Adapter.cleanPath name = ""%string <-> name = ""%string)
          /\ String.prefix "/" (Adapter.cleanPath name)
             = String.prefix "//" name).
Proof.
  intros N Fh U a path flag perm w r. subst r.
  unfold Adapter.OpenFile, bind, Adapter.call_Open.
  destruct (Adapter.fs_Open _ _ (Adapter.fs _ _ a) (Adapter.cleanPath path)
              (Adapter.ns w)) as [[fh err] n].
  cbn [fst snd Adapter.opened FsFile.self FsFile.path FsFile.NewFsFile].
  split; [reflexivity|]. split; [reflexivity|]. split; [reflexivity|].
  split; [reflexivity|].
  split; [|split; [|split; [reflexivity|split; [|split; [|split]]]]].
  - intros c rest Hc. unfold Adapter.cleanPath.
    destruct (Ascii.eqb_spec c "/"); [contradiction | reflexivity].
  - intros a0 b Ha. apply cleanPath_collapses. exact Ha.
  - exact Clean_is_lexical.
  - intros els Hne Hall. destruct (Clean_plain els Hne Hall) as [Hc Hr].
    assert (E : Adapter.cleanPath (string_of_list_ascii (Lexical.join els))
                = string_of_list_ascii (Lexical.join els)).
    { destruct (Lexical.join els) as [|c o] eqn:Ej.
      - reflexivity.
      - cbn [string_of_list_ascii] in *.
        rewrite (cleanPath_unrooted c _ Hr). exact Hc. }
    split; [exact E | exact Hc].
  - intros name a0 b. destruct name as [|c rest].
    + cbn [Adapter.cleanPath].
      split; intros E; destruct a0; discriminate.
    + cbn [Adapter.cleanPath]. cbv zeta. apply Clean_normal.
  - intros name. split.
    + split; [|intros ->; reflexivity].
      destruct name as [|c rest]; [reflexivity|]. cbn [Adapter.cleanPath].
      intros E. apply Clean_not_empty in E. contradiction.
    + destruct name as [|c rest]; [reflexivity|].
      cbn [Adapter.cleanPath]. cbv zeta. rewrite Clean_keeps_rootedness.
      change (String.prefix "//" (String c rest))
        with (if ascii_dec "/" c then String.prefix "/" rest else false).
      destruct (c =? "/")%char eqn:Hc.
      * apply Ascii.eqb_eq in Hc. subst c.
        destruct (ascii_dec "/" "/"); [reflexivity | contradiction].
      * apply Ascii.eqb_neq in Hc. rewrite prefix_slash.
        destruct (ascii_dec "/" c) as [Heq|_]; [congruence|].
        unfold Path.is_slash. apply Ascii.eqb_neq. exact Hc.
Qed.
